(** * Grade spreadsheet engine: a shallow embedding of the store and its helpers

    Sources embedded here:
    - [frontend/src/stores/grade.ts]   (the Pinia store [useGradeStore])
    - [frontend/src/lib/api.ts]        ([SelectionManager], [ExcelNavigation],
                                       [useVirtualScroll],
                                       [useDynamicVirtualScroll])
    - [types/grade]                    (the two [DEFAULT_*] constants)

    A JavaScript number is a rational ([Q]); [NaN] and the infinities are
    outside the model.  The store's score arithmetic ([JS.add], [JS.mul],
    [JS.div]) is exact.  Where a property depends on how a quotient or a
    product was rounded, as the window of [useVirtualScroll] does, the
    operation is followed by [Double.round64], the rounding of IEEE 754
    binary64 to the nearest double, ties to even ([VirtualScroll64]).
    A [Record<string, T>] is an association list in insertion order.  Mutable
    state is threaded explicitly: every action is a function from [State] to
    [State]. *)

From Stdlib Require Import ZArith NArith QArith Qround Qabs Qpower List String Ascii Bool Lia Lqa.
From Stdlib Require Import DecimalString DecimalN DecimalFacts Permutation Sorted.
Import ListNotations.

(* ================================================================= *)
(** ** JavaScript primitives *)

Module JS.

(** [number | null]; [None] is [null]. *)
Definition Value : Type := option Q.

(** [a ?? d] *)
Definition nullish {A : Type} (a : option A) (d : A) : A :=
  match a with Some x => x | None => d end.

(** [a < b] and [a > b] on numbers, as booleans. *)
Definition lt (a b : Q) : bool := negb (Qle_bool b a).
Definition gt (a b : Q) : bool := lt b a.

Definition Math_max (a b : Q) : Q := if Qle_bool a b then b else a.
Definition Math_min (a b : Q) : Q := if Qle_bool a b then a else b.

(** Arithmetic returns the number in lowest terms, so that equal numbers
    computed along different paths are the same value. *)
Definition add (a b : Q) : Q := Qred (a + b).
Definition sub (a b : Q) : Q := Qred (a - b).
Definition mul (a b : Q) : Q := Qred (a * b).
Definition div (a b : Q) : Q := Qred (a / b).

Definition Math_floor (a : Q) : Z := Qfloor a.
Definition Math_ceil (a : Q) : Z := Qceiling a.

(** [Number.isInteger] *)
Definition isInteger (a : Q) : bool := Qeq_bool a (inject_Z (Qfloor a)).

(** Decimal rendering of a natural number. *)
Definition N_toString (n : N) : string :=
  NilZero.string_of_uint (N.to_uint n).

Definition Z_toString (z : Z) : string :=
  match z with
  | Zneg p => String "-" (N_toString (Npos p))
  | _ => N_toString (Z.to_N z)
  end.

(** The first [fuel] digits of the fractional part [f] (with [0 <= f < 1]). *)
Fixpoint frac_digits (fuel : nat) (f : Q) : list Z :=
  match fuel with
  | O => []
  | S k =>
      let t := Qred (f * 10) in
      let d := Qfloor t in
      d :: frac_digits k (Qred (t - inject_Z d))
  end.

Fixpoint strip_zeros (ds : list Z) : list Z :=
  match ds with
  | [] => []
  | d :: r =>
      match strip_zeros r with
      | [] => if (d =? 0)%Z then [] else [d]
      | r' => d :: r'
      end
  end.

Definition digits_toString (ds : list Z) : string :=
  fold_right (fun d acc => append (Z_toString d) acc) EmptyString ds.

(** [x.toString()]: sign, integer part and, when there is one, the
    fractional part without trailing zeros.  Exact for the decimals a score
    can be (at most 17 fractional digits are produced). *)
Definition Number_toString (x : Q) : string :=
  let a := Qabs x in
  let ip := Qfloor a in
  let fr := strip_zeros (frac_digits 17 (Qred (a - inject_Z ip))) in
  append (if lt x 0 then "-" else "")
    (append (Z_toString ip)
       (match fr with
        | [] => ""
        | _ => String "." (digits_toString fr)
        end))%string.

Fixpoint pad_left (n : nat) (s : string) : string :=
  match n with
  | O => s
  | S k => String "0" (pad_left k s)
  end.

(** [x.toFixed(d)]: the magnitude is rounded to [d] fractional digits (ties
    to the larger) and printed with exactly [d] digits after the point. *)
Definition Number_toFixed (d : nat) (x : Q) : string :=
  let scale := (10 ^ Z.of_nat d)%Z in
  let n := Qfloor (Qabs x * inject_Z scale + (1 # 2)) in
  let ip := (n / scale)%Z in
  let fp := Z_toString (n mod scale) in
  append (if lt x 0 then "-" else "")
    (append (Z_toString ip)
       (match d with
        | O => ""
        | _ => String "." (pad_left (d - String.length fp) fp)
        end))%string.

(** [s.split('-')] *)
Fixpoint split_dash (s : string) : list string :=
  match s with
  | EmptyString => [EmptyString]
  | String c r =>
      if Ascii.eqb c "-" then EmptyString :: split_dash r
      else match split_dash r with
           | [] => [String c EmptyString]
           | h :: t => String c h :: t
           end
  end.

Definition is_digit (c : ascii) : bool :=
  (48 <=? nat_of_ascii c)%nat && (nat_of_ascii c <=? 57)%nat.

Fixpoint leading_digits (s : string) : string :=
  match s with
  | EmptyString => EmptyString
  | String c r => if is_digit c then String c (leading_digits r) else EmptyString
  end.

(** [parseInt(s)] on the strings the store gives it (no sign, no blanks, no
    [0x] prefix): the value of the leading run of digits, [None] for
    [NaN]. *)
Definition parseInt (s : string) : option N :=
  match NilZero.uint_of_string (leading_digits s) with
  | Some d => Some (N.of_uint d)
  | None => None
  end.

End JS.

(* ================================================================= *)
(** ** Binary64 numbers

    Every arithmetic operation of the engine gives the double nearest to the
    exact result, ties going to the double with an even significand. *)

Module Double.

Definition pow2 (e : Z) : Q := 2 ^ e.

(** [floor(log2 x)] for [x > 0]. *)
Definition ilog2 (x : Q) : Z :=
  let k := (Z.log2 (Qnum x) - Z.log2 (Zpos (Qden x)))%Z in
  if Qle_bool (pow2 k) x then k else (k - 1)%Z.

(** The integer nearest to [x], the even one of the two when [x] lies half
    way. *)
Definition nearestEven (x : Q) : Z :=
  let f := Qfloor x in
  match Qcompare (x - inject_Z f) (1 # 2) with
  | Lt => f
  | Gt => (f + 1)%Z
  | Eq => if Z.even f then f else (f + 1)%Z
  end.

(** The exponent of the spacing of the doubles around [x > 0]: 52 binary
    places below the leading bit of [x], and never below the spacing of the
    subnormal numbers. *)
Definition ulpExponent (x : Q) : Z := Z.max (ilog2 x - 52) (-1074).

Definition roundPositive (x : Q) : Q :=
  let u := pow2 (ulpExponent x) in
  Qred (inject_Z (nearestEven (x / u)) * u).

(** The double nearest to [x].  A result beyond the largest double, which
    the engine turns into an infinity, is outside the model. *)
Definition round64 (x : Q) : Q :=
  match Qnum x with
  | Z0 => 0
  | Zpos _ => roundPositive x
  | Zneg _ => - roundPositive (- x)
  end.

(** [a / b] and [a * b] on doubles. *)
Definition div (a b : Q) : Q := round64 (a / b).
Definition mul (a b : Q) : Q := round64 (a * b).

(** A decimal literal of the source or a measured length: the double it
    denotes. *)
Definition literal (x : Q) : Q := round64 x.

End Double.

(* ================================================================= *)
(** ** [Record<string, T>]: an object used as a map, in insertion order *)

Module Obj.

Definition t (V : Type) : Type := list (string * V).

Fixpoint get {V} (o : t V) (k : string) : option V :=
  match o with
  | [] => None
  | (k', v) :: r => if String.eqb k' k then Some v else get r k
  end.

(** [o[k] = v]: overwrite in place, or append a new property. *)
Fixpoint set {V} (o : t V) (k : string) (v : V) : t V :=
  match o with
  | [] => [(k, v)]
  | (k', v') :: r =>
      if String.eqb k' k then (k', v) :: r else (k', v') :: set r k v
  end.

Definition entries {V} (o : t V) : list (string * V) := o.
Definition keys {V} (o : t V) : list string := map fst o.

End Obj.

(* ================================================================= *)
(** ** Data model ([types/grade]) *)

Module Types.
Import JS.

Record GradeColumn : Type := mkColumn {
  cid : string;            (* id *)
  maxScore : Q;
  weight : Q;
  isRequired : bool
}.

Record StudentGradeRow : Type := mkRow {
  rid : N;                 (* id *)
  grades : Obj.t Value;
  totalScore : Q;
  averageScore : Q;
  rank : Z;
  isModified : bool;
  hasErrors : bool
}.

Inductive ErrorType : Type := TRange | TRequired | TFormat | TDuplicate.

Record GradeValidationError : Type := mkError {
  e_rowId : N;
  e_columnId : string;
  e_message : string;
  e_type : ErrorType
}.

Inductive SelectionType : Type := KCell | KRow | KColumn | KRange.

Record GradeSelection : Type := mkSelection {
  startRow : Z;
  endRow : Z;
  startColumn : string;
  endColumn : string;
  s_type : SelectionType
}.

Inductive OperationType : Type := OpSet | OpAdd | OpMultiply | OpClear | OpFill.

Record GradeOperation : Type := mkOperation {
  o_type : OperationType;
  o_value : Value;
  targetRange : GradeSelection
}.

Record GradeHistoryEntry : Type := mkEntry {
  operation : GradeOperation;
  previousValues : Obj.t Value;
  newValues : Obj.t Value
}.

Record GradeCell : Type := mkCell {
  c_rowId : N;
  c_columnId : string;
  c_value : Value;
  c_originalValue : Value;
  c_isEditing : bool;
  c_isValid : bool
}.

Record GradeValidationRule : Type := mkRule {
  rule_min : Q;
  rule_max : Q;
  rule_required : bool;
  allowDecimals : bool;
  decimalPlaces : option nat
}.

Definition DEFAULT_GRADE_VALIDATION_RULE : GradeValidationRule :=
  {| rule_min := 0; rule_max := 100; rule_required := false;
     allowDecimals := true; decimalPlaces := Some 2%nat |}.

(** The part of [GradeSpreadsheetConfig] the store reads. *)
Record AutoSaveConfig : Type := mkAutoSave {
  as_enabled : bool;
  as_interval : N;
  as_debounce : N
}.

Definition DEFAULT_SPREADSHEET_CONFIG : AutoSaveConfig :=
  {| as_enabled := true; as_interval := 30000; as_debounce := 1000 |}.

(** [GradeSpreadsheetState], followed by the two variables the store closes
    over ([autoSaveTimer], armed or not, and [clipboard]).  Time stamps and
    entry ids are written by the store and never read; they are left out. *)
Record State : Type := mkState {
  columns : list GradeColumn;
  rows : list StudentGradeRow;
  courseInfo : option N;
  loading : bool;
  saving : bool;
  error : option string;
  selectedCells : list GradeSelection;
  currentCell : option GradeCell;
  editingCell : option GradeCell;
  validationErrors : list GradeValidationError;
  history : list GradeHistoryEntry;
  historyIndex : Z;
  config : AutoSaveConfig;
  autoSaveTimer : bool;
  clipboard : Obj.t Value
}.

Definition initialState : State :=
  {| columns := []; rows := []; courseInfo := None;
     loading := false; saving := false; error := None;
     selectedCells := []; currentCell := None; editingCell := None;
     validationErrors := []; history := []; historyIndex := (-1)%Z;
     config := DEFAULT_SPREADSHEET_CONFIG;
     autoSaveTimer := false; clipboard := [] |}.

(** Field assignments. *)
Definition set_rows (v : list StudentGradeRow) (s : State) : State :=
  mkState s.(columns) v s.(courseInfo) s.(loading) s.(saving) s.(error)
    s.(selectedCells) s.(currentCell) s.(editingCell) s.(validationErrors)
    s.(history) s.(historyIndex) s.(config) s.(autoSaveTimer) s.(clipboard).
Definition set_columns (v : list GradeColumn) (s : State) : State :=
  mkState v s.(rows) s.(courseInfo) s.(loading) s.(saving) s.(error)
    s.(selectedCells) s.(currentCell) s.(editingCell) s.(validationErrors)
    s.(history) s.(historyIndex) s.(config) s.(autoSaveTimer) s.(clipboard).
Definition set_courseInfo (v : option N) (s : State) : State :=
  mkState s.(columns) s.(rows) v s.(loading) s.(saving) s.(error)
    s.(selectedCells) s.(currentCell) s.(editingCell) s.(validationErrors)
    s.(history) s.(historyIndex) s.(config) s.(autoSaveTimer) s.(clipboard).
Definition set_loading (v : bool) (s : State) : State :=
  mkState s.(columns) s.(rows) s.(courseInfo) v s.(saving) s.(error)
    s.(selectedCells) s.(currentCell) s.(editingCell) s.(validationErrors)
    s.(history) s.(historyIndex) s.(config) s.(autoSaveTimer) s.(clipboard).
Definition set_saving (v : bool) (s : State) : State :=
  mkState s.(columns) s.(rows) s.(courseInfo) s.(loading) v s.(error)
    s.(selectedCells) s.(currentCell) s.(editingCell) s.(validationErrors)
    s.(history) s.(historyIndex) s.(config) s.(autoSaveTimer) s.(clipboard).
Definition set_error (v : option string) (s : State) : State :=
  mkState s.(columns) s.(rows) s.(courseInfo) s.(loading) s.(saving) v
    s.(selectedCells) s.(currentCell) s.(editingCell) s.(validationErrors)
    s.(history) s.(historyIndex) s.(config) s.(autoSaveTimer) s.(clipboard).
Definition set_selectedCells (v : list GradeSelection) (s : State) : State :=
  mkState s.(columns) s.(rows) s.(courseInfo) s.(loading) s.(saving) s.(error)
    v s.(currentCell) s.(editingCell) s.(validationErrors)
    s.(history) s.(historyIndex) s.(config) s.(autoSaveTimer) s.(clipboard).
Definition set_currentCell (v : option GradeCell) (s : State) : State :=
  mkState s.(columns) s.(rows) s.(courseInfo) s.(loading) s.(saving) s.(error)
    s.(selectedCells) v s.(editingCell) s.(validationErrors)
    s.(history) s.(historyIndex) s.(config) s.(autoSaveTimer) s.(clipboard).
Definition set_editingCell (v : option GradeCell) (s : State) : State :=
  mkState s.(columns) s.(rows) s.(courseInfo) s.(loading) s.(saving) s.(error)
    s.(selectedCells) s.(currentCell) v s.(validationErrors)
    s.(history) s.(historyIndex) s.(config) s.(autoSaveTimer) s.(clipboard).
Definition set_validationErrors (v : list GradeValidationError) (s : State) : State :=
  mkState s.(columns) s.(rows) s.(courseInfo) s.(loading) s.(saving) s.(error)
    s.(selectedCells) s.(currentCell) s.(editingCell) v
    s.(history) s.(historyIndex) s.(config) s.(autoSaveTimer) s.(clipboard).
Definition set_history (v : list GradeHistoryEntry) (s : State) : State :=
  mkState s.(columns) s.(rows) s.(courseInfo) s.(loading) s.(saving) s.(error)
    s.(selectedCells) s.(currentCell) s.(editingCell) s.(validationErrors)
    v s.(historyIndex) s.(config) s.(autoSaveTimer) s.(clipboard).
Definition set_historyIndex (v : Z) (s : State) : State :=
  mkState s.(columns) s.(rows) s.(courseInfo) s.(loading) s.(saving) s.(error)
    s.(selectedCells) s.(currentCell) s.(editingCell) s.(validationErrors)
    s.(history) v s.(config) s.(autoSaveTimer) s.(clipboard).
Definition set_autoSaveTimer (v : bool) (s : State) : State :=
  mkState s.(columns) s.(rows) s.(courseInfo) s.(loading) s.(saving) s.(error)
    s.(selectedCells) s.(currentCell) s.(editingCell) s.(validationErrors)
    s.(history) s.(historyIndex) s.(config) v s.(clipboard).

Definition set_grades (v : Obj.t Value) (r : StudentGradeRow) : StudentGradeRow :=
  mkRow r.(rid) v r.(totalScore) r.(averageScore) r.(rank) r.(isModified) r.(hasErrors).
Definition set_totalScore (v : Q) (r : StudentGradeRow) : StudentGradeRow :=
  mkRow r.(rid) r.(grades) v r.(averageScore) r.(rank) r.(isModified) r.(hasErrors).
Definition set_averageScore (v : Q) (r : StudentGradeRow) : StudentGradeRow :=
  mkRow r.(rid) r.(grades) r.(totalScore) v r.(rank) r.(isModified) r.(hasErrors).
Definition set_rank (v : Z) (r : StudentGradeRow) : StudentGradeRow :=
  mkRow r.(rid) r.(grades) r.(totalScore) r.(averageScore) v r.(isModified) r.(hasErrors).
Definition set_isModified (v : bool) (r : StudentGradeRow) : StudentGradeRow :=
  mkRow r.(rid) r.(grades) r.(totalScore) r.(averageScore) r.(rank) v r.(hasErrors).
Definition set_hasErrors (v : bool) (r : StudentGradeRow) : StudentGradeRow :=
  mkRow r.(rid) r.(grades) r.(totalScore) r.(averageScore) r.(rank) r.(isModified) v.

End Types.

(* ================================================================= *)
(** ** Array helpers *)

Module Arr.

(** [l.findIndex(p)], [-1] when nothing matches. *)
Fixpoint findIndex {A} (p : A -> bool) (l : list A) : Z :=
  match l with
  | [] => (-1)%Z
  | x :: r =>
      if p x then 0%Z
      else let i := findIndex p r in
           if (i <? 0)%Z then (-1)%Z else (i + 1)%Z
  end.

(** [l[i]], [None] for [undefined]. *)
Definition at_ {A} (l : list A) (i : Z) : option A :=
  if (i <? 0)%Z then None else nth_error l (Z.to_nat i).

(** Mutation of the object [l.find(p)] returns, seen from the array. *)
Fixpoint update_first {A} (p : A -> bool) (f : A -> A) (l : list A) : list A :=
  match l with
  | [] => []
  | x :: r => if p x then f x :: r else x :: update_first p f r
  end.

(** [l.slice(0, e)] *)
Definition slice0 {A} (e : Z) (l : list A) : list A :=
  if (e <? 0)%Z
  then firstn (Z.to_nat (Z.max (Z.of_nat (List.length l) + e) 0)) l
  else firstn (Z.to_nat e) l.

(** [l.slice(b, e)]: a negative bound counts from the end, and both are
    clamped to the array. *)
Definition slice {A} (b e : Z) (l : list A) : list A :=
  let len := Z.of_nat (List.length l) in
  let from := if (b <? 0)%Z then Z.max (len + b) 0 else Z.min b len in
  let to := if (e <? 0)%Z then Z.max (len + e) 0 else Z.min e len in
  firstn (Z.to_nat (to - from)) (skipn (Z.to_nat from) l).

Fixpoint range_from (lo : Z) (n : nat) : list Z :=
  match n with
  | O => []
  | S k => lo :: range_from (lo + 1) k
  end.

(** The values [i] takes in [for (i = lo; i <= hi; i++)]. *)
Definition range (lo hi : Z) : list Z := range_from lo (Z.to_nat (hi - lo + 1)).

(** [l.map((x, index) => f(x, index))] *)
Fixpoint mapi_from {A B} (f : A -> Z -> B) (index : Z) (l : list A) : list B :=
  match l with
  | [] => []
  | x :: r => f x index :: mapi_from f (index + 1) r
  end.

Definition mapi {A B} (f : A -> Z -> B) (l : list A) : list B := mapi_from f 0 l.

(** [set.add(x)] on a [Set] listed in insertion order, as [Array.from(set)]
    reads it. *)
Definition Set_add {A} (eqb : A -> A -> bool) (x : A) (set : list A) : list A :=
  if existsb (eqb x) set then set else set ++ [x].

End Arr.

(* ================================================================= *)
(** ** The store ([stores/grade.ts]) *)

Module Store.
Import JS Types.

Definition row_is (rowId : N) (r : StudentGradeRow) : bool := N.eqb r.(rid) rowId.
Definition col_is (columnId : string) (c : GradeColumn) : bool := String.eqb c.(cid) columnId.

(** [grades[columnId] ?? null] *)
Definition grade_at (g : Obj.t Value) (columnId : string) : Value :=
  nullish (Obj.get g columnId) None.

(** The key [`${rowId}-${columnId}`] and its inverse as the store computes
    it: [const [rowId, columnId] = key.split('-')] with [parseInt(rowId)].
    A key without ['-'] leaves [columnId] undefined, which as a property
    name is ["undefined"]. *)
Definition cellKey (rowId : N) (columnId : string) : string :=
  append (N_toString rowId) (String "-" columnId).

Definition key_rowId (key : string) : option N :=
  parseInt (nth 0 (split_dash key) EmptyString).

Definition key_columnId (key : string) : string :=
  nth 1 (split_dash key) "undefined"%string.

(** [state.columns[state.columns.length - 1]] *)
Definition lastColumn (s : State) : option GradeColumn :=
  Arr.at_ s.(columns) (Z.of_nat (List.length s.(columns)) - 1).

(* ---------------- Getters ---------------- *)

Definition modifiedRows (s : State) : list N :=
  map rid (filter (fun r => r.(isModified) || r.(hasErrors)) s.(rows)).

Definition hasUnsavedChanges (s : State) : bool :=
  (0 <? List.length (modifiedRows s))%nat.

Definition canUndo (s : State) : bool := (0 <? s.(historyIndex))%Z.
Definition canRedo (s : State) : bool :=
  (s.(historyIndex) <? Z.of_nat (List.length s.(history)) - 1)%Z.
Definition canSave (s : State) : bool := hasUnsavedChanges s && negb s.(saving).

(* ---------------- Helper functions ---------------- *)

Definition calculateTotalScore (g : Obj.t Value) (cols : list GradeColumn) : Q :=
  fold_left
    (fun total column =>
       let score := nullish (grade_at g column.(cid)) 0 in
       add total (div (mul score column.(weight)) 100))
    cols 0.

Definition calculateAverageScore (g : Obj.t Value) (cols : list GradeColumn) : Q :=
  let totalWeight := fold_left (fun sum col => add sum col.(weight)) cols 0 in
  if Qeq_bool totalWeight 0 then 0
  else mul (div (calculateTotalScore g cols) totalWeight) 100.

(** [Array.prototype.sort] is stable; here with the comparator
    [(a, b) => (b.totalScore || 0) - (a.totalScore || 0)]. *)
Fixpoint sort_insert (x : StudentGradeRow) (l : list StudentGradeRow) : list StudentGradeRow :=
  match l with
  | [] => [x]
  | y :: r =>
      if Qle_bool y.(totalScore) x.(totalScore) then x :: y :: r
      else y :: sort_insert x r
  end.

Definition sortByTotalDesc (l : list StudentGradeRow) : list StudentGradeRow :=
  fold_right sort_insert [] l.

Fixpoint assignRanks (sorted : list StudentGradeRow) (index : Z)
    (rs : list StudentGradeRow) : list StudentGradeRow :=
  match sorted with
  | [] => rs
  | row :: rest =>
      assignRanks rest (index + 1)
        (Arr.update_first (row_is row.(rid)) (set_rank (index + 1)) rs)
  end.

Definition calculateRanks (s : State) : State :=
  set_rows (assignRanks (sortByTotalDesc s.(rows)) 0 s.(rows)) s.

Definition addToHistory (op : GradeOperation)
    (prev new : Obj.t Value) (s : State) : State :=
  let entry := mkEntry op prev new in
  let h := Arr.slice0 (s.(historyIndex) + 1) s.(history) ++ [entry] in
  let i := (s.(historyIndex) + 1)%Z in
  if (100 <? List.length h)%nat
  then set_historyIndex (i - 1) (set_history (tl h) s)
  else set_historyIndex i (set_history h s).

(** Arms (or re-arms) the debounce timer; [autoSaveFire] below is its
    callback. *)
Definition scheduleAutoSave (s : State) : State := set_autoSaveTimer true s.

(* ---------------- Validation ---------------- *)

Definition truthy_places (p : option nat) : option nat :=
  match p with
  | Some (S n) => Some (S n)
  | _ => None
  end.

Definition validateCell (s : State) (rowId : N) (columnId : string)
    (value : Value) : option string :=
  match find (col_is columnId) s.(columns) with
  | None => Some "列不存在"%string
  | Some column =>
      match value with
      | None => if column.(isRequired) then Some "此列为必填项"%string else None
      | Some v =>
          if lt v 0 || gt v column.(maxScore)
          then Some (append "分数必须在 0 到 "
                       (append (Number_toString column.(maxScore)) " 之间"))%string
          else if negb DEFAULT_GRADE_VALIDATION_RULE.(allowDecimals) && negb (isInteger v)
          then Some "此列不支持小数"%string
          else
            match truthy_places DEFAULT_GRADE_VALIDATION_RULE.(decimalPlaces) with
            | Some places =>
                if negb (String.eqb (Number_toFixed places v) (Number_toString v))
                then Some (append "最多支持 "
                             (append (N_toString (N.of_nat places)) " 位小数"))%string
                else None
            | None => None
            end
      end
  end.

Definition validateAll (s : State) : State :=
  let errors :=
    flat_map
      (fun row =>
         flat_map
           (fun column =>
              match validateCell s row.(rid) column.(cid)
                      (grade_at row.(grades) column.(cid)) with
              | Some msg => [mkError row.(rid) column.(cid) msg TRange]
              | None => []
              end)
           s.(columns))
      s.(rows) in
  set_validationErrors errors s.

(* ---------------- Cell updates ---------------- *)

Definition error_at (rowId : N) (columnId : string) (e : GradeValidationError) : bool :=
  N.eqb e.(e_rowId) rowId && String.eqb e.(e_columnId) columnId.

Definition updateCell (rowId : N) (columnId : string) (value : Value)
    (s : State) : State :=
  match find (row_is rowId) s.(rows) with
  | None => s
  | Some row =>
      let originalValue := grade_at row.(grades) columnId in
      let errs :=
        match validateCell s rowId columnId value with
        | Some msg => s.(validationErrors) ++ [mkError rowId columnId msg TRange]
        | None => filter (fun e => negb (error_at rowId columnId e)) s.(validationErrors)
        end in
      let flag :=
        match validateCell s rowId columnId value with
        | Some _ => true
        | None => existsb (fun e => N.eqb e.(e_rowId) rowId) errs
        end in
      let write (r : StudentGradeRow) : StudentGradeRow :=
        let g := Obj.set r.(grades) columnId value in
        set_averageScore (calculateAverageScore g s.(columns))
          (set_totalScore (calculateTotalScore g s.(columns))
             (set_isModified true (set_grades g (set_hasErrors flag r)))) in
      let s1 := set_rows (Arr.update_first (row_is rowId) write s.(rows))
                  (set_validationErrors errs s) in
      let index := Arr.findIndex (row_is rowId) s.(rows) in
      let op := {| o_type := match value with Some _ => OpSet | None => OpClear end;
                   o_value := value;
                   targetRange := mkSelection index index columnId columnId KCell |} in
      let s2 := addToHistory op
                  [(cellKey rowId columnId, originalValue)]
                  [(cellKey rowId columnId, value)] s1 in
      if s2.(config).(as_enabled) then scheduleAutoSave s2 else s2
  end.

Definition batchUpdate (updates : Obj.t Value) (s : State) : State :=
  fold_left
    (fun st kv =>
       match key_rowId (fst kv) with
       | Some rowId => updateCell rowId (key_columnId (fst kv)) (snd kv) st
       | None => st   (* parseInt gave NaN: no row has that id *)
       end)
    (Obj.entries updates) s.

(* ---------------- Saving ---------------- *)

(** What the data source answers; [response_message] is
    [error.response?.data?.message]. *)
Record ApiError : Type := mkApiError { response_message : option string }.
Inductive ApiReply : Type := Resolve | Reject (e : ApiError).

(** How the promise an action returns settles. *)
Inductive Settled : Type := Fulfilled | Rejected (e : ApiError).

Record GradeUpdate : Type := mkUpdate {
  student_id : option N;     (* [parseInt(rowId)], [None] for [NaN] *)
  column_id : string;
  score : Value
}.

Definition save_updates (g : Obj.t Value) : list GradeUpdate :=
  map (fun kv => mkUpdate (key_rowId (fst kv)) (key_columnId (fst kv)) (snd kv))
    (Obj.entries g).

(** [e || d] on a string that may be undefined. *)
Definition or_default (e : option string) (d : string) : string :=
  match e with
  | Some EmptyString | None => d
  | Some m => m
  end.

(** Replaying one recorded value onto the row it names, as [saveGrades],
    [undo] and [redo] do; [modified] is what [isModified] becomes. *)
Definition writeBack (modified : bool) (cols : list GradeColumn)
    (kv : string * Value) (rs : list StudentGradeRow) : list StudentGradeRow :=
  match key_rowId (fst kv) with
  | None => rs
  | Some rowId =>
      Arr.update_first (row_is rowId)
        (fun r =>
           let g := Obj.set r.(grades) (key_columnId (fst kv)) (snd kv) in
           set_averageScore (calculateAverageScore g cols)
             (set_totalScore (calculateTotalScore g cols)
                (set_isModified modified (set_grades g r))))
        rs
  end.

Definition writeBackAll (modified : bool) (vals : Obj.t Value) (s : State) : State :=
  set_rows
    (fold_left (fun rs kv => writeBack modified s.(columns) kv rs)
       (Obj.entries vals) s.(rows))
    s.

(** [saveGrades] up to its [await]: [None] when there is no course (the
    action returns at once), otherwise the state at the suspension point and
    the request handed to [gradeApi.updateGrades]. *)
Definition saveGrades_dispatch (g : Obj.t Value) (s : State)
    : option (State * (N * list GradeUpdate)) :=
  match s.(courseInfo) with
  | None => None
  | Some course => Some (set_error None (set_saving true s), (course, save_updates g))
  end.

(** [saveGrades] from the point the request settles. *)
Definition saveGrades_settle (g : Obj.t Value) (reply : ApiReply) (s : State)
    : State * Settled :=
  match reply with
  | Resolve =>
      let s1 := calculateRanks (writeBackAll false g s) in
      let s2 :=
        set_validationErrors
          (filter
             (fun e => negb (existsb (String.eqb (cellKey e.(e_rowId) e.(e_columnId)))
                               (Obj.keys g)))
             s1.(validationErrors))
          s1 in
      (set_saving false s2, Fulfilled)
  | Reject e =>
      (set_saving false
         (set_error (Some (or_default e.(response_message) "保存成绩失败")) s),
       Rejected e)
  end.

Definition saveGrades (g : Obj.t Value) (reply : ApiReply) (s : State)
    : State * Settled :=
  match saveGrades_dispatch g s with
  | None => (s, Fulfilled)
  | Some (s1, _) => saveGrades_settle g reply s1
  end.

(** The [updates] object the timer callback of [scheduleAutoSave] builds. *)
Definition autoSaveUpdates (s : State) : Obj.t Value :=
  fold_left
    (fun updates row =>
       fold_left
         (fun u cv => Obj.set u (cellKey row.(rid) (fst cv)) (snd cv))
         (Obj.entries row.(grades)) updates)
    s.(rows) [].

(** The request the callback sends, if it sends one. *)
Definition autoSaveRequest (s : State) : option (N * list GradeUpdate) :=
  if hasUnsavedChanges s
  then match saveGrades_dispatch (autoSaveUpdates s) s with
       | Some (_, req) => Some req
       | None => None
       end
  else None.

(** The timer callback; a rejected save is logged and swallowed. *)
Definition autoSaveFire (reply : ApiReply) (s : State) : State :=
  let s0 := set_autoSaveTimer false s in
  if hasUnsavedChanges s0
  then fst (saveGrades (autoSaveUpdates s0) reply s0)
  else s0.

(* ---------------- Selection ---------------- *)

Definition last_selection (s : State) : option GradeSelection :=
  Arr.at_ s.(selectedCells) (Z.of_nat (List.length s.(selectedCells)) - 1).

Definition selectCell (rowId : N) (columnId : string) (extend : bool)
    (s : State) : State :=
  let rowIndex := Arr.findIndex (row_is rowId) s.(rows) in
  let colIndex := Arr.findIndex (col_is columnId) s.(columns) in
  if (rowIndex =? -1)%Z || (colIndex =? -1)%Z then s
  else
    let selection :=
      match (if extend then last_selection s else None) with
      | Some lastSelection =>
          mkSelection (Z.min lastSelection.(startRow) rowIndex)
            (Z.max lastSelection.(endRow) rowIndex)
            lastSelection.(startColumn) columnId KRange
      | None => mkSelection rowIndex rowIndex columnId columnId KCell
      end in
    set_currentCell (Some (mkCell rowId columnId None None false true))
      (set_selectedCells [selection] s).

Definition selectRow (rowId : N) (extend : bool) (s : State) : State :=
  let rowIndex := Arr.findIndex (row_is rowId) s.(rows) in
  if (rowIndex =? -1)%Z then s
  else
    let first := match hd_error s.(columns) with Some c => c.(cid) | None => EmptyString end in
    let final := match lastColumn s with Some c => c.(cid) | None => EmptyString end in
    let selection :=
      match (if extend then last_selection s else None) with
      | Some lastSelection =>
          mkSelection (Z.min lastSelection.(startRow) rowIndex)
            (Z.max lastSelection.(endRow) rowIndex) first final KRange
      | None => mkSelection rowIndex rowIndex first final KRow
      end in
    set_selectedCells [selection] s.

Definition selectColumn (columnId : string) (extend : bool) (s : State) : State :=
  let colIndex := Arr.findIndex (col_is columnId) s.(columns) in
  if (colIndex =? -1)%Z then s
  else
    let bottom := (Z.of_nat (List.length s.(rows)) - 1)%Z in
    let selection :=
      match (if extend then last_selection s else None) with
      | Some lastSelection =>
          mkSelection 0 bottom lastSelection.(startColumn) columnId KRange
      | None => mkSelection 0 bottom columnId columnId KColumn
      end in
    set_selectedCells [selection] s.

Definition selectAll (s : State) : State :=
  match hd_error s.(columns), lastColumn s, s.(rows) with
  | Some first, Some final, _ :: _ =>
      set_selectedCells
        [mkSelection 0 (Z.of_nat (List.length s.(rows)) - 1) first.(cid) final.(cid) KRange] s
  | _, _, _ => s
  end.

Definition clearSelection (s : State) : State :=
  set_currentCell None (set_selectedCells [] s).

(* ---------------- Editing ---------------- *)

Definition startEdit (rowId : N) (columnId : string) (s : State) : State :=
  match find (row_is rowId) s.(rows) with
  | None => s
  | Some row =>
      let v := grade_at row.(grades) columnId in
      set_editingCell (Some (mkCell rowId columnId v v true true)) s
  end.

Definition finishEdit (s : State) : State :=
  match s.(editingCell) with
  | None => s
  | Some c => set_editingCell None (updateCell c.(c_rowId) c.(c_columnId) c.(c_value) s)
  end.

Definition cancelEdit (s : State) : State :=
  match s.(editingCell) with
  | None => s
  | Some _ => set_editingCell None s
  end.

(* ---------------- Batch operations ---------------- *)

(** One iteration of the loop nest every batch operation runs:
    [selectedCells.forEach(selection => for (row ...) for (colIndex ...))],
    past the bounds guard, with [rowData] and [column] fetched. *)
Record LoopCell : Type := mkLoopCell {
  lc_selection : GradeSelection;
  lc_row : Z;
  lc_colIndex : Z;
  lc_rowData : StudentGradeRow;
  lc_column : GradeColumn
}.

Definition columnIndex (s : State) (columnId : string) : Z :=
  Arr.findIndex (col_is columnId) s.(columns).

Definition selectionLoop (s : State) : list LoopCell :=
  flat_map
    (fun selection =>
       flat_map
         (fun row =>
            flat_map
              (fun colIndex =>
                 match Arr.at_ s.(rows) row, Arr.at_ s.(columns) colIndex with
                 | Some rowData, Some column =>
                     [mkLoopCell selection row colIndex rowData column]
                 | _, _ => []
                 end)
              (Arr.range (columnIndex s selection.(startColumn))
                 (columnIndex s selection.(endColumn))))
         (Arr.range selection.(startRow) selection.(endRow)))
    s.(selectedCells).

Definition loopKey (c : LoopCell) : string :=
  cellKey c.(lc_rowData).(rid) c.(lc_column).(cid).

(** The [updates] object a batch operation fills before [batchUpdate]. *)
Definition collectUpdates (s : State) (f : LoopCell -> option Value) : Obj.t Value :=
  fold_left
    (fun updates c =>
       match f c with
       | Some v => Obj.set updates (loopKey c) v
       | None => updates
       end)
    (selectionLoop s) [].

Definition selectedData (s : State) : Obj.t Value :=
  collectUpdates s
    (fun c => Some (grade_at c.(lc_rowData).(grades) c.(lc_column).(cid))).

Definition copy (s : State) : State :=
  mkState s.(columns) s.(rows) s.(courseInfo) s.(loading) s.(saving) s.(error)
    s.(selectedCells) s.(currentCell) s.(editingCell) s.(validationErrors)
    s.(history) s.(historyIndex) s.(config) s.(autoSaveTimer) (selectedData s).

Definition clear (s : State) : State :=
  batchUpdate (collectUpdates s (fun _ => Some None)) s.

Inductive Direction : Type := Up | Down | Left | Right.

Definition fill (direction : Direction) (s : State) : State :=
  match s.(selectedCells) with
  | [] => s
  | _ =>
      batchUpdate
        (collectUpdates s
           (fun c =>
              let selection := c.(lc_selection) in
              let sourceRow :=
                match direction with
                | Up => (selection.(endRow) + 1)%Z
                | Down => (selection.(startRow) - 1)%Z
                | _ => c.(lc_row)
                end in
              let sourceCol :=
                match direction with
                | Left => (columnIndex s selection.(endColumn) + 1)%Z
                | Right => (columnIndex s selection.(startColumn) - 1)%Z
                | _ => c.(lc_colIndex)
                end in
              match Arr.at_ s.(rows) sourceRow, Arr.at_ s.(columns) sourceCol with
              | Some sourceRowData, Some sourceColumn =>
                  Some (grade_at sourceRowData.(grades) sourceColumn.(cid))
              | _, _ => None
              end))
        s
  end.

(** [Math.min(Math.max(0, x), maxScore)] *)
Definition clampScore (x maxScore : Q) : Q := Math_min (Math_max 0 x) maxScore.

Definition currentValue (c : LoopCell) : Q :=
  nullish (grade_at c.(lc_rowData).(grades) c.(lc_column).(cid)) 0.

Definition addPoints (points : Q) (s : State) : State :=
  batchUpdate
    (collectUpdates s
       (fun c => Some (Some (clampScore (add (currentValue c) points)
                               c.(lc_column).(maxScore)))))
    s.

Definition multiplyBy (factor : Q) (s : State) : State :=
  batchUpdate
    (collectUpdates s
       (fun c => Some (Some (clampScore (mul (currentValue c) factor)
                               c.(lc_column).(maxScore)))))
    s.

Definition setPercentage (percentage : Q) (s : State) : State :=
  multiplyBy (div percentage 100) s.

(* ---------------- History ---------------- *)

(** [undo] and [redo] read [state.history[state.historyIndex]] after moving
    the cursor; were that [undefined], reading its values would throw with
    the cursor already moved, which is the state returned here. *)
Definition undo (s : State) : State :=
  if negb (canUndo s) then s
  else
    let s1 := set_historyIndex (s.(historyIndex) - 1) s in
    match Arr.at_ s1.(history) s1.(historyIndex) with
    | None => s1
    | Some entry => calculateRanks (writeBackAll true entry.(previousValues) s1)
    end.

Definition redo (s : State) : State :=
  if negb (canRedo s) then s
  else
    let s1 := set_historyIndex (s.(historyIndex) + 1) s in
    match Arr.at_ s1.(history) s1.(historyIndex) with
    | None => s1
    | Some entry => calculateRanks (writeBackAll true entry.(newValues) s1)
    end.

Definition clearHistory (s : State) : State :=
  set_historyIndex (-1) (set_history [] s).

(* ---------------- Loading ---------------- *)

(** How a request settles: with the [data] of the response, or with an
    error. *)
Inductive Reply (A : Type) : Type :=
  | Answer (data : A)
  | Failure (e : ApiError).
Arguments Answer {A} data.
Arguments Failure {A} e.

(** The [data] of [gradeApi.getCourseGrades]: the ids of [students] (their
    other fields are copied into the row and never read), [columns], and
    [grades], where [grades[index]] may be missing. *)
Record CourseGrades : Type := mkCourseGrades {
  cg_students : list N;
  cg_columns : list GradeColumn;
  cg_grades : list (option (Obj.t Value))
}.

(** [grades[index] || {}] *)
Definition grades_of (data : CourseGrades) (index : Z) : Obj.t Value :=
  match Arr.at_ data.(cg_grades) index with
  | Some (Some g) => g
  | _ => []
  end.

(** [loadGrades] with the way its two requests settle, and no other action
    run while it waits; the second request is only sent once the first has
    been answered. *)
Definition loadGrades (courseReply : Reply N) (gradesReply : Reply CourseGrades)
    (s : State) : State :=
  let s0 := set_error None (set_loading true s) in
  let failed (e : ApiError) (st : State) : State :=
    set_loading false
      (set_error (Some (or_default e.(response_message) "加载成绩数据失败")) st) in
  match courseReply with
  | Failure e => failed e s0
  | Answer course =>
      let s1 := set_courseInfo (Some course) s0 in
      match gradesReply with
      | Failure e => failed e s1
      | Answer data =>
          let s2 := set_columns data.(cg_columns) s1 in
          let loaded :=
            Arr.mapi
              (fun student index =>
                 mkRow student (grades_of data index)
                   (calculateTotalScore (grades_of data index) s2.(columns))
                   (calculateAverageScore (grades_of data index) s2.(columns))
                   0 false false)
              data.(cg_students) in
          set_loading false (clearHistory (calculateRanks (set_rows loaded s2)))
      end
  end.

(* ---------------- More getters ---------------- *)

Definition selectedRows (s : State) : list N :=
  fold_left
    (fun set selection =>
       fold_left
         (fun set row =>
            match Arr.at_ s.(rows) row with
            | Some rowData => Arr.Set_add N.eqb rowData.(rid) set
            | None => set
            end)
         (Arr.range selection.(startRow) selection.(endRow)) set)
    s.(selectedCells) [].

Definition selectedColumns (s : State) : list string :=
  fold_left
    (fun set selection =>
       fold_left
         (fun set col =>
            match Arr.at_ s.(columns) col with
            | Some column => Arr.Set_add String.eqb column.(cid) set
            | None => set
            end)
         (Arr.range (columnIndex s selection.(startColumn))
            (columnIndex s selection.(endColumn))) set)
    s.(selectedCells) [].

Definition errorCount (s : State) : nat := List.length s.(validationErrors).

End Store.

(* ================================================================= *)
(** ** [SelectionManager] ([lib/api.ts]) *)

Module SelectionManager.
Import Types.

Record t : Type := mk {
  selections : list GradeSelection;
  anchorCell : option (Z * string)     (* { rowId, columnId } *)
}.

Definition empty : t := mk [] None.

Definition selectCell (rowId : Z) (columnId : string) (extend : bool) (m : t) : t :=
  if negb extend
  then mk [mkSelection rowId rowId columnId columnId KCell] (Some (rowId, columnId))
  else
    match m.(anchorCell) with
    | Some (aRow, aCol) =>
        mk [mkSelection (Z.min aRow rowId) (Z.max aRow rowId) aCol columnId KRange]
          m.(anchorCell)
    | None => m
    end.

Definition MAX_SAFE_INTEGER : Z := (2 ^ 53 - 1)%Z.

Definition selectRow (rowId : Z) (extend : bool) (m : t) : t :=
  if negb extend
  then mk [mkSelection rowId rowId EmptyString EmptyString KRow]
         (Some (rowId, EmptyString))
  else m.

Definition selectColumn (columnId : string) (extend : bool) (m : t) : t :=
  if negb extend
  then mk [mkSelection 0 MAX_SAFE_INTEGER columnId columnId KColumn]
         (Some (0%Z, columnId))
  else m.

Definition selectAll (m : t) : t :=
  mk [mkSelection 0 MAX_SAFE_INTEGER EmptyString EmptyString KRange] None.

Definition clearSelection (m : t) : t := mk [] None.

Definition getSelections (m : t) : list GradeSelection := m.(selections).

Definition hasSelection (m : t) : bool := (0 <? List.length m.(selections))%nat.

Definition is_row_kind (k : SelectionType) : bool :=
  match k with KRow => true | _ => false end.

(** Column ids are compared as strings ([>=], [<=]). *)
Definition isCellSelected (rowId : Z) (columnId : string) (m : t) : bool :=
  existsb
    (fun selection =>
       let isRowInRange :=
         (selection.(startRow) <=? rowId)%Z && (rowId <=? selection.(endRow))%Z in
       let isColInRange :=
         is_row_kind selection.(s_type)
         || (String.leb selection.(startColumn) columnId
             && String.leb columnId selection.(endColumn)) in
       isRowInRange && isColInRange)
    m.(selections).

End SelectionManager.

(* ================================================================= *)
(** ** [useVirtualScroll] ([lib/api.ts]) *)

Module VirtualScroll.
Import JS.

Record VirtualScrollOptions : Type := mkOptions {
  itemHeight : Q;
  containerHeight : Q;
  overscan : option Z;
  enabled : option bool;
  threshold : option Z
}.

(** Destructuring defaults: [overscan = 5], [enabled = true],
    [threshold = 100]. *)
Definition overscan_of (o : VirtualScrollOptions) : Z := nullish o.(overscan) 5%Z.
Definition enabled_of (o : VirtualScrollOptions) : bool := nullish o.(enabled) true.
Definition threshold_of (o : VirtualScrollOptions) : Z := nullish o.(threshold) 100%Z.

(** [!enabled || items.length < threshold] *)
Definition showAll (len : nat) (o : VirtualScrollOptions) : bool :=
  negb (enabled_of o) || (Z.of_nat len <? threshold_of o)%Z.

Definition totalHeight (len : nat) (o : VirtualScrollOptions) : Q :=
  mul (inject_Z (Z.of_nat len)) o.(itemHeight).

Definition startIndex (len : nat) (o : VirtualScrollOptions) (scrollTop : Q) : Z :=
  if showAll len o then 0%Z
  else
    let index := Math_floor (scrollTop / o.(itemHeight)) in
    Z.max 0 (index - overscan_of o).

Definition endIndex (len : nat) (o : VirtualScrollOptions) (scrollTop : Q) : Z :=
  if showAll len o then Z.of_nat len
  else
    let visibleCount := Math_ceil (o.(containerHeight) / o.(itemHeight)) in
    let index := (startIndex len o scrollTop + visibleCount + overscan_of o * 2)%Z in
    Z.min (Z.of_nat len) index.

Definition visibleItems {T} (items : list T) (o : VirtualScrollOptions)
    (scrollTop : Q) : list T :=
  if showAll (List.length items) o then items
  else
    Arr.slice (startIndex (List.length items) o scrollTop)
      (endIndex (List.length items) o scrollTop) items.

Definition offsetY (len : nat) (o : VirtualScrollOptions) (scrollTop : Q) : Q :=
  if showAll len o then 0
  else mul (inject_Z (startIndex len o scrollTop)) o.(itemHeight).

End VirtualScroll.

(* ================================================================= *)
(** ** [useVirtualScroll] on doubles

    The same computed values with the quotients and the product rounded as
    the engine rounds them.  The indices are integers below [2^53]; their
    sums and differences are exact and stay in [Z]. *)

Module VirtualScroll64.
Import JS VirtualScroll.

Definition totalHeight (len : nat) (o : VirtualScrollOptions) : Q :=
  Double.mul (inject_Z (Z.of_nat len)) o.(itemHeight).

Definition startIndex (len : nat) (o : VirtualScrollOptions) (scrollTop : Q) : Z :=
  if showAll len o then 0%Z
  else
    let index := Math_floor (Double.div scrollTop o.(itemHeight)) in
    Z.max 0 (index - overscan_of o).

Definition endIndex (len : nat) (o : VirtualScrollOptions) (scrollTop : Q) : Z :=
  if showAll len o then Z.of_nat len
  else
    let visibleCount := Math_ceil (Double.div o.(containerHeight) o.(itemHeight)) in
    let index := (startIndex len o scrollTop + visibleCount + overscan_of o * 2)%Z in
    Z.min (Z.of_nat len) index.

Definition visibleItems {T} (items : list T) (o : VirtualScrollOptions)
    (scrollTop : Q) : list T :=
  if showAll (List.length items) o then items
  else
    Arr.slice (startIndex (List.length items) o scrollTop)
      (endIndex (List.length items) o scrollTop) items.

Definition offsetY (len : nat) (o : VirtualScrollOptions) (scrollTop : Q) : Q :=
  if showAll len o then 0
  else Double.mul (inject_Z (startIndex len o scrollTop)) o.(itemHeight).

End VirtualScroll64.

(* ================================================================= *)
(** ** [ExcelNavigation] ([lib/api.ts]) *)

Module ExcelNavigation.
Import JS Store.

Inductive EnterMove : Type := EnterDown | EnterRight | EnterNone.

Record t : Type := mk {
  wrapAround : bool;
  moveDirectionAfterEnter : EnterMove
}.

(** The constructor: [options.wrapAround ?? true] and
    [options.moveDirectionAfterEnter ?? 'down']. *)
Definition make (wrap : option bool) (move : option EnterMove) : t :=
  mk (nullish wrap true) (nullish move EnterDown).

Definition getNextPosition (nav : t) (currentRow currentCol : Z)
    (direction : Direction) (totalRows totalCols : Z) : option (Z * Z) :=
  let newRow :=
    match direction with
    | Up => (currentRow - 1)%Z
    | Down => (currentRow + 1)%Z
    | _ => currentRow
    end in
  let newCol :=
    match direction with
    | Left => (currentCol - 1)%Z
    | Right => (currentCol + 1)%Z
    | _ => currentCol
    end in
  let wrapped :=
    if nav.(wrapAround) then
      let r1 := if (newRow <? 0)%Z then (totalRows - 1)%Z else newRow in
      let r2 := if (totalRows <=? r1)%Z then 0%Z else r1 in
      let c1 := if (newCol <? 0)%Z then (totalCols - 1)%Z else newCol in
      let c2 := if (totalCols <=? c1)%Z then 0%Z else c1 in
      (r2, c2)
    else
      (Z.max 0 (Z.min (totalRows - 1) newRow),
       Z.max 0 (Z.min (totalCols - 1) newCol)) in
  if (0 <=? fst wrapped)%Z && (fst wrapped <? totalRows)%Z
     && (0 <=? snd wrapped)%Z && (snd wrapped <? totalCols)%Z
  then Some wrapped
  else None.

Definition getEnterNextPosition (nav : t) (currentRow currentCol : Z)
    (totalRows totalCols : Z) : option (Z * Z) :=
  match nav.(moveDirectionAfterEnter) with
  | EnterDown => getNextPosition nav currentRow currentCol Down totalRows totalCols
  | EnterRight => getNextPosition nav currentRow currentCol Right totalRows totalCols
  | EnterNone => None
  end.

Definition getTabNextPosition (nav : t) (currentRow currentCol : Z)
    (forward : bool) (totalRows totalCols : Z) : option (Z * Z) :=
  if forward then
    if (currentCol <? totalCols - 1)%Z then Some (currentRow, (currentCol + 1)%Z)
    else if (currentRow <? totalRows - 1)%Z then Some ((currentRow + 1)%Z, 0%Z)
    else if nav.(wrapAround) then Some (0%Z, 0%Z)
    else None
  else
    if (0 <? currentCol)%Z then Some (currentRow, (currentCol - 1)%Z)
    else if (0 <? currentRow)%Z then Some ((currentRow - 1)%Z, (totalCols - 1)%Z)
    else if nav.(wrapAround) then Some ((totalRows - 1)%Z, (totalCols - 1)%Z)
    else None.

End ExcelNavigation.

(* ================================================================= *)
(** ** [useDynamicVirtualScroll] ([lib/api.ts]) *)

Module DynamicVirtualScroll.
Import JS.

Record Options : Type := mkOptions {
  overscan : option Z;
  enabled : option bool;
  threshold : option Z;
  estimatedItemHeight : option Q
}.

(** Destructuring defaults: [overscan = 5], [enabled = true],
    [threshold = 100], [estimatedItemHeight = 40]. *)
Definition overscan_of (o : Options) : Z := nullish o.(overscan) 5%Z.
Definition enabled_of (o : Options) : bool := nullish o.(enabled) true.
Definition threshold_of (o : Options) : Z := nullish o.(threshold) 100%Z.
Definition estimated_of (o : Options) : Q := nullish o.(estimatedItemHeight) 40.

(** [!enabled || items.length < threshold] *)
Definition showAll (len : nat) (o : Options) : bool :=
  negb (enabled_of o) || (Z.of_nat len <? threshold_of o)%Z.

(** The refs [itemHeights] and [itemPositions]. *)
Record Layout : Type := mkLayout {
  itemHeights : list Q;
  itemPositions : list Q
}.

(** The loop of [updateItemHeights] from index [i] on, with
    [currentPosition] as it stands there. *)
Fixpoint measureFrom {T} (getItemHeight : T -> Z -> Q) (i : Z) (currentPosition : Q)
    (items : list T) : Layout :=
  match items with
  | [] => mkLayout [] []
  | item :: rest =>
      let height := getItemHeight item i in
      let l := measureFrom getItemHeight (i + 1) (add currentPosition height) rest in
      mkLayout (height :: l.(itemHeights)) (currentPosition :: l.(itemPositions))
  end.

Definition updateItemHeights {T} (items : list T) (getItemHeight : T -> Z -> Q)
    (o : Options) : Layout :=
  if showAll (List.length items) o then
    mkLayout (map (fun _ => estimated_of o) items)
      (Arr.mapi (fun _ index => mul (inject_Z index) (estimated_of o)) items)
  else measureFrom getItemHeight 0 0 items.

(** [h || estimatedItemHeight]: [undefined] and [0] give the estimate. *)
Definition or_estimate (o : Options) (h : option Q) : Q :=
  match h with
  | Some x => if Qeq_bool x 0 then estimated_of o else x
  | None => estimated_of o
  end.

(** The loop both binary searches run,
    [while (left <= right) { mid = Math.floor((left + right) / 2);
       if (goRight(mid)) left = mid + 1; else right = mid - 1 }],
    giving [left] as the loop leaves it; [None] when [fuel] iterations did
    not end it. *)
Fixpoint search (fuel : nat) (goRight : Z -> bool) (left right : Z) : option Z :=
  if (left <=? right)%Z then
    match fuel with
    | O => None
    | S k =>
        let mid := Math_floor (inject_Z (left + right) / 2) in
        if goRight mid then search k goRight (mid + 1) right
        else search k goRight left (mid - 1)
    end
  else Some left.

(** One iteration for every index between [left] and [right] is more than
    the loop can take. *)
Definition binarySearch (goRight : Z -> bool) (left right : Z) : option Z :=
  search (Z.to_nat (right - left + 1)) goRight left right.

(** [itemPositions[mid] < scrollTop]; a comparison with [undefined] is
    false. *)
Definition startsAbove (l : Layout) (scrollTop : Q) (mid : Z) : bool :=
  match Arr.at_ l.(itemPositions) mid with
  | Some position => lt position scrollTop
  | None => false
  end.

(** [itemPositions[mid] + (itemHeights[mid] || estimatedItemHeight)] *)
Definition itemBottom (o : Options) (l : Layout) (mid : Z) : option Q :=
  match Arr.at_ l.(itemPositions) mid with
  | Some position => Some (add position (or_estimate o (Arr.at_ l.(itemHeights) mid)))
  | None => None
  end.

(** [itemBottom <= scrollBottom] *)
Definition endsAbove (o : Options) (l : Layout) (scrollBottom : Q) (mid : Z) : bool :=
  match itemBottom o l mid with
  | Some bottom => Qle_bool bottom scrollBottom
  | None => false
  end.

Definition startIndex (len : nat) (o : Options) (l : Layout) (scrollTop : Q) : option Z :=
  if showAll len o then Some 0%Z
  else
    match binarySearch (startsAbove l scrollTop) 0
            (Z.of_nat (List.length l.(itemPositions)) - 1) with
    | Some final => Some (Z.max 0 (final - overscan_of o))
    | None => None
    end.

Definition endIndex (len : nat) (o : Options) (l : Layout) (containerHeight scrollTop : Q)
    : option Z :=
  if showAll len o then Some (Z.of_nat len)
  else
    let scrollBottom := add scrollTop containerHeight in
    match startIndex len o l scrollTop with
    | Some start =>
        match binarySearch (endsAbove o l scrollBottom) start
                (Z.of_nat (List.length l.(itemPositions)) - 1) with
        | Some final => Some (Z.min (Z.of_nat len) (final + overscan_of o))
        | None => None
        end
    | None => None
    end.

Definition visibleItems {T} (items : list T) (o : Options) (l : Layout)
    (containerHeight scrollTop : Q) : option (list T) :=
  if showAll (List.length items) o then Some items
  else
    match startIndex (List.length items) o l scrollTop,
          endIndex (List.length items) o l containerHeight scrollTop with
    | Some start, Some stop => Some (Arr.slice start stop items)
    | _, _ => None
    end.

(** [itemPositions[startIndex] || 0] *)
Definition offsetY (len : nat) (o : Options) (l : Layout) (scrollTop : Q) : option Q :=
  if showAll len o then Some 0
  else
    match startIndex len o l scrollTop with
    | Some start => Some (nullish (Arr.at_ l.(itemPositions) start) 0)
    | None => None
    end.

(** [None] is [NaN]: the sum the virtualized branch forms has an
    [undefined] operand when there are no positions. *)
Definition totalHeight (len : nat) (o : Options) (l : Layout) : option Q :=
  if showAll len o then Some (fold_left add l.(itemHeights) 0)
  else
    match Arr.at_ l.(itemPositions) (Z.of_nat (List.length l.(itemPositions)) - 1) with
    | Some position =>
        Some (add position
                (or_estimate o
                   (Arr.at_ l.(itemHeights) (Z.of_nat (List.length l.(itemHeights)) - 1))))
    | None => None
    end.

End DynamicVirtualScroll.

(* ================================================================= *)
(** ** Vocabulary of the properties *)

Module Props.
Import JS Types Store.

(** A string without ['-'], as every column id must be for
    [key.split('-')] to give the id back. *)
Fixpoint no_dash (s : string) : bool :=
  match s with
  | EmptyString => true
  | String c r => negb (Ascii.eqb c "-") && no_dash r
  end.

(** Rows and columns have distinct ids, column ids and the property names
    of every [grades] object are free of ['-'], and no [grades] object has
    a property twice. *)
Record wf_grid (s : State) : Prop := mkWf {
  wf_rows : NoDup (map rid s.(rows));
  wf_cols : NoDup (map cid s.(columns));
  wf_col_ids : forall c, In c s.(columns) -> no_dash c.(cid) = true;
  wf_grade_keys : forall r, In r s.(rows) ->
      NoDup (Obj.keys r.(grades)) /\
      (forall k, In k (Obj.keys r.(grades)) -> no_dash k = true)
}.

Fixpoint digits_only (s : string) : bool :=
  match s with
  | EmptyString => true
  | String c r => is_digit c && digits_only r
  end.

(** The stored value of a cell: [None] when no row has that id, otherwise
    what [row.grades[columnId]] holds ([None] inside for [undefined]). *)
Definition cellValue (s : State) (rowId : N) (columnId : string) : option (option Value) :=
  match find (row_is rowId) s.(rows) with
  | Some row => Some (Obj.get row.(grades) columnId)
  | None => None
  end.

Definition rowHasErrors (s : State) (rowId : N) : option bool :=
  option_map hasErrors (find (row_is rowId) s.(rows)).

(** A row appears in the aggregate error set. *)
Definition inErrorSet (s : State) (rowId : N) : bool :=
  existsb (fun e => N.eqb e.(e_rowId) rowId) s.(validationErrors).

Definition flags_agree (s : State) : Prop :=
  forall r, In r s.(rows) -> r.(hasErrors) = inErrorSet s r.(rid).

(** The id and the flag of a row, the two fields [flags_agree] reads. *)
Definition idAndFlag (r : StudentGradeRow) : N * bool := (r.(rid), r.(hasErrors)).

Definition flags_inv (s : State) : Prop :=
  NoDup (map rid s.(rows)) /\ flags_agree s.

(** Every cell of every row, keyed as the save request keys it. *)
Definition allCells (rs : list StudentGradeRow) : Obj.t Value :=
  flat_map (fun row => map (fun cv => (cellKey row.(rid) (fst cv), snd cv)) row.(grades)) rs.

Definition allUpdates (rs : list StudentGradeRow) : list GradeUpdate :=
  flat_map (fun row => map (fun cv => mkUpdate (Some row.(rid)) (fst cv) (snd cv)) row.(grades)) rs.

(** A key [batchUpdate] decodes to the cell it was made from. *)
Definition plainKey (k : string) : Prop :=
  exists r c, k = cellKey r c /\ no_dash c = true.

(** [collectUpdates] from any starting object and over any part of the
    loop. *)
Definition collectInto (f : LoopCell -> option Value) (l : list LoopCell)
    (o : Obj.t Value) : Obj.t Value :=
  fold_left
    (fun updates c =>
       match f c with
       | Some v => Obj.set updates (loopKey c) v
       | None => updates
       end)
    l o.

(** The history log is within its bound and the cursor is on an entry. *)
Definition history_ok (s : State) : Prop :=
  (List.length s.(history) <= 100)%nat /\
  (s.(history) = [] -> s.(historyIndex) = (-1)%Z) /\
  (s.(history) <> [] ->
     (0 <= s.(historyIndex) < Z.of_nat (List.length s.(history)))%Z).

(** The cursor is on the newest entry. *)
Definition at_end (s : State) : Prop :=
  s.(historyIndex) = (Z.of_nat (List.length s.(history)) - 1)%Z.

(** The operations a caller can run on a session. *)
Inductive Action : Type :=
  | AUpdateCell (rowId : N) (columnId : string) (value : Value)
  | ABatchUpdate (updates : Obj.t Value)
  | AClear
  | AFill (d : Direction)
  | AAddPoints (points : Q)
  | AMultiplyBy (factor : Q)
  | AUndo
  | ARedo
  | AValidateAll
  | AClearHistory.

Definition step (a : Action) (s : State) : State :=
  match a with
  | AUpdateCell r c v => updateCell r c v s
  | ABatchUpdate u => batchUpdate u s
  | AClear => clear s
  | AFill d => fill d s
  | AAddPoints p => addPoints p s
  | AMultiplyBy f => multiplyBy f s
  | AUndo => undo s
  | ARedo => redo s
  | AValidateAll => validateAll s
  | AClearHistory => clearHistory s
  end.

Definition run (l : list Action) (s : State) : State :=
  fold_left (fun st a => step a st) l s.

(** A single-cell edit of an existing row. *)
Definition is_edit_of (s : State) (a : Action) : Prop :=
  match a with
  | AUpdateCell r _ _ => In r (map rid s.(rows))
  | _ => False
  end.

(** Row [i] of height [H] lies on [[i*H, (i+1)*H]]; it meets the viewport
    [[S, S+V]]. *)
Definition rowIntersects (H S V : Q) (i : Z) : Prop :=
  (inject_Z i * H <= S + V /\ S <= (inject_Z i + 1) * H)%Q.

Definition inWindow (len : nat) (o : VirtualScroll.VirtualScrollOptions)
    (S : Q) (i : Z) : Prop :=
  (VirtualScroll64.startIndex len o S <= i < VirtualScroll64.endIndex len o S)%Z.

(** The rectangle between two cells with both axes in order; columns are
    ordered as [SelectionManager.isCellSelected] compares them. *)
Definition normalizedRect (a t : Z * string) : GradeSelection :=
  mkSelection (Z.min (fst a) (fst t)) (Z.max (fst a) (fst t))
    (if String.leb (snd a) (snd t) then snd a else snd t)
    (if String.leb (snd a) (snd t) then snd t else snd a)
    KRange.

Definition extendAll (ts : list (Z * string)) (m : SelectionManager.t) : SelectionManager.t :=
  fold_left (fun st t => SelectionManager.selectCell (fst t) (snd t) true st) ts m.

(** What [assignRanks sorted index] makes of one row. *)
Definition ranked (sorted : list StudentGradeRow) (index : Z) (r : StudentGradeRow) :=
  if (0 <=? Arr.findIndex (row_is r.(rid)) sorted)%Z
  then set_rank (index + 1 + Arr.findIndex (row_is r.(rid)) sorted) r
  else r.

(** [a] may stand before [b] in the sorted array. *)
Definition desc (a b : StudentGradeRow) : Prop := (b.(totalScore) <= a.(totalScore))%Q.

(** [y] has a strictly larger total than [r]. *)
Definition ahead (r y : StudentGradeRow) : bool := lt r.(totalScore) y.(totalScore).

(** Position-based rank: one more than the number of rows that sort before
    [r], i.e. rows with a larger total, and rows with the same total that
    come earlier in the array. *)
Fixpoint rowsBefore (r : StudentGradeRow) (l : list StudentGradeRow) : Z :=
  match l with
  | [] => 0%Z
  | x :: rest =>
      if N.eqb x.(rid) r.(rid) then
        Z.of_nat (List.length (filter (ahead r) rest))
      else
        ((if Qle_bool r.(totalScore) x.(totalScore) then 1 else 0) + rowsBefore r rest)%Z
  end.

(** A cell of a grid with [totalRows] rows and [totalCols] columns. *)
Definition inGrid (totalRows totalCols : Z) (p : Z * Z) : Prop :=
  (0 <= fst p < totalRows /\ 0 <= snd p < totalCols)%Z.

Definition inGridb (totalRows totalCols : Z) (p : Z * Z) : bool :=
  ((0 <=? fst p) && (fst p <? totalRows) && (0 <=? snd p) && (snd p <? totalCols))%Z.

(** The place of a cell when the grid is read row by row. *)
Definition rowMajor (totalCols : Z) (p : Z * Z) : Z := (fst p * totalCols + snd p)%Z.

Definition opposite (d : Direction) : Direction :=
  match d with Up => Down | Down => Up | Left => Right | Right => Left end.

(** The cell next to [p] in direction [d], and the cell at the far end of
    [p]'s row or column, where a move off the grid in direction [d] comes
    back in. *)
Definition neighbour (d : Direction) (p : Z * Z) : Z * Z :=
  match d with
  | Up => (fst p - 1, snd p)
  | Down => (fst p + 1, snd p)
  | Left => (fst p, snd p - 1)
  | Right => (fst p, snd p + 1)
  end%Z.

Definition farEdge (d : Direction) (totalRows totalCols : Z) (p : Z * Z) : Z * Z :=
  match d with
  | Up => (totalRows - 1, snd p)
  | Down => (0, snd p)
  | Left => (fst p, totalCols - 1)
  | Right => (fst p, 0)
  end%Z.

(** Every row's derived total and average are those of the grades it
    holds, under the columns of the sheet. *)
Definition derived_ok (cols : list GradeColumn) (r : StudentGradeRow) : Prop :=
  r.(totalScore) = calculateTotalScore r.(grades) cols /\
  r.(averageScore) = calculateAverageScore r.(grades) cols.

Definition totals_ok (s : State) : Prop := Forall (derived_ok s.(columns)) s.(rows).

(** The modified flag of the row with that id. *)
Definition rowModified (s : State) (rowId : N) : option bool :=
  option_map isModified (find (row_is rowId) s.(rows)).

(** Some key of the object names a cell of that row. *)
Definition namesRow (g : Obj.t Value) (rowId : N) : Prop :=
  exists c, In (cellKey rowId c) (Obj.keys g).

(** Some entry of the object decodes to that row. *)
Definition touchesRow (vals : Obj.t Value) (r : N) : bool :=
  existsb (fun kv => match key_rowId (fst kv) with
                     | Some r' => N.eqb r' r
                     | None => false
                     end) vals.

(** The row a vertical fill copies from: the one under the selection when
    filling up, the one above it when filling down. *)
Definition fillSourceRow (d : Direction) (sel : GradeSelection) : Z :=
  match d with
  | Up => (sel.(endRow) + 1)%Z
  | _ => (sel.(startRow) - 1)%Z
  end.

(** Shift-clicks on the store's sheet, one after the other. *)
Definition extendStore (ts : list (N * string)) (s : State) : State :=
  fold_left (fun st t => selectCell (fst t) (snd t) true st) ts s.

(** The index of the row with that id. *)
Definition rowIndexOf (s : State) (rowId : N) : Z := Arr.findIndex (row_is rowId) s.(rows).

(** The cell an error is about. *)
Definition errorCell (e : GradeValidationError) : N * string := (e.(e_rowId), e.(e_columnId)).

(** The sum of a list of heights. *)
Definition sumOf (hs : list Q) : Q := fold_right Qplus 0 hs.

(** The heights added one after the other, from 0, by the additions
    [updateItemHeights] makes. *)
Definition addedUp (hs : list Q) : Q := fold_left add hs 0.

(** The item at index [i] of a layout lies on [[top, bottom]] and meets the
    viewport [[S, S + V]]. *)
Definition itemMeets (l : DynamicVirtualScroll.Layout) (S V : Q) (i : Z) : Prop :=
  exists top height,
    Arr.at_ l.(DynamicVirtualScroll.itemPositions) i = Some top
    /\ Arr.at_ l.(DynamicVirtualScroll.itemHeights) i = Some height
    /\ (S <= top + height)%Q /\ (top <= S + V)%Q.

End Props.

(* ================================================================= *)
(** ** Concrete sessions used below *)

Module Examples.
Import JS Types Store.

(** The fixture of [stores/__tests__/grade.spec.ts] once loaded. *)
Definition assignment1 : GradeColumn := mkColumn "assignment1" 100 20 true.
Definition zhangsan : StudentGradeRow :=
  mkRow 1 [("assignment1"%string, Some 85%Q)] 17 85 1 false false.
Definition loaded : State :=
  mkState [assignment1] [zhangsan] (Some 1%N) false false None
    [] None None [] [] (-1) DEFAULT_SPREADSHEET_CONFIG false [].

(** A column that is not required. *)
Definition quiz : GradeColumn := mkColumn "quiz" 100 20 false.
Definition quizSheet : State :=
  mkState [quiz] [mkRow 1 [] 0 0 1 false false] (Some 1%N) false false None
    [] None None [] [] (-1) DEFAULT_SPREADSHEET_CONFIG false [].

(** Two students with the same total. *)
Definition tied : State :=
  mkState [assignment1]
    [mkRow 1 [("assignment1"%string, Some 90%Q)] 18 90 0 false false;
     mkRow 2 [("assignment1"%string, Some 90%Q)] 18 90 0 false false]
    (Some 1%N) false false None
    [] None None [] [] (-1) DEFAULT_SPREADSHEET_CONFIG false [].

(** Two students; only the first has been edited since the last save. *)
Definition oneDirty : State :=
  mkState [assignment1]
    [mkRow 1 [("assignment1"%string, Some (9025 # 100))] (1805 # 100) (9025 # 100) 1 true false;
     mkRow 2 [("assignment1"%string, Some (8525 # 100))] (1705 # 100) (8525 # 100) 2 false false]
    (Some 1%N) false false None
    [] None None [] [] (-1) DEFAULT_SPREADSHEET_CONFIG false [].

(** A loaded sheet with a score that prints with two decimals. *)
Definition fractional : State :=
  mkState [assignment1]
    [mkRow 1 [("assignment1"%string, Some (8525 # 100))] (1705 # 100) (8525 # 100) 1 false false]
    (Some 1%N) false false None
    [] None None [] [] (-1) DEFAULT_SPREADSHEET_CONFIG false [].

(** A sheet with its one cell, holding 95, selected. *)
Definition cell95 : GradeSelection := mkSelection 0 0 "assignment1" "assignment1" KCell.
Definition row95 : StudentGradeRow :=
  mkRow 1 [("assignment1"%string, Some 95%Q)] 19 95 1 false false.
Definition selected95 : State :=
  mkState [assignment1] [row95] (Some 1%N) false false None
    [cell95] None None [] [] (-1) DEFAULT_SPREADSHEET_CONFIG false [].
Definition loop95 : LoopCell := mkLoopCell cell95 0 0 row95 assignment1.

(** A sheet whose one column has a ['-'] in its id, with its one cell,
    holding 95, selected. *)
Definition midTerm : GradeColumn := mkColumn "mid-term" 100 20 true.
Definition dashedCell : GradeSelection := mkSelection 0 0 "mid-term" "mid-term" KCell.
Definition dashedRow : StudentGradeRow :=
  mkRow 1 [("mid-term"%string, Some 95%Q)] 19 95 1 false false.
Definition dashedSelected : State :=
  mkState [midTerm] [dashedRow] (Some 1%N) false false None
    [dashedCell] None None [] [] (-1) DEFAULT_SPREADSHEET_CONFIG false [].
Definition dashedLoop : LoopCell := mkLoopCell dashedCell 0 0 dashedRow midTerm.

(** Three students, no scores yet. *)
Definition threeRows : State :=
  mkState [assignment1]
    [mkRow 1 [] 0 0 1 false false; mkRow 2 [] 0 0 2 false false;
     mkRow 3 [] 0 0 3 false false]
    (Some 1%N) false false None
    [] None None [] [] (-1) DEFAULT_SPREADSHEET_CONFIG false [].

(** Three students and two columns, "assignment1" before "quiz". *)
Definition twoColumns : State :=
  mkState [assignment1; quiz]
    [mkRow 1 [] 0 0 1 false false; mkRow 2 [] 0 0 2 false false;
     mkRow 3 [] 0 0 3 false false]
    (Some 1%N) false false None
    [] None None [] [] (-1) DEFAULT_SPREADSHEET_CONFIG false [].

(** A click on student 1 in column "quiz", a shift-click on student 3 in
    column "assignment1", and one more on student 2. *)
Definition storeLeftward : State :=
  selectCell 3 "assignment1" true (selectCell 1 "quiz" false twoColumns).
Definition storeBack : State := selectCell 2 "assignment1" true storeLeftward.

(** [SelectionManager]: a click on (2, "b") and a shift-click on
    (5, "a"). *)
Definition leftward : SelectionManager.t :=
  SelectionManager.selectCell 5 "a" true
    (SelectionManager.selectCell 2 "b" false SelectionManager.empty).

(** A loaded sheet holding an out-of-range score. *)
Definition outOfRange : State :=
  mkState [assignment1]
    [mkRow 1 [("assignment1"%string, Some 150%Q)] 30 150 1 false false]
    (Some 1%N) false false None
    [] None None [] [] (-1) DEFAULT_SPREADSHEET_CONFIG false [].

(** 150 edits of the one cell of [loaded]. *)
Definition edits150 : list Props.Action :=
  repeat (Props.AUpdateCell 1 "assignment1" (Some (9025 # 100))) 150.

Definition unaligned : VirtualScroll.VirtualScrollOptions :=
  VirtualScroll.mkOptions 10 20 (Some 0%Z) None None.

Definition buffered : VirtualScroll.VirtualScrollOptions :=
  VirtualScroll.mkOptions 10 20 (Some 1%Z) None None.

(** Rows 3.55 high in a container 177.5 high, scrolled to
    7.099999999999999, with one and with two rows of overscan. *)
Definition tight : VirtualScroll.VirtualScrollOptions :=
  VirtualScroll.mkOptions (Double.literal (355 # 100)) (1775 # 10) (Some 1%Z) None None.
Definition snug : VirtualScroll.VirtualScrollOptions :=
  VirtualScroll.mkOptions (Double.literal (355 # 100)) (1775 # 10) (Some 2%Z) None None.
Definition tightScroll : Q := Double.literal (7099999999999999 # 1000000000000000).

(** Rows 97.6 high in a container 400 high, scrolled to
    414311.99999999994, with no overscan and with one row of it. *)
Definition tall : VirtualScroll.VirtualScrollOptions :=
  VirtualScroll.mkOptions (Double.literal (976 # 10)) 400 (Some 1%Z) None None.
Definition tallBare : VirtualScroll.VirtualScrollOptions :=
  VirtualScroll.mkOptions (Double.literal (976 # 10)) 400 (Some 0%Z) None None.
Definition deepScroll : Q := Double.literal (41431199999999994 # 100000000000).

(** The two students of [oneDirty] with the cell of the second selected. *)
Definition secondCell : GradeSelection := mkSelection 1 1 "assignment1" "assignment1" KCell.
Definition secondSelected : State := set_selectedCells [secondCell] oneDirty.
Definition secondLoop : LoopCell :=
  mkLoopCell secondCell 1 0
    (mkRow 2 [("assignment1"%string, Some (8525 # 100))] (1705 # 100) (8525 # 100) 2 false false)
    assignment1.

(** Five rows that are alternately 20 and 30 high, always virtualized,
    with one row of overscan. *)
Definition stripes : list unit := repeat tt 5.
Definition stripeHeight (item : unit) (index : Z) : Q := if Z.even index then 20 else 30.
Definition alwaysVirtual : DynamicVirtualScroll.Options :=
  DynamicVirtualScroll.mkOptions (Some 1%Z) None (Some 0%Z) None.

(** The same without overscan. *)
Definition bare : DynamicVirtualScroll.Options :=
  DynamicVirtualScroll.mkOptions (Some 0%Z) None (Some 0%Z) None.

End Examples.

(* ================================================================= *)
(** * Properties *)

Import JS Types Store Props.

(* ----------------------------------------------------------------- *)
(** ** The cell key and its inverse *)

Section CellKey.

Local Open Scope string_scope.

Lemma string_of_uint_digits d : digits_only (NilEmpty.string_of_uint d) = true.
Proof. induction d; simpl; auto. Qed.

Lemma N_to_uint_nonnil n : N.to_uint n <> Decimal.Nil.
Proof.
  destruct n as [|p]; simpl; [discriminate|].
  apply DecimalPos.Unsigned.to_uint_nonnil.
Qed.

Lemma N_toString_eq n : N_toString n = NilEmpty.string_of_uint (N.to_uint n).
Proof.
  unfold N_toString, NilZero.string_of_uint.
  pose proof (N_to_uint_nonnil n) as Hn.
  destruct (N.to_uint n); congruence.
Qed.

Lemma N_toString_digits n : digits_only (N_toString n) = true.
Proof. rewrite N_toString_eq. apply string_of_uint_digits. Qed.

Lemma N_toString_nonempty n : N_toString n <> EmptyString.
Proof.
  rewrite N_toString_eq. pose proof (N_to_uint_nonnil n) as Hn.
  destruct (N.to_uint n); simpl; congruence.
Qed.

Lemma dash_not_digit : is_digit "-" = false.
Proof. reflexivity. Qed.

Lemma is_digit_not_dash c : is_digit c = true -> Ascii.eqb c "-" = false.
Proof.
  intros Hc. destruct (Ascii.eqb_spec c "-") as [->|]; [|reflexivity].
  rewrite dash_not_digit in Hc. discriminate.
Qed.

Lemma leading_digits_key s c :
  digits_only s = true -> leading_digits (s ++ String "-" c) = s.
Proof.
  induction s as [|a s IH]; simpl; intros H.
  - reflexivity.
  - apply andb_prop in H as [Ha Hs]. rewrite Ha, IH; auto.
Qed.

Lemma split_dash_nonempty s : split_dash s <> [].
Proof.
  destruct s as [|a s]; simpl; [discriminate|].
  destruct (Ascii.eqb a "-"); [discriminate|].
  destruct (split_dash s); discriminate.
Qed.

Lemma split_dash_key s c :
  digits_only s = true -> split_dash (s ++ String "-" c) = s :: split_dash c.
Proof.
  induction s as [|a s IH]; simpl; intros H.
  - reflexivity.
  - apply andb_prop in H as [Ha Hs].
    rewrite (is_digit_not_dash _ Ha), IH; auto.
Qed.

Lemma split_dash_plain c : no_dash c = true -> split_dash c = [c].
Proof.
  induction c as [|a c IH]; simpl; intros H.
  - reflexivity.
  - apply andb_prop in H as [Ha Hc].
    apply negb_true_iff in Ha. rewrite Ha, IH; auto.
Qed.

Lemma leading_digits_all s : digits_only s = true -> leading_digits s = s.
Proof.
  induction s as [|a s IH]; simpl; intros H; [reflexivity|].
  apply andb_prop in H as [Ha Hs]. rewrite Ha, IH; auto.
Qed.

Lemma parseInt_N_toString n : parseInt (N_toString n) = Some n.
Proof.
  unfold parseInt.
  rewrite leading_digits_all by apply N_toString_digits.
  unfold N_toString.
  rewrite NilZero.usu by apply N_to_uint_nonnil.
  now rewrite DecimalN.Unsigned.of_to.
Qed.

(** [parseInt(key.split('-')[0])] gives the row id back, whatever the
    column id is. *)
Lemma key_rowId_cellKey n c : key_rowId (cellKey n c) = Some n.
Proof.
  unfold key_rowId, cellKey.
  rewrite split_dash_key by apply N_toString_digits. simpl.
  apply parseInt_N_toString.
Qed.

(** [key.split('-')[1]] gives the column id back when it has no ['-']. *)
Lemma key_columnId_cellKey n c :
  no_dash c = true -> key_columnId (cellKey n c) = c.
Proof.
  intros Hc. unfold key_columnId, cellKey.
  rewrite split_dash_key by apply N_toString_digits.
  rewrite split_dash_plain by assumption. reflexivity.
Qed.

Lemma append_inj_l (p a b : string) : p ++ a = p ++ b -> a = b.
Proof. induction p; simpl; intros H; [assumption|]. injection H; auto. Qed.

Lemma cellKey_inj n c n' c' : cellKey n c = cellKey n' c' -> n = n' /\ c = c'.
Proof.
  intros H.
  assert (Hn : n = n').
  { pose proof (key_rowId_cellKey n c) as H1. rewrite H in H1.
    rewrite key_rowId_cellKey in H1. congruence. }
  subst n'. split; [reflexivity|].
  unfold cellKey in H. apply append_inj_l in H. congruence.
Qed.

(** With a ['-'] in the column id the key no longer names the column. *)
Example key_columnId_with_dash :
  key_columnId (cellKey 1 "mid-term") = "mid".
Proof. reflexivity. Qed.

End CellKey.

(* ----------------------------------------------------------------- *)
(** ** Objects as maps *)

Section ObjectFacts.

Context {V : Type}.

Lemma get_set_same (o : Obj.t V) k v : Obj.get (Obj.set o k v) k = Some v.
Proof.
  induction o as [|[k' v'] o IH]; simpl.
  - rewrite String.eqb_refl. reflexivity.
  - destruct (String.eqb k' k) eqn:E; simpl; rewrite E; [reflexivity | exact IH].
Qed.

Lemma get_set_other (o : Obj.t V) k v k' :
  k <> k' -> Obj.get (Obj.set o k v) k' = Obj.get o k'.
Proof.
  intros Hk. induction o as [|[k0 v0] o IH]; simpl.
  - destruct (String.eqb_spec k k'); [contradiction | reflexivity].
  - destruct (String.eqb_spec k0 k) as [->|]; simpl.
    + destruct (String.eqb_spec k k'); [contradiction | reflexivity].
    + rewrite IH. reflexivity.
Qed.

Lemma set_fresh (o : Obj.t V) k v :
  ~ In k (Obj.keys o) -> Obj.set o k v = o ++ [(k, v)].
Proof.
  induction o as [|[k' v'] o IH]; intros Hk; simpl; [reflexivity|].
  destruct (String.eqb_spec k' k) as [->|].
  - exfalso. apply Hk. left. reflexivity.
  - f_equal. apply IH. intros H. apply Hk. right. exact H.
Qed.

Lemma get_in_keys (o : Obj.t V) k v : Obj.get o k = Some v -> In k (Obj.keys o).
Proof.
  induction o as [|[k' v'] o IH]; simpl; [discriminate|].
  destruct (String.eqb_spec k' k) as [->|]; [left; reflexivity|].
  intros H. right. apply IH. exact H.
Qed.

Lemma get_not_in_keys (o : Obj.t V) k : ~ In k (Obj.keys o) -> Obj.get o k = None.
Proof.
  intros Hk. destruct (Obj.get o k) eqn:E; [|reflexivity].
  exfalso. apply Hk. eapply get_in_keys. exact E.
Qed.

Lemma keys_set (o : Obj.t V) k v k' :
  In k' (Obj.keys (Obj.set o k v)) <-> k' = k \/ In k' (Obj.keys o).
Proof.
  induction o as [|[k0 v0] o IH]; simpl.
  - intuition.
  - destruct (String.eqb_spec k0 k) as [->|]; simpl; [intuition | rewrite IH; intuition].
Qed.

Lemma set_NoDup (o : Obj.t V) k v :
  NoDup (Obj.keys o) -> NoDup (Obj.keys (Obj.set o k v)).
Proof.
  induction o as [|[k0 v0] o IH]; intros Hnd; simpl.
  - constructor; [intros [] | constructor].
  - inversion Hnd as [|? ? Hk Ho]; subst.
    destruct (String.eqb_spec k0 k) as [->|]; simpl; [exact Hnd|].
    constructor; [|apply IH; exact Ho].
    intros H. apply keys_set in H as [H|H]; [congruence | contradiction].
Qed.

(** Setting properties that are all new appends them in order. *)
Lemma set_all_fresh (l : list (string * V)) : forall o : Obj.t V,
  NoDup (Obj.keys o ++ map fst l) ->
  fold_left (fun u kv => Obj.set u (fst kv) (snd kv)) l o = o ++ l.
Proof.
  induction l as [|[k v] l IH]; intros o Hnd; simpl.
  - rewrite List.app_nil_r. reflexivity.
  - simpl in Hnd. apply NoDup_remove in Hnd as [Hnd Hk].
    rewrite set_fresh by (intros H; apply Hk, in_or_app; left; exact H).
    rewrite IH.
    + rewrite <- List.app_assoc. reflexivity.
    + unfold Obj.keys in *. rewrite map_app. simpl. rewrite <- List.app_assoc. simpl.
      apply NoDup_Add with (a := k) (l := map fst o ++ map fst l); [|constructor; assumption].
      apply Add_app.
Qed.

End ObjectFacts.

(* ----------------------------------------------------------------- *)
(** ** Rounding to the nearest double *)

Section Binary64.
Import Double.
Local Open Scope Q_scope.

Lemma pow2_pos (e : Z) : 0 < pow2 e.
Proof. unfold pow2. apply Qpower_0_lt. reflexivity. Qed.

Lemma pow2_plus (a b : Z) : pow2 (a + b) == pow2 a * pow2 b.
Proof. unfold pow2. apply Qpower_plus. discriminate. Qed.

Lemma pow2_le (a b : Z) : (a <= b)%Z -> pow2 a <= pow2 b.
Proof. intros H. unfold pow2. apply Qpower_le_compat_l; [exact H|]. discriminate. Qed.

Lemma pow2_nat (n : Z) : (0 <= n)%Z -> pow2 n == inject_Z (2 ^ n).
Proof. intros H. unfold pow2. rewrite Zpower_Qpower by exact H. reflexivity. Qed.

(** [ilog2 x] is the binade of [x]: [2^(ilog2 x) <= x < 2^(ilog2 x + 1)]. *)
Lemma ilog2_spec (x : Q) : 0 < x -> pow2 (ilog2 x) <= x /\ x < pow2 (ilog2 x + 1).
Proof.
  intros Hx. destruct x as [n d]. unfold ilog2. cbn [Qnum Qden].
  assert (Hn : (0 < n)%Z).
  { unfold Qlt in Hx. cbn in Hx. lia. }
  destruct (Z.log2_spec n Hn) as [Hn1 Hn2].
  destruct (Z.log2_spec (Zpos d) (Pos2Z.is_pos d)) as [Hd1 Hd2].
  set (a := Z.log2 n) in *. set (b := Z.log2 (Zpos d)) in *.
  assert (Ha : (0 <= a)%Z) by apply Z.log2_nonneg.
  assert (Hb : (0 <= b)%Z) by apply Z.log2_nonneg.
  assert (X : n # d == inject_Z n / inject_Z (Zpos d)).
  { rewrite (Qmake_Qdiv n d). reflexivity. }
  assert (Hdq : 0 < inject_Z (Zpos d)) by (unfold Qlt; cbn; lia).
  assert (Lo : pow2 (a - b - 1) < n # d).
  { rewrite X. apply Qlt_shift_div_l; [exact Hdq|].
    apply Qlt_le_trans with (pow2 (a - b - 1) * pow2 (b + 1)).
    - apply Qmult_lt_l; [apply pow2_pos|].
      rewrite pow2_nat by lia. rewrite <- Zlt_Qlt. unfold Z.succ in Hd2. exact Hd2.
    - rewrite <- pow2_plus. replace (a - b - 1 + (b + 1))%Z with a by lia.
      rewrite pow2_nat by lia. rewrite <- Zle_Qle. exact Hn1. }
  assert (Hi : n # d < pow2 (a - b + 1)).
  { rewrite X. apply Qlt_shift_div_r; [exact Hdq|].
    apply Qlt_le_trans with (pow2 (a + 1)).
    - rewrite pow2_nat by lia. rewrite <- Zlt_Qlt. exact Hn2.
    - replace (a + 1)%Z with (a - b + 1 + b)%Z by lia. rewrite pow2_plus.
      apply Qmult_le_l; [apply pow2_pos|].
      rewrite pow2_nat by lia. rewrite <- Zle_Qle. exact Hd1. }
  destruct (Qle_bool (pow2 (a - b)) (n # d)) eqn:E.
  - apply Qle_bool_iff in E. split; assumption.
  - assert (K : n # d < pow2 (a - b)).
    { apply Qnot_le_lt. intros K. apply Qle_bool_iff in K. congruence. }
    split.
    + apply Qlt_le_weak. exact Lo.
    + replace (a - b - 1 + 1)%Z with (a - b)%Z by lia. exact K.
Qed.

Lemma ilog2_mono (x y : Q) : 0 < x -> x <= y -> (ilog2 x <= ilog2 y)%Z.
Proof.
  intros Hx Hxy.
  destruct (ilog2_spec x Hx) as [X1 _].
  destruct (ilog2_spec y (Qlt_le_trans _ _ _ Hx Hxy)) as [_ Y2].
  destruct (Z_le_gt_dec (ilog2 x) (ilog2 y)) as [H|H]; [exact H|exfalso].
  assert (K : pow2 (ilog2 y + 1) <= pow2 (ilog2 x)) by (apply pow2_le; lia).
  apply (Qlt_irrefl y).
  apply Qlt_le_trans with (1 := Y2). apply Qle_trans with (1 := K).
  apply Qle_trans with (1 := X1). exact Hxy.
Qed.

Lemma nearestEven_bounds (x : Q) :
  (Qfloor x <= nearestEven x <= Qfloor x + 1)%Z.
Proof.
  unfold nearestEven.
  destruct (Qcompare _ _); [destruct (Z.even _)| |]; lia.
Qed.

Lemma nearestEven_Z (n : Z) : nearestEven (inject_Z n) = n.
Proof.
  unfold nearestEven. rewrite Qfloor_Z.
  assert (H : inject_Z n - inject_Z n < 1 # 2).
  { setoid_replace (inject_Z n - inject_Z n) with 0 by ring. reflexivity. }
  replace (Qcompare (inject_Z n - inject_Z n) (1 # 2)) with Lt
    by (symmetry; apply Qlt_alt; exact H).
  reflexivity.
Qed.

Lemma Qfloor_eq (x y : Q) : x == y -> Qfloor x = Qfloor y.
Proof. intros H. rewrite H. reflexivity. Qed.

Lemma nearestEven_eq (x y : Q) : x == y -> nearestEven x = nearestEven y.
Proof.
  intros H. unfold nearestEven. rewrite (Qfloor_eq x y H).
  assert (E : Qcompare (x - inject_Z (Qfloor y)) (1 # 2) = Qcompare (y - inject_Z (Qfloor y)) (1 # 2)).
  { rewrite H. reflexivity. }
  rewrite E. reflexivity.
Qed.

Lemma nearestEven_le_Z (x : Q) (n : Z) : x <= inject_Z n -> (nearestEven x <= n)%Z.
Proof.
  intros H.
  destruct (Z_lt_le_dec (Qfloor x) n) as [L|L].
  - pose proof (nearestEven_bounds x). lia.
  - assert (F : (Qfloor x <= n)%Z).
    { rewrite <- (Qfloor_Z n). apply Qfloor_resp_le. exact H. }
    assert (E : x == inject_Z n).
    { apply Qle_antisym; [exact H|].
      replace n with (Qfloor x) by lia. apply Qfloor_le. }
    rewrite (nearestEven_eq _ _ E), nearestEven_Z. lia.
Qed.

Lemma nearestEven_ge_Z (x : Q) (n : Z) : inject_Z n <= x -> (n <= nearestEven x)%Z.
Proof.
  intros H.
  assert (F : (n <= Qfloor x)%Z).
  { rewrite <- (Qfloor_Z n). apply Qfloor_resp_le. exact H. }
  pose proof (nearestEven_bounds x). lia.
Qed.

(** Rounding to the nearest integer is monotone. *)
Lemma nearestEven_mono (x y : Q) : x <= y -> (nearestEven x <= nearestEven y)%Z.
Proof.
  intros H.
  assert (F : (Qfloor x <= Qfloor y)%Z) by (apply Qfloor_resp_le; exact H).
  destruct (Z.eq_dec (Qfloor x) (Qfloor y)) as [E|E].
  - unfold nearestEven. rewrite <- E.
    assert (D : x - inject_Z (Qfloor x) <= y - inject_Z (Qfloor x)).
    { apply Qplus_le_l. exact H. }
    destruct (Qcompare (x - inject_Z (Qfloor x)) (1 # 2)) eqn:Cx;
    destruct (Qcompare (y - inject_Z (Qfloor x)) (1 # 2)) eqn:Cy;
    try (destruct (Z.even (Qfloor x))); try lia; exfalso;
    repeat match goal with
    | K : Qcompare _ _ = Eq |- _ => apply Qeq_alt in K
    | K : Qcompare _ _ = Lt |- _ => apply Qlt_alt in K
    | K : Qcompare _ _ = Gt |- _ => apply Qgt_alt in K
    end; lra.
  - pose proof (nearestEven_bounds x). pose proof (nearestEven_bounds y). lia.
Qed.

Lemma ulpExponent_mono (x y : Q) : 0 < x -> x <= y -> (ulpExponent x <= ulpExponent y)%Z.
Proof.
  intros Hx Hxy. unfold ulpExponent.
  pose proof (ilog2_mono x y Hx Hxy). lia.
Qed.

Lemma roundPositive_eq (x : Q) :
  roundPositive x == inject_Z (nearestEven (x / pow2 (ulpExponent x))) * pow2 (ulpExponent x).
Proof. unfold roundPositive. apply Qred_correct. Qed.

(** Rounding to the nearest double is monotone.  Within one spacing it is
    the monotonicity of [nearestEven]; from one spacing to a larger one, the
    power of two at which the spacing changes is a double that lies between
    the two results. *)
Lemma roundPositive_mono (x y : Q) : 0 < x -> x <= y -> roundPositive x <= roundPositive y.
Proof.
  intros Hx Hxy. rewrite !roundPositive_eq.
  assert (Hy : 0 < y) by exact (Qlt_le_trans _ _ _ Hx Hxy).
  pose proof (ulpExponent_mono x y Hx Hxy) as Hq.
  set (qx := ulpExponent x) in *. set (qy := ulpExponent y) in *.
  destruct (Z.eq_dec qx qy) as [E|E].
  - rewrite <- E. apply Qmult_le_r; [apply pow2_pos|].
    rewrite <- Zle_Qle. apply nearestEven_mono.
    apply Qmult_le_r; [apply Qinv_lt_0_compat, pow2_pos|]. exact Hxy.
  - assert (Hlt : (qx < qy)%Z) by lia.
    assert (Ey : qy = (ilog2 y - 52)%Z) by (unfold qx, qy, ulpExponent in *; lia).
    assert (Exy : (ilog2 x + 1 <= ilog2 y)%Z) by (unfold qx, qy, ulpExponent in *; lia).
    destruct (ilog2_spec x Hx) as [_ X2]. destruct (ilog2_spec y Hy) as [Y1 _].
    apply Qle_trans with (pow2 (ilog2 y)).
    + assert (B : x / pow2 qx <= inject_Z (2 ^ (ilog2 y - qx))).
      { rewrite <- pow2_nat by lia.
        apply Qle_shift_div_r; [apply pow2_pos|].
        rewrite <- pow2_plus. replace (ilog2 y - qx + qx)%Z with (ilog2 y) by lia.
        apply Qlt_le_weak. apply Qlt_le_trans with (1 := X2). apply pow2_le. exact Exy. }
      apply nearestEven_le_Z in B.
      apply Qle_trans with (inject_Z (2 ^ (ilog2 y - qx)) * pow2 qx).
      * apply Qmult_le_r; [apply pow2_pos|]. rewrite <- Zle_Qle. exact B.
      * rewrite <- pow2_nat by lia. rewrite <- pow2_plus.
        replace (ilog2 y - qx + qx)%Z with (ilog2 y) by lia. apply Qle_refl.
    + assert (B : inject_Z (2 ^ 52) <= y / pow2 qy).
      { rewrite <- pow2_nat by lia.
        apply Qle_shift_div_l; [apply pow2_pos|].
        rewrite <- pow2_plus. replace (52 + qy)%Z with (ilog2 y) by lia. exact Y1. }
      apply nearestEven_ge_Z in B.
      apply Qle_trans with (inject_Z (2 ^ 52) * pow2 qy).
      * rewrite <- pow2_nat by lia. rewrite <- pow2_plus.
        replace (52 + qy)%Z with (ilog2 y) by lia. apply Qle_refl.
      * apply Qmult_le_r; [apply pow2_pos|]. rewrite <- Zle_Qle. exact B.
Qed.

Lemma roundPositive_nonneg (x : Q) : 0 < x -> 0 <= roundPositive x.
Proof.
  intros Hx. rewrite roundPositive_eq.
  apply Qmult_le_0_compat; [|apply Qlt_le_weak, pow2_pos].
  change 0 with (inject_Z 0). rewrite <- Zle_Qle.
  apply nearestEven_ge_Z. apply Qlt_le_weak.
  apply Qlt_shift_div_l; [apply pow2_pos|]. rewrite Qmult_0_l. exact Hx.
Qed.

Lemma round64_pos (x : Q) : 0 < x -> round64 x = roundPositive x.
Proof.
  intros Hx. unfold round64. destruct x as [[|p|p] d]; cbn; try reflexivity;
    unfold Qlt in Hx; cbn in Hx; lia.
Qed.

Lemma round64_zero (x : Q) : x == 0 -> round64 x = 0.
Proof.
  intros Hx. unfold round64. destruct x as [[|p|p] d]; cbn; try reflexivity;
    unfold Qeq in Hx; cbn in Hx; lia.
Qed.

Lemma round64_mono (x y : Q) : 0 <= x -> x <= y -> round64 x <= round64 y.
Proof.
  intros Hx Hxy.
  apply Qle_lteq in Hx as [Hx|Hx].
  - rewrite !round64_pos by (try exact Hx; exact (Qlt_le_trans _ _ _ Hx Hxy)).
    apply roundPositive_mono; assumption.
  - rewrite (round64_zero x) by (symmetry; exact Hx).
    assert (Hy : 0 <= y) by (rewrite Hx; exact Hxy).
    apply Qle_lteq in Hy as [Hy|Hy].
    + rewrite round64_pos by exact Hy. apply roundPositive_nonneg. exact Hy.
    + rewrite (round64_zero y) by (symmetry; exact Hy). apply Qle_refl.
Qed.

Lemma round64_eq (x y : Q) : 0 <= x -> x == y -> round64 x == round64 y.
Proof.
  intros Hx E. apply Qle_antisym; apply round64_mono.
  - exact Hx.
  - rewrite E. apply Qle_refl.
  - rewrite <- E. exact Hx.
  - rewrite E. apply Qle_refl.
Qed.

(** The integers up to [2^53] are doubles. *)
Lemma round64_Z (n : Z) : (0 <= n <= 2 ^ 53)%Z -> round64 (inject_Z n) == inject_Z n.
Proof.
  intros [H0 H1].
  destruct (Z.eq_dec n 0) as [->|Hn]; [reflexivity|].
  assert (Hx : 0 < inject_Z n) by (change 0 with (inject_Z 0); rewrite <- Zlt_Qlt; lia).
  rewrite round64_pos by exact Hx. rewrite roundPositive_eq.
  destruct (ilog2_spec _ Hx) as [L U].
  set (e := ilog2 (inject_Z n)) in *.
  assert (He0 : (0 <= e)%Z).
  { destruct (Z_le_gt_dec 0 e) as [K|K]; [exact K|exfalso].
    assert (P : pow2 (e + 1) <= pow2 0) by (apply pow2_le; lia).
    assert (Q1 : inject_Z n < inject_Z 1) by exact (Qlt_le_trans _ _ _ U P).
    rewrite <- Zlt_Qlt in Q1. lia. }
  assert (He1 : (e <= 53)%Z).
  { destruct (Z_le_gt_dec e 53) as [K|K]; [exact K|exfalso].
    assert (P : pow2 54 <= pow2 e) by (apply pow2_le; lia).
    assert (Q1 : inject_Z (2 ^ 54) <= inject_Z n).
    { rewrite <- pow2_nat by lia. exact (Qle_trans _ _ _ P L). }
    rewrite <- Zle_Qle in Q1. lia. }
  assert (Eq : ulpExponent (inject_Z n) = (e - 52)%Z) by (unfold ulpExponent; fold e; lia).
  rewrite Eq.
  assert (I : exists m : Z, inject_Z n / pow2 (e - 52) == inject_Z m).
  { destruct (Z.eq_dec e 53) as [E53|E53].
    - exists (2 ^ 52)%Z. rewrite E53 in *.
      assert (N : n = (2 ^ 53)%Z).
      { rewrite pow2_nat in L by lia. rewrite <- Zle_Qle in L. lia. }
      rewrite N. vm_compute. reflexivity.
    - exists (n * 2 ^ (52 - e))%Z.
      rewrite inject_Z_mult. rewrite <- pow2_nat by lia.
      assert (P : pow2 (52 - e) * pow2 (e - 52) == 1).
      { rewrite <- pow2_plus. replace (52 - e + (e - 52))%Z with 0%Z by lia. reflexivity. }
      assert (NZ : ~ pow2 (e - 52) == 0).
      { intros K. pose proof (pow2_pos (e - 52)) as Q1. rewrite K in Q1. discriminate. }
      apply (Qmult_inj_r _ _ (pow2 (e - 52)) NZ).
      rewrite <- Qmult_assoc, P. field. exact NZ. }
  destruct I as [m Hm].
  rewrite (nearestEven_eq _ _ Hm), nearestEven_Z, <- Hm.
  field. intros K. pose proof (pow2_pos (e - 52)) as P. rewrite K in P. discriminate.
Qed.

(** The floor of a rounded quotient is the exact floor or one more. *)
Lemma floor_round64 (q : Q) :
  (0 <= q)%Q -> (Qfloor q + 1 <= 2 ^ 53)%Z ->
  (Qfloor q <= Qfloor (round64 q) <= Qfloor q + 1)%Z.
Proof.
  intros H0 Hb.
  assert (F0 : (0 <= Qfloor q)%Z).
  { rewrite <- (Qfloor_Z 0). apply Qfloor_resp_le. exact H0. }
  split.
  - rewrite <- (Qfloor_Z (Qfloor q)) at 1. apply Qfloor_resp_le.
    rewrite <- (round64_Z (Qfloor q)) by lia.
    apply round64_mono; [|apply Qfloor_le].
    change 0%Q with (inject_Z 0). rewrite <- Zle_Qle. exact F0.
  - rewrite <- (Qfloor_Z (Qfloor q + 1)). apply Qfloor_resp_le.
    rewrite <- (round64_Z (Qfloor q + 1)) by lia.
    apply round64_mono; [exact H0|]. apply Qlt_le_weak. apply Qlt_floor.
Qed.

(** The ceiling of a rounded quotient is the exact ceiling or one less. *)
Lemma ceiling_round64 (q : Q) :
  (0 <= q)%Q -> (Qceiling q <= 2 ^ 53)%Z ->
  (Qceiling q - 1 <= Qceiling (round64 q) <= Qceiling q)%Z.
Proof.
  intros H0 Hb.
  assert (C0 : (0 <= Qceiling q)%Z).
  { rewrite <- (Qceiling_Z 0). apply Qceiling_resp_le. exact H0. }
  split.
  - destruct (Z.eq_dec (Qceiling q) 0) as [E|E].
    + rewrite E.
      assert (R0 : (0 <= round64 q)%Q).
      { change 0%Q with (round64 0) at 1. apply round64_mono; [apply Qle_refl | exact H0]. }
      apply (Qceiling_resp_le 0) in R0. change (Qceiling 0) with 0%Z in R0. lia.
    + rewrite <- (Qceiling_Z (Qceiling q - 1)) at 1. apply Qceiling_resp_le.
      rewrite <- (round64_Z (Qceiling q - 1)) by lia.
      apply round64_mono.
      * change 0%Q with (inject_Z 0). rewrite <- Zle_Qle. lia.
      * apply Qlt_le_weak. apply Qceiling_lt.
  - rewrite <- (Qceiling_Z (Qceiling q)). apply Qceiling_resp_le.
    rewrite <- (round64_Z (Qceiling q)) by lia.
    apply round64_mono; [exact H0 | apply Qle_ceiling].
Qed.

Lemma round64_nonneg (q : Q) : (0 <= q)%Q -> (0 <= round64 q)%Q.
Proof.
  intros H0. change 0%Q with (round64 0) at 1.
  apply round64_mono; [apply Qle_refl | exact H0].
Qed.

(** The doubles of some literals: 0.1 is 3602879701896397 / 2^55; a number
    half way between two doubles goes to the one with the even significand
    ([2^53 + 1] to [2^53], [2^53 + 3] to [2^53 + 4]); half the smallest
    subnormal number goes to 0 and anything above it to that number. *)
Example round64_known_doubles :
  round64 (1 # 10) == 3602879701896397 # 36028797018963968
  /\ round64 (355 # 100) == 3996944669291315 # 1125899906842624
  /\ round64 (inject_Z (2 ^ 53 + 1)) == inject_Z (2 ^ 53)
  /\ round64 (inject_Z (2 ^ 53 + 3)) == inject_Z (2 ^ 53 + 4)
  /\ round64 (- (1 # 3)) == - (6004799503160661 # 18014398509481984)
  /\ round64 (pow2 (-1075)) == 0
  /\ round64 (3 * pow2 (-1076)) == pow2 (-1074).
Proof.
  split; [vm_compute; reflexivity|].
  split; [vm_compute; reflexivity|].
  split; [vm_compute; reflexivity|].
  split; [vm_compute; reflexivity|].
  split; [vm_compute; reflexivity|].
  split; vm_compute; reflexivity.
Qed.

End Binary64.

(* ----------------------------------------------------------------- *)
(** ** Viewport windowing *)

Section Windowing.
Import VirtualScroll.

Lemma floor_bounds (H S : Q) :
  (0 < H)%Q ->
  (inject_Z (Qfloor (S / H)) * H <= S /\ S < inject_Z (Qfloor (S / H) + 1) * H)%Q.
Proof.
  intros HH. split.
  - pose proof (Qfloor_le (S / H)) as Hf.
    apply Qle_trans with ((S / H) * H)%Q.
    + apply Qmult_le_compat_r; [exact Hf | apply Qlt_le_weak; exact HH].
    + assert (E : (S / H * H == S)%Q) by (field; intro E0; rewrite E0 in HH; discriminate).
      rewrite E. apply Qle_refl.
  - pose proof (Qlt_floor (S / H)) as Hf.
    assert (E : (S == S / H * H)%Q) by (field; intro E0; rewrite E0 in HH; discriminate).
    rewrite E at 1.
    apply Qmult_lt_compat_r; assumption.
Qed.

Lemma ceiling_bound (H V : Q) :
  (0 < H)%Q -> (V <= inject_Z (Qceiling (V / H)) * H)%Q.
Proof.
  intros HH.
  pose proof (Qle_ceiling (V / H)) as Hc.
  assert (E : (V == V / H * H)%Q) by (field; intro E0; rewrite E0 in HH; discriminate).
  rewrite E at 1.
  apply Qmult_le_compat_r; [exact Hc | apply Qlt_le_weak; exact HH].
Qed.

Lemma scaled_lt_inv (H : Q) (a b : Z) :
  (0 < H)%Q -> (inject_Z a * H < inject_Z b * H)%Q -> (a < b)%Z.
Proof.
  intros HH Hlt.
  destruct (Z_lt_le_dec a b) as [|Hge]; [assumption|].
  exfalso. apply (Qlt_irrefl (inject_Z a * H)).
  eapply Qlt_le_trans; [exact Hlt|].
  apply Qmult_le_compat_r; [| apply Qlt_le_weak; exact HH].
  rewrite <- Zle_Qle. exact Hge.
Qed.

Lemma quotient_nonneg (H S : Q) : (0 < H)%Q -> (0 <= S)%Q -> (0 <= S / H)%Q.
Proof.
  intros HH HS. apply Qle_shift_div_l; [exact HH|]. rewrite Qmult_0_l. exact HS.
Qed.

Lemma quotient_le (H S : Q) (n : Z) :
  (0 < H)%Q -> (S <= inject_Z n * H)%Q -> (S / H <= inject_Z n)%Q.
Proof. intros HH HS. apply Qle_shift_div_r; assumption. Qed.

(** The floor and the ceiling the code takes, against the exact ones. *)
Lemma rounded_floor (H S : Q) (n : Z) :
  (0 < H)%Q -> (0 <= S)%Q -> (S <= inject_Z n * H)%Q -> (n < 2 ^ 53)%Z ->
  (Qfloor (S / H) <= Math_floor (Double.div S H) <= Qfloor (S / H) + 1)%Z.
Proof.
  intros HH HS Hn Hb. unfold Math_floor, Double.div.
  apply floor_round64; [apply quotient_nonneg; assumption|].
  pose proof (Qfloor_resp_le _ _ (quotient_le H S n HH Hn)) as F.
  rewrite Qfloor_Z in F. lia.
Qed.

Lemma rounded_ceiling (H V : Q) (n : Z) :
  (0 < H)%Q -> (0 <= V)%Q -> (V <= inject_Z n * H)%Q -> (n < 2 ^ 53)%Z ->
  (Qceiling (V / H) - 1 <= Math_ceil (Double.div V H) <= Qceiling (V / H))%Z.
Proof.
  intros HH HV Hn Hb. unfold Math_ceil, Double.div.
  apply ceiling_round64; [apply quotient_nonneg; assumption|].
  pose proof (Qceiling_resp_le _ _ (quotient_le H V n HH Hn)) as F.
  rewrite Qceiling_Z in F. lia.
Qed.

(** C2, as stated: with any overscan count [>= 0] the window holds every
    row that meets the viewport.  It fails for overscan [0] as soon as the
    scroll offset is not a multiple of the row height: 100 rows of height 10,
    a viewport of height 20 scrolled to 5 shows rows 0, 1 and 2, and the
    window is [[0, 2)]. *)
Lemma window_misses_row_without_overscan :
  ~ (forall (len : nat) (o : VirtualScrollOptions) (S : Q) (i : Z),
      (0 < o.(itemHeight))%Q ->
      (0 <= S)%Q ->
      (S <= inject_Z (Z.of_nat len) * o.(itemHeight) - o.(containerHeight))%Q ->
      (0 <= overscan_of o)%Z ->
      (0 <= i < Z.of_nat len)%Z ->
      rowIntersects o.(itemHeight) S o.(containerHeight) i ->
      inWindow len o S i).
Proof.
  intros H.
  assert (W : inWindow 100 Examples.unaligned 5 2).
  { apply H.
    - reflexivity.
    - discriminate.
    - discriminate.
    - discriminate.
    - split; [discriminate | reflexivity].
    - split; discriminate. }
  destruct W as [_ W]. vm_compute in W. discriminate.
Qed.

(** One row of overscan is not enough either, because the quotients are
    rounded: with rows of height 3.55 in a container of height 177.5,
    [177.5 / 3.55] is the double 50 although the quotient of the two doubles
    is above 50, so [visibleCount] is 50 and not 51.  Scrolled to
    7.099999999999999 the window is [[0, 52)], and row 52 starts inside the
    viewport. *)
Lemma window_misses_row_with_one_overscan_row :
  Math_ceil (Double.div (containerHeight Examples.tight) (itemHeight Examples.tight)) = 50%Z
  /\ Qceiling (containerHeight Examples.tight / itemHeight Examples.tight) = 51%Z
  /\ VirtualScroll64.startIndex 100 Examples.tight Examples.tightScroll = 0%Z
  /\ VirtualScroll64.endIndex 100 Examples.tight Examples.tightScroll = 52%Z
  /\ rowIntersects (itemHeight Examples.tight) Examples.tightScroll
       (containerHeight Examples.tight) 52
  /\ ~ inWindow 100 Examples.tight Examples.tightScroll 52.
Proof.
  split; [vm_compute; reflexivity|].
  split; [vm_compute; reflexivity|].
  split; [vm_compute; reflexivity|].
  split; [vm_compute; reflexivity|].
  split.
  - split; vm_compute; discriminate.
  - intros [_ W]. vm_compute in W. discriminate.
Qed.

(** C2, amended: in the engine's double arithmetic, for every row count
    [R < 2^53], row height [H > 0], container height [V >= 0], scroll offset
    in [[0, R*H - V]] and overscan count [>= 2], the window
    [[startIndex, endIndex)] holds every row whose span meets [[S, S+V]];
    [startIndex >= 0], [endIndex <= R]; and below the threshold, or with
    virtualization disabled, the window is all rows. *)
Theorem window_covers_viewport (len : nat) (o : VirtualScrollOptions) (S : Q) (i : Z) :
    (0 < o.(itemHeight))%Q ->
    (0 <= o.(containerHeight))%Q ->
    (0 <= S)%Q ->
    (S <= inject_Z (Z.of_nat len) * o.(itemHeight) - o.(containerHeight))%Q ->
    (Z.of_nat len < 2 ^ 53)%Z ->
    (2 <= overscan_of o)%Z ->
    (0 <= i < Z.of_nat len)%Z ->
    rowIntersects o.(itemHeight) S o.(containerHeight) i ->
    inWindow len o S i
    /\ (0 <= VirtualScroll64.startIndex len o S)%Z
    /\ (VirtualScroll64.endIndex len o S <= Z.of_nat len)%Z
    /\ (showAll len o = true ->
        VirtualScroll64.startIndex len o S = 0%Z
        /\ VirtualScroll64.endIndex len o S = Z.of_nat len).
Proof.
  intros HH HV HS Hmax Hlen Hov Hi [Hlo Hhi].
  unfold inWindow, VirtualScroll64.endIndex, VirtualScroll64.startIndex.
  destruct (showAll len o) eqn:Hall.
  - repeat split; lia.
  - assert (HSn : (S <= inject_Z (Z.of_nat len) * itemHeight o)%Q) by lra.
    assert (HVn : (containerHeight o <= inject_Z (Z.of_nat len) * itemHeight o)%Q) by lra.
    pose proof (rounded_floor _ _ _ HH HS HSn Hlen) as Hf'.
    pose proof (rounded_ceiling _ _ _ HH HV HVn Hlen) as Hc'.
    destruct (floor_bounds (itemHeight o) S HH) as [Hf1 Hf2].
    pose proof (ceiling_bound (itemHeight o) (containerHeight o) HH) as Hc.
    set (f := Qfloor (S / itemHeight o)) in *.
    set (cv := Qceiling (containerHeight o / itemHeight o)) in *.
    set (f' := Math_floor (Double.div S (itemHeight o))) in *.
    set (cv' := Math_ceil (Double.div (containerHeight o) (itemHeight o))) in *.
    assert (A : (f < i + 2)%Z).
    { apply (scaled_lt_inv (itemHeight o)); [assumption|].
      eapply Qle_lt_trans; [exact Hf1|].
      eapply Qle_lt_trans; [exact Hhi|].
      apply Qmult_lt_compat_r; [assumption|].
      assert (E : (inject_Z i + 1 == inject_Z (i + 1))%Q)
        by (rewrite inject_Z_plus; reflexivity).
      rewrite E, <- Zlt_Qlt. lia. }
    assert (B : (i < f + 1 + cv)%Z).
    { apply (scaled_lt_inv (itemHeight o)); [assumption|].
      eapply Qle_lt_trans; [exact Hlo|].
      assert (E : (inject_Z (f + 1 + cv) == inject_Z (f + 1) + inject_Z cv)%Q)
        by (rewrite inject_Z_plus; reflexivity).
      rewrite E, Qmult_plus_distr_l.
      apply Qplus_lt_le_compat; assumption. }
    repeat split; try lia.
Qed.

Lemma window_covers_viewport_witness :
  inWindow 100 Examples.snug Examples.tightScroll 52.
Proof.
  assert (HH : (0 < itemHeight Examples.snug)%Q) by (vm_compute; reflexivity).
  assert (HV : (0 <= containerHeight Examples.snug)%Q) by (vm_compute; discriminate).
  assert (HS : (0 <= Examples.tightScroll)%Q) by (vm_compute; discriminate).
  assert (Hmax : (Examples.tightScroll
                  <= inject_Z (Z.of_nat 100) * itemHeight Examples.snug
                     - containerHeight Examples.snug)%Q) by (vm_compute; discriminate).
  assert (Hlen : (Z.of_nat 100 < 2 ^ 53)%Z) by (vm_compute; reflexivity).
  assert (Hov : (2 <= overscan_of Examples.snug)%Z) by (vm_compute; discriminate).
  assert (Hi : (0 <= 52 < Z.of_nat 100)%Z) by (split; vm_compute; [discriminate | reflexivity]).
  assert (Hrow : rowIntersects (itemHeight Examples.snug) Examples.tightScroll
                   (containerHeight Examples.snug) 52) by (split; vm_compute; discriminate).
  exact (proj1 (window_covers_viewport 100 Examples.snug Examples.tightScroll 52
                  HH HV HS Hmax Hlen Hov Hi Hrow)).
Defined.

End Windowing.

(* ----------------------------------------------------------------- *)
(** ** Validation *)

Section Validation.

Variable s : State.
Variable column : GradeColumn.
Variable rowId : N.
Hypothesis Hcol : find (col_is column.(cid)) s.(columns) = Some column.

(** An absent value passes unless the column is required. *)
Lemma validateCell_absent :
  validateCell s rowId column.(cid) None =
  if column.(isRequired) then Some "此列为必填项"%string else None.
Proof. unfold validateCell. rewrite Hcol. reflexivity. Qed.

(** A value below 0 or above [maxScore] gets the range message, which
    names the bound. *)
Lemma validateCell_out_of_range (v : Q) :
  (v < 0 \/ column.(maxScore) < v)%Q ->
  validateCell s rowId column.(cid) (Some v) =
  Some (append "分数必须在 0 到 "
          (append (Number_toString column.(maxScore)) " 之间"))%string.
Proof.
  intros Hv. unfold validateCell. rewrite Hcol.
  assert (E : lt v 0 || gt v column.(maxScore) = true).
  { unfold gt, lt. apply orb_true_iff.
    destruct Hv as [Hv|Hv]; [left|right]; apply negb_true_iff;
      destruct (Qle_bool _ _) eqn:Hb; auto;
      apply Qle_bool_iff in Hb; exfalso; eapply Qlt_not_le; eauto. }
  rewrite E. reflexivity.
Qed.

(** Past the range check the verdict is that of the decimal-places test:
    [value.toFixed(2) !== value.toString()]. *)
Lemma validateCell_in_range (v : Q) :
  (0 <= v <= column.(maxScore))%Q ->
  validateCell s rowId column.(cid) (Some v) =
  if String.eqb (Number_toFixed 2 v) (Number_toString v) then None
  else Some "最多支持 2 位小数"%string.
Proof.
  intros [Hlo Hhi]. unfold validateCell. rewrite Hcol.
  assert (E : lt v 0 || gt v column.(maxScore) = false).
  { unfold gt, lt. apply orb_false_iff. split; apply negb_false_iff;
      apply Qle_bool_iff; assumption. }
  rewrite E. simpl.
  destruct (String.eqb _ _); reflexivity.
Qed.

End Validation.

(** C3, the defect: on a column with [maxScore = 100] the scores 0 and 100
    (and the 85 of the store's own test) are not accepted; each is rejected
    by the decimal-places test, because [toFixed(2)] of a whole number
    (["100.00"]) never equals its [toString()] (["100"]). *)
Theorem validateCell_rejects_whole_scores :
  validateCell Examples.quizSheet 1 "quiz" (Some 0%Q) = Some "最多支持 2 位小数"%string
  /\ validateCell Examples.quizSheet 1 "quiz" (Some 100%Q) = Some "最多支持 2 位小数"%string
  /\ validateCell Examples.loaded 1 "assignment1" (Some 85%Q) = Some "最多支持 2 位小数"%string
  /\ Number_toFixed 2 100 = "100.00"%string
  /\ Number_toString 100 = "100"%string.
Proof. repeat split; vm_compute; reflexivity. Qed.

(* ----------------------------------------------------------------- *)
(** ** Undo after one edit *)

(** C1, the defect: after the first edit of a session ([historyIndex = 0])
    [canUndo] is false and [undo] does nothing, so one edit followed by one
    undo leaves the edited value (90) in the cell instead of the value it had
    before (85). *)
Theorem undo_after_first_edit_does_nothing :
  let s1 := updateCell 1 "assignment1" (Some 90%Q) Examples.loaded in
  cellValue Examples.loaded 1 "assignment1" = Some (Some (Some 85%Q))
  /\ canUndo s1 = false
  /\ undo s1 = s1
  /\ cellValue (undo s1) 1 "assignment1" = Some (Some (Some 90%Q)).
Proof. repeat split; vm_compute; reflexivity. Qed.

(** With two edits behind it, [undo] moves the cursor first and then replays
    the values of the entry it lands on: the first edit is reverted and the
    second, the one being undone, stays. *)
Example undo_replays_the_older_entry :
  let s2 := updateCell 1 "quiz" (Some (7025 # 100))
              (updateCell 1 "assignment1" (Some (9025 # 100)) Examples.loaded) in
  cellValue (undo s2) 1 "assignment1" = Some (Some (Some 85%Q))
  /\ cellValue (undo s2) 1 "quiz" = Some (Some (Some (7025 # 100))).
Proof. repeat split; vm_compute; reflexivity. Qed.

(* ----------------------------------------------------------------- *)
(** ** A rejected save *)

(** The continuation of [saveGrades] after a rejection touches [error] and
    [saving] only, whatever happened to the session while the request was in
    flight. *)
Lemma saveGrades_settle_rejected g e s :
  let r := saveGrades_settle g (Reject e) s in
  rows (fst r) = rows s
  /\ validationErrors (fst r) = validationErrors s
  /\ error (fst r) = Some (or_default e.(response_message) "保存成绩失败")
  /\ saving (fst r) = false
  /\ snd r = Rejected e.
Proof. repeat split. Qed.

(** C9: when the update request is made and rejects, then once [saveGrades]
    has settled every row (grades and [isModified] included) and the
    validation error set are what they were before the call, [state.error]
    is set, and the caller gets the rejection itself. *)
Theorem saveGrades_failure_keeps_state g e s course :
  s.(courseInfo) = Some course ->
  let r := saveGrades g (Reject e) s in
  saveGrades_dispatch g s <> None
  /\ rows (fst r) = rows s
  /\ map isModified (rows (fst r)) = map isModified (rows s)
  /\ validationErrors (fst r) = validationErrors s
  /\ error (fst r) = Some (or_default e.(response_message) "保存成绩失败")
  /\ error (fst r) <> None
  /\ saving (fst r) = false
  /\ snd r = Rejected e.
Proof.
  intros Hc. unfold saveGrades, saveGrades_dispatch. rewrite Hc. simpl.
  repeat split; discriminate.
Qed.

Lemma saveGrades_failure_keeps_state_witness :
  rows (fst (saveGrades (autoSaveUpdates Examples.oneDirty)
               (Reject (mkApiError None)) Examples.oneDirty))
  = rows Examples.oneDirty.
Proof.
  apply (saveGrades_failure_keeps_state (autoSaveUpdates Examples.oneDirty)
           (mkApiError None) Examples.oneDirty 1%N).
  reflexivity.
Defined.

(* ----------------------------------------------------------------- *)
(** ** Extending a selection from the anchor *)

Lemma extendAll_snoc ts t m :
  extendAll (ts ++ [t]) m = SelectionManager.selectCell (fst t) (snd t) true (extendAll ts m).
Proof. unfold extendAll. rewrite fold_left_app. reflexivity. Qed.

Lemma extendAll_anchor ts m : SelectionManager.anchorCell (extendAll ts m) = SelectionManager.anchorCell m.
Proof.
  revert m. induction ts as [|t ts IH]; intros m; simpl; [reflexivity|].
  unfold extendAll in *. simpl. rewrite IH.
  unfold SelectionManager.selectCell. simpl.
  destruct (SelectionManager.anchorCell m) as [[ar ac]|] eqn:E; simpl; auto.
Qed.

(** In [SelectionManager], after a non-extending [selectCell(a)] and any
    sequence of extending calls ending with target [t], the selection is the
    single range whose rows run from [min(a.row, t.row)] to
    [max(a.row, t.row)] and whose columns run from the anchor's column to the
    target's column, in that order; the anchor is still [a]. *)
Lemma extension_spans_anchor_to_target (a t : Z * string) (ts : list (Z * string)) (m0 : SelectionManager.t) :
  let m1 := SelectionManager.selectCell (fst a) (snd a) false m0 in
  let m := extendAll (ts ++ [t]) m1 in
  SelectionManager.anchorCell m1 = Some a
  /\ SelectionManager.selections m =
       [mkSelection (Z.min (fst a) (fst t)) (Z.max (fst a) (fst t)) (snd a) (snd t) KRange]
  /\ SelectionManager.anchorCell m = Some a.
Proof.
  intros m1 m. subst m.
  assert (A1 : SelectionManager.anchorCell m1 = Some a) by (destruct a; reflexivity).
  split; [exact A1|].
  rewrite extendAll_snoc.
  pose proof (extendAll_anchor ts m1) as A. rewrite A1 in A.
  unfold SelectionManager.selectCell. simpl. rewrite A. destruct a. simpl. split; reflexivity.
Qed.

(** The store's own [selectCell] keeps no anchor: it extends from the bounds
    of the previous selection, so after selecting row 0 and extending to
    row 2 an extension back to row 1 still spans rows 0 to 2, where
    [SelectionManager] gives rows 0 to 1. *)
Example store_extension_does_not_shrink :
  let s := Store.selectCell 2 "assignment1" true
             (Store.selectCell 3 "assignment1" true
                (Store.selectCell 1 "assignment1" false Examples.threeRows)) in
  let m := extendAll [(2%Z, "assignment1"%string); (1%Z, "assignment1"%string)]
             (SelectionManager.selectCell 0 "assignment1" false SelectionManager.empty) in
  map (fun x => (startRow x, endRow x)) (selectedCells s) = [(0%Z, 2%Z)]
  /\ map (fun x => (startRow x, endRow x)) (SelectionManager.selections m) = [(0%Z, 1%Z)].
Proof. split; reflexivity. Qed.

(** C10: an extension does not yield the rectangle between anchor and
    target when the target's column comes before the anchor's.  Both
    [selectCell]s put the rows in order with [Math.min] and [Math.max] and
    store the columns as they come, the anchor's as [startColumn] and the
    target's as [endColumn].  In [SelectionManager], from the anchor
    (2, "b") the extension to (5, "a") gives the range from column "b" to
    column "a", where the rectangle runs from "a" to "b"; [isCellSelected]
    finds neither the target nor the anchor in it, although the branch is
    there to "extend selection to include the new cell".  In the store, from
    the cell of student 1 in column "quiz" the extension to student 3 in
    column "assignment1", the column before it, gives a selection from
    "quiz" to "assignment1" over which the store's loops run no cell at all;
    and the store keeps no anchor, so the next extension, to student 2,
    leaves rows 0 to 2 selected instead of rows 0 to 1. *)
Theorem extension_leaves_columns_unordered :
  SelectionManager.anchorCell Examples.leftward = Some (2%Z, "b"%string)
  /\ SelectionManager.selections Examples.leftward = [mkSelection 2 5 "b" "a" KRange]
  /\ normalizedRect (2%Z, "b"%string) (5%Z, "a"%string) = mkSelection 2 5 "a" "b" KRange
  /\ SelectionManager.selections Examples.leftward
     <> [normalizedRect (2%Z, "b"%string) (5%Z, "a"%string)]
  /\ SelectionManager.isCellSelected 5 "a" Examples.leftward = false
  /\ SelectionManager.isCellSelected 2 "b" Examples.leftward = false
  /\ selectedCells Examples.storeLeftward = [mkSelection 0 2 "quiz" "assignment1" KRange]
  /\ selectionLoop Examples.storeLeftward = []
  /\ selectedData Examples.storeLeftward = []
  /\ selectedCells Examples.storeBack = [mkSelection 0 2 "quiz" "assignment1" KRange].
Proof.
  split; [reflexivity|].
  split; [reflexivity|].
  split; [reflexivity|].
  split; [intros E; vm_compute in E; discriminate|].
  split; [reflexivity|].
  split; [reflexivity|].
  split; [vm_compute; reflexivity|].
  split; [vm_compute; reflexivity|].
  split; vm_compute; reflexivity.
Qed.

(* ----------------------------------------------------------------- *)
(** ** The history log *)

Section HistoryLog.

(** The log and cursor [addToHistory] leaves. *)
Lemma addToHistory_log op p n s :
  let h := Arr.slice0 (s.(historyIndex) + 1) s.(history) ++ [mkEntry op p n] in
  history (addToHistory op p n s) = (if (100 <? List.length h)%nat then tl h else h)
  /\ historyIndex (addToHistory op p n s) =
       (if (100 <? List.length h)%nat then s.(historyIndex) + 1 - 1 else s.(historyIndex) + 1)%Z
  /\ rows (addToHistory op p n s) = rows s
  /\ validationErrors (addToHistory op p n s) = validationErrors s
  /\ columns (addToHistory op p n s) = columns s.
Proof.
  unfold addToHistory. cbv zeta.
  destruct (100 <? _)%nat; repeat split.
Qed.

Lemma slice0_length {A} (e : Z) (l : list A) :
  (0 <= e <= Z.of_nat (List.length l))%Z ->
  List.length (Arr.slice0 e l) = Z.to_nat e.
Proof.
  intros He. unfold Arr.slice0.
  destruct (e <? 0)%Z eqn:E; [apply Z.ltb_lt in E; lia|].
  rewrite length_firstn. lia.
Qed.

Lemma slice0_all {A} (l : list A) :
  Arr.slice0 (Z.of_nat (List.length l) - 1 + 1) l = l.
Proof.
  unfold Arr.slice0.
  destruct (Z.of_nat (List.length l) - 1 + 1 <? 0)%Z eqn:E;
    [apply Z.ltb_lt in E; lia|].
  replace (Z.to_nat (Z.of_nat (List.length l) - 1 + 1)) with (List.length l) by lia.
  apply firstn_all.
Qed.

Lemma history_ok_cursor s :
  history_ok s -> (-1 <= s.(historyIndex) < Z.of_nat (List.length s.(history)))%Z.
Proof.
  intros (Hb & He & Hn).
  destruct (history s) as [|e h] eqn:E.
  - rewrite He by reflexivity. simpl. lia.
  - assert (e :: h <> []) as Hne by discriminate. specialize (Hn Hne). lia.
Qed.

Lemma addToHistory_ok op p n s : history_ok s -> history_ok (addToHistory op p n s).
Proof.
  intros Hok. pose proof (history_ok_cursor s Hok) as Hc.
  destruct Hok as (Hb & _ & _).
  destruct (addToHistory_log op p n s) as (Hh & Hi & _).
  cbv zeta in Hh, Hi.
  assert (L : List.length (Arr.slice0 (historyIndex s + 1) (history s) ++ [mkEntry op p n])
              = Z.to_nat (historyIndex s + 1 + 1)).
  { rewrite length_app, slice0_length by lia. simpl. lia. }
  unfold history_ok. rewrite Hh, Hi.
  destruct (100 <? _)%nat eqn:E.
  - apply Nat.ltb_lt in E.
    destruct (Arr.slice0 _ _ ++ _) as [|x t] eqn:Et; simpl in *; [lia|].
    repeat split; try lia.
    + intros ->. simpl in *. lia.
  - apply Nat.ltb_ge in E.
    repeat split; try lia.
    + intros Hnil. apply app_eq_nil in Hnil as [_ Hnil]. discriminate.
Qed.

(** Pushing past the cap: the log is full and the cursor is on its newest
    entry. *)
Lemma addToHistory_evicts op p n s :
  List.length s.(history) = 100%nat ->
  s.(historyIndex) = 99%Z ->
  history (addToHistory op p n s) = tl s.(history) ++ [mkEntry op p n]
  /\ historyIndex (addToHistory op p n s) = (s.(historyIndex) + 1 - 1)%Z
  /\ List.length (history (addToHistory op p n s)) = 100%nat.
Proof.
  intros Hl Hi.
  destruct (addToHistory_log op p n s) as (Hh & Hx & _). cbv zeta in Hh, Hx.
  replace (historyIndex s + 1)%Z with (Z.of_nat (List.length (history s)) - 1 + 1)%Z in Hh, Hx
    by (rewrite Hl, Hi; reflexivity).
  rewrite slice0_all in Hh, Hx.
  assert (E : (100 <? List.length (history s ++ [mkEntry op p n]))%nat = true).
  { rewrite length_app, Hl. reflexivity. }
  rewrite E in Hh, Hx.
  rewrite Hh, Hx.
  split; [|split].
  - destruct (history s); [discriminate | reflexivity].
  - lia.
  - destruct (history s) as [|e h]; [discriminate|].
    simpl in *. rewrite length_app. simpl. lia.
Qed.

Lemma history_ok_ext s s' :
  history s' = history s -> historyIndex s' = historyIndex s ->
  history_ok s -> history_ok s'.
Proof. unfold history_ok. intros -> ->. auto. Qed.

(** What [updateCell] does to the log: nothing when no row has the id,
    otherwise one [addToHistory]. *)
Lemma updateCell_log r c v s :
  (find (row_is r) s.(rows) = None /\ updateCell r c v s = s)
  \/ (exists row op p n,
        find (row_is r) s.(rows) = Some row
        /\ history (updateCell r c v s) = history (addToHistory op p n s)
        /\ historyIndex (updateCell r c v s) = historyIndex (addToHistory op p n s)).
Proof.
  unfold updateCell.
  destruct (find (row_is r) (rows s)) as [row|] eqn:F; [right | left; auto].
  match goal with
  | |- context [addToHistory ?op ?p ?n ?s1] =>
      exists row, op, p, n; split; [reflexivity|];
      destruct (addToHistory_log op p n s1) as (H1 & H2 & _);
      destruct (addToHistory_log op p n s) as (H3 & H4 & _);
      cbv zeta in H1, H2, H3, H4
  end.
  destruct (as_enabled _); simpl; rewrite ?H1, ?H2, ?H3, ?H4; split; reflexivity.
Qed.

Lemma updateCell_history_ok r c v s : history_ok s -> history_ok (updateCell r c v s).
Proof.
  intros Hok.
  destruct (updateCell_log r c v s) as [[_ ->] | (row & op & p & n & _ & Hh & Hi)]; [assumption|].
  eapply history_ok_ext; [exact Hh | exact Hi | apply addToHistory_ok; assumption].
Qed.

(** Whatever [updateCell] preserves, [batchUpdate] preserves. *)
Lemma batchUpdate_preserves (P : State -> Prop) :
  (forall r c v s, P s -> P (updateCell r c v s)) ->
  forall u s, P s -> P (batchUpdate u s).
Proof.
  intros Hu u. unfold batchUpdate, Obj.entries.
  induction u as [|[k v] u IH]; intros s Hs; simpl; [assumption|].
  apply IH. destruct (key_rowId k); auto.
Qed.

Lemma undo_history_ok s : history_ok s -> history_ok (undo s).
Proof.
  intros Hok. unfold undo, canUndo.
  destruct (0 <? historyIndex s)%Z eqn:E; simpl; [|assumption].
  apply Z.ltb_lt in E.
  pose proof (history_ok_cursor s Hok) as Hc. destruct Hok as (Hb & He & Hn).
  assert (Hok' : history_ok (set_historyIndex (historyIndex s - 1) s)).
  { unfold history_ok. simpl. repeat split; try lia.
    intros Hnil. specialize (He Hnil). lia. }
  destruct (Arr.at_ _ _); [|assumption].
  eapply history_ok_ext; [| |exact Hok']; reflexivity.
Qed.

Lemma redo_history_ok s : history_ok s -> history_ok (redo s).
Proof.
  intros Hok. unfold redo, canRedo.
  destruct (historyIndex s <? Z.of_nat (List.length (history s)) - 1)%Z eqn:E;
    simpl; [|assumption].
  apply Z.ltb_lt in E.
  pose proof (history_ok_cursor s Hok) as Hc. destruct Hok as (Hb & He & Hn).
  assert (Hok' : history_ok (set_historyIndex (historyIndex s + 1) s)).
  { unfold history_ok. simpl. repeat split; try lia.
    intros Hnil. rewrite Hnil in E. simpl in E. lia. }
  destruct (Arr.at_ _ _); [|assumption].
  eapply history_ok_ext; [| |exact Hok']; reflexivity.
Qed.

Lemma step_history_ok a s : history_ok s -> history_ok (step a s).
Proof.
  intros Hok.
  destruct a; cbn [step]; unfold clear, addPoints, multiplyBy.
  - apply updateCell_history_ok; assumption.
  - apply (batchUpdate_preserves history_ok); auto using updateCell_history_ok.
  - apply (batchUpdate_preserves history_ok); auto using updateCell_history_ok.
  - unfold fill. destruct (selectedCells s); [assumption|].
    apply (batchUpdate_preserves history_ok); auto using updateCell_history_ok.
  - apply (batchUpdate_preserves history_ok); auto using updateCell_history_ok.
  - apply (batchUpdate_preserves history_ok); auto using updateCell_history_ok.
  - apply undo_history_ok; assumption.
  - apply redo_history_ok; assumption.
  - eapply history_ok_ext; [| |exact Hok]; reflexivity.
  - unfold history_ok. simpl. repeat split; try lia. congruence.
Qed.

Lemma run_history_ok l : forall s, history_ok s -> history_ok (run l s).
Proof.
  unfold run. induction l as [|a l IH]; intros s Hok; simpl; [assumption|].
  apply IH, step_history_ok, Hok.
Qed.

Lemma update_first_ids p f l :
  (forall x, rid (f x) = rid x) ->
  map rid (Arr.update_first p f l) = map rid l.
Proof.
  intros Hf. induction l as [|x xs IH]; simpl; [reflexivity|].
  destruct (p x); simpl; [rewrite Hf; reflexivity | f_equal; exact IH].
Qed.

Lemma updateCell_row_ids r c v s : map rid (rows (updateCell r c v s)) = map rid (rows s).
Proof.
  unfold updateCell.
  destruct (find (row_is r) (rows s)) as [row|]; [|reflexivity].
  match goal with
  | |- context [addToHistory ?op ?p ?n ?s1] =>
      destruct (addToHistory_log op p n s1) as (_ & _ & H3 & _)
  end.
  destruct (as_enabled _); simpl; rewrite H3; simpl;
    apply update_first_ids; reflexivity.
Qed.

Lemma edit_grows_log r c v s :
  history_ok s -> at_end s -> In r (map rid s.(rows)) ->
  at_end (updateCell r c v s)
  /\ List.length (history (updateCell r c v s))
     = Nat.min (List.length s.(history) + 1) 100.
Proof.
  intros Hok Hend Hin.
  destruct (updateCell_log r c v s) as [[F _] | (row & op & p & n & _ & Hh & Hi)].
  - exfalso. apply in_map_iff in Hin as (x & Hx & Hin).
    eapply find_none in F; [|exact Hin]. unfold row_is in F.
    rewrite Hx, N.eqb_refl in F. discriminate.
  - destruct (addToHistory_log op p n s) as (H1 & H2 & _). cbv zeta in H1, H2.
    unfold at_end in *. rewrite Hh, Hi, H1, H2.
    replace (historyIndex s + 1)%Z
      with (Z.of_nat (List.length (history s)) - 1 + 1)%Z by lia.
    rewrite slice0_all.
    destruct Hok as (Hb & _).
    assert (T : forall l : list GradeHistoryEntry,
               List.length (tl l) = (List.length l - 1)%nat)
      by (intros [|? ?]; simpl; lia).
    clear H1 H2 Hh Hi.
    rewrite length_app. cbn [List.length].
    destruct (100 <? _)%nat eqn:E;
      [apply Nat.ltb_lt in E | apply Nat.ltb_ge in E];
      rewrite ?T, length_app; cbn [List.length]; lia.
Qed.

Lemma edits_grow_log l : forall s,
  history_ok s -> at_end s -> Forall (is_edit_of s) l ->
  List.length (history (run l s))
  = Nat.min (List.length s.(history) + List.length l) 100.
Proof.
  unfold run. induction l as [|a l IH]; intros s Hok Hend Hl; simpl.
  - destruct Hok as (Hb & _). lia.
  - inversion Hl as [|? ? Ha Hl']; subst.
    destruct a as [r c v| | | | | | | | |]; simpl in Ha; try contradiction.
    simpl.
    destruct (edit_grows_log r c v s Hok Hend Ha) as (Hend' & Hlen).
    rewrite IH.
    + rewrite Hlen. lia.
    + apply updateCell_history_ok; assumption.
    + exact Hend'.
    + eapply Forall_impl; [|exact Hl'].
      intros a Ha'. destruct a; simpl in *; try contradiction.
      rewrite updateCell_row_ids. exact Ha'.
Qed.

End HistoryLog.

(** C5: along every sequence of session operations the log holds at most
    100 entries and, when it is not empty, [0 <= historyIndex < length];
    recording on a full log whose cursor is on the newest entry drops the
    oldest entry and takes the advanced cursor back by one, to 99; and 150
    single-cell edits of a fresh session leave exactly 100 entries. *)
Theorem history_bounded (s : State) (l : list Action) :
  history_ok s ->
  history_ok (run l s)
  /\ (forall op p n,
        List.length s.(history) = 100%nat -> s.(historyIndex) = 99%Z ->
        history (addToHistory op p n s) = tl s.(history) ++ [mkEntry op p n]
        /\ historyIndex (addToHistory op p n s) = (s.(historyIndex) + 1 - 1)%Z
        /\ List.length (history (addToHistory op p n s)) = 100%nat)
  /\ (s.(history) = [] -> Forall (is_edit_of s) l -> List.length l = 150%nat ->
        List.length (history (run l s)) = 100%nat).
Proof.
  intros Hok. split; [apply run_history_ok; assumption|]. split.
  - intros op p n. apply addToHistory_evicts.
  - intros Hnil Hl Hn.
    rewrite edits_grow_log; try assumption.
    + rewrite Hnil, Hn. reflexivity.
    + destruct Hok as (_ & He & _). unfold at_end. rewrite He, Hnil by assumption. reflexivity.
Qed.


Lemma history_bounded_witness :
  history_ok (run Examples.edits150 Examples.loaded)
  /\ List.length (history (run Examples.edits150 Examples.loaded)) = 100%nat.
Proof.
  assert (Hok : history_ok Examples.loaded).
  { unfold history_ok. simpl. repeat split; try lia. congruence. }
  destruct (history_bounded Examples.loaded Examples.edits150 Hok) as (H1 & _ & H3).
  split; [exact H1|].
  apply H3.
  - reflexivity.
  - apply Forall_forall. intros a Ha.
    apply repeat_spec in Ha. subst a. simpl. left. reflexivity.
  - reflexivity.
Defined.

(* ----------------------------------------------------------------- *)
(** ** Ranks *)


Section Ranks.

Lemma findIndex_ge {A} (p : A -> bool) l : (-1 <= Arr.findIndex p l)%Z.
Proof.
  induction l as [|x l IH]; simpl; [lia|].
  destruct (p x); [lia|].
  destruct (Arr.findIndex p l <? 0)%Z eqn:E; [lia|].
  apply Z.ltb_ge in E. lia.
Qed.

Lemma findIndex_cons {A} (p : A -> bool) x l :
  Arr.findIndex p (x :: l) =
  if p x then 0%Z
  else if (Arr.findIndex p l <? 0)%Z then (-1)%Z else (Arr.findIndex p l + 1)%Z.
Proof. reflexivity. Qed.

Lemma findIndex_none {A} (p : A -> bool) l :
  (forall x, In x l -> p x = false) -> Arr.findIndex p l = (-1)%Z.
Proof.
  induction l as [|x l IH]; intros H; simpl; [reflexivity|].
  rewrite (H x) by (left; reflexivity).
  rewrite IH by (intros y Hy; apply H; right; exact Hy). reflexivity.
Qed.

Lemma findIndex_some {A} (p : A -> bool) l x :
  In x l -> p x = true -> (0 <= Arr.findIndex p l)%Z.
Proof.
  induction l as [|y l IH]; intros Hin Hp; simpl; [contradiction|].
  destruct (p y) eqn:Py; [lia|].
  destruct Hin as [->|Hin]; [congruence|].
  specialize (IH Hin Hp).
  destruct (Arr.findIndex p l <? 0)%Z eqn:E; [apply Z.ltb_lt in E; lia | lia].
Qed.

(** With distinct ids, mutating the row [find] returns is a [map]. *)
Lemma update_first_unique id f l :
  NoDup (map rid l) ->
  Arr.update_first (row_is id) f l = map (fun r => if row_is id r then f r else r) l.
Proof.
  induction l as [|x l IH]; intros Hnd; simpl; [reflexivity|].
  inversion Hnd as [|? ? Hx Hl]; subst.
  destruct (row_is id x) eqn:E.
  - f_equal. unfold row_is in E. apply N.eqb_eq in E.
    rewrite <- (map_id l) at 1. apply map_ext_in.
    intros y Hy. unfold row_is.
    destruct (N.eqb_spec (rid y) id) as [Ey|]; [|reflexivity].
    exfalso. apply Hx. rewrite E, <- Ey. apply in_map. exact Hy.
  - f_equal. apply IH. exact Hl.
Qed.

Lemma assignRanks_spec sorted : forall index rs,
  NoDup (map rid sorted) -> NoDup (map rid rs) ->
  assignRanks sorted index rs = map (ranked sorted index) rs.
Proof.
  induction sorted as [|row rest IH]; intros index rs Hs Hr; simpl.
  - rewrite <- (map_id rs) at 1. apply map_ext. intros r. reflexivity.
  - inversion Hs as [|? ? Hrow Hrest]; subst.
    rewrite update_first_unique by assumption.
    rewrite IH; [|assumption|].
    + rewrite map_map. apply map_ext. intros r.
      unfold ranked at 2. rewrite findIndex_cons.
      pose proof (findIndex_ge (row_is (rid r)) rest) as Hge.
      destruct (N.eqb_spec (rid r) (rid row)) as [E|E].
      * assert (E1 : row_is (rid row) r = true) by (apply N.eqb_eq; exact E).
        assert (E2 : row_is (rid r) row = true) by (apply N.eqb_eq; symmetry; exact E).
        rewrite E1, E2. unfold ranked. simpl.
        rewrite findIndex_none.
        -- simpl. f_equal. lia.
        -- intros y Hy. unfold row_is.
           destruct (N.eqb_spec (rid y) (rid r)) as [Ey|]; [|reflexivity].
           exfalso. apply Hrow. rewrite <- E, <- Ey. apply in_map. exact Hy.
      * assert (E1 : row_is (rid row) r = false) by (apply N.eqb_neq; exact E).
        assert (E2 : row_is (rid r) row = false)
          by (apply N.eqb_neq; intro; apply E; symmetry; assumption).
        rewrite E1, E2. unfold ranked.
        destruct (Arr.findIndex (row_is (rid r)) rest <? 0)%Z eqn:F.
        -- apply Z.ltb_lt in F.
           replace (0 <=? Arr.findIndex (row_is (rid r)) rest)%Z with false
             by (symmetry; apply Z.leb_gt; lia).
           reflexivity.
        -- apply Z.ltb_ge in F.
           replace (0 <=? Arr.findIndex (row_is (rid r)) rest)%Z with true
             by (symmetry; apply Z.leb_le; lia).
           replace (0 <=? Arr.findIndex (row_is (rid r)) rest + 1)%Z with true
             by (symmetry; apply Z.leb_le; lia).
           f_equal. lia.
    + rewrite map_map.
      erewrite map_ext; [exact Hr|].
      intros r. simpl. destruct (row_is (rid row) r); reflexivity.
Qed.

Lemma sort_insert_perm x l : Permutation (x :: l) (sort_insert x l).
Proof.
  induction l as [|y l IH]; simpl; [apply Permutation_refl|].
  destruct (Qle_bool _ _); [apply Permutation_refl|].
  eapply Permutation_trans; [apply perm_swap|]. apply perm_skip. exact IH.
Qed.

Lemma sort_perm l : Permutation l (sortByTotalDesc l).
Proof.
  induction l as [|x l IH]; simpl; [apply Permutation_refl|].
  eapply Permutation_trans; [apply perm_skip; exact IH | apply sort_insert_perm].
Qed.

Lemma sort_insert_sorted x l :
  StronglySorted desc l -> StronglySorted desc (sort_insert x l).
Proof.
  induction l as [|y l IH]; intros Hs; simpl.
  - constructor; constructor.
  - inversion Hs as [|? ? Hl Hy]; subst.
    destruct (Qle_bool (totalScore y) (totalScore x)) eqn:E.
    + apply Qle_bool_iff in E.
      constructor; [exact Hs|].
      constructor; [exact E|].
      eapply Forall_impl; [|exact Hy].
      intros z Hz. unfold desc in *. eapply Qle_trans; eassumption.
    + assert (Hlt : (totalScore x < totalScore y)%Q).
      { apply Qnot_le_lt. intros H. apply Qle_bool_iff in H. congruence. }
      constructor; [apply IH; exact Hl|].
      eapply Permutation_Forall; [apply sort_insert_perm|].
      constructor; [apply Qlt_le_weak; exact Hlt | exact Hy].
Qed.

Lemma sort_sorted l : StronglySorted desc (sortByTotalDesc l).
Proof.
  induction l as [|x l IH]; simpl; [constructor | apply sort_insert_sorted, IH].
Qed.

Lemma filter_none {A} (p : A -> bool) l :
  (forall z, In z l -> p z = false) -> filter p l = [].
Proof.
  induction l as [|x l IH]; intros H; simpl; [reflexivity|].
  rewrite (H x) by (left; reflexivity).
  apply IH. intros z Hz. apply H. right. exact Hz.
Qed.

(** Where [sort_insert] puts a row whose id is new to the array: behind
    the rows with a strictly larger total. *)
Lemma sort_insert_new x l :
  StronglySorted desc l ->
  (forall y, In y l -> row_is x.(rid) y = false) ->
  Arr.findIndex (row_is x.(rid)) (sort_insert x l)
  = Z.of_nat (List.length (filter (ahead x) l)).
Proof.
  induction l as [|y l IH]; intros Hs Hnew; simpl.
  - unfold row_is. rewrite N.eqb_refl. reflexivity.
  - inversion Hs as [|? ? Hl Hy]; subst.
    unfold ahead at 1, lt.
    destruct (Qle_bool (totalScore y) (totalScore x)) eqn:E; simpl.
    + unfold row_is at 1. rewrite N.eqb_refl.
      apply Qle_bool_iff in E.
      rewrite (filter_none (ahead x) l); [reflexivity|].
      rewrite Forall_forall in Hy.
      intros z Hz. unfold ahead, lt. apply negb_false_iff, Qle_bool_iff.
      eapply Qle_trans; [apply (Hy z Hz) | exact E].
    + rewrite (Hnew y) by (left; reflexivity).
      rewrite IH; [|exact Hl | intros z Hz; apply Hnew; right; exact Hz].
      destruct (_ <? 0)%Z eqn:F; [apply Z.ltb_lt in F; lia|].
      cbn [List.length]. lia.
Qed.

(** Where a row that is already in the array goes when [x] is inserted:
    one place back when [x] sorts ahead of it. *)
Lemma sort_insert_old x r l :
  StronglySorted desc l -> NoDup (map rid l) -> In r l ->
  r.(rid) <> x.(rid) ->
  Arr.findIndex (row_is r.(rid)) (sort_insert x l)
  = ((if Qle_bool r.(totalScore) x.(totalScore) then 1 else 0)
     + Arr.findIndex (row_is r.(rid)) l)%Z.
Proof.
  intros Hs Hnd Hin Hne.
  assert (Ex : row_is (rid r) x = false)
    by (apply N.eqb_neq; intro; apply Hne; symmetry; assumption).
  induction l as [|y l IH]; [contradiction|].
  cbn [sort_insert].
  inversion Hs as [|? ? Hl Hy]; subst.
  inversion Hnd as [|? ? Hny Hndl]; subst.
  destruct (Qle_bool (totalScore y) (totalScore x)) eqn:E.
  - rewrite findIndex_cons, Ex.
    assert (Hr : Qle_bool (totalScore r) (totalScore x) = true).
    { apply Qle_bool_iff. apply Qle_bool_iff in E.
      destruct Hin as [->|Hin]; [exact E|].
      rewrite Forall_forall in Hy. eapply Qle_trans; [apply (Hy r Hin) | exact E]. }
    rewrite Hr.
    pose proof (findIndex_some (row_is (rid r)) (y :: l) r Hin
                  (N.eqb_refl _)) as Hge.
    destruct (Arr.findIndex (row_is (rid r)) (y :: l) <? 0)%Z eqn:F;
      [apply Z.ltb_lt in F; lia | lia].
  - rewrite !findIndex_cons.
    destruct (row_is (rid r) y) eqn:Ey.
    + assert (r = y).
      { destruct Hin as [->|Hin]; [reflexivity|].
        exfalso. apply Hny. unfold row_is in Ey. apply N.eqb_eq in Ey.
        rewrite Ey. apply in_map. exact Hin. }
      subst y. rewrite E. reflexivity.
    + destruct Hin as [->|Hin];
        [unfold row_is in Ey; rewrite N.eqb_refl in Ey; discriminate|].
      rewrite (IH Hl Hndl Hin).
      pose proof (findIndex_some (row_is (rid r)) l r Hin (N.eqb_refl _)) as Hge.
      destruct (Qle_bool (totalScore r) (totalScore x));
        repeat match goal with
               | |- context [(?a <? 0)%Z] =>
                   destruct (a <? 0)%Z eqn:?;
                   [match goal with H : (_ <? 0)%Z = true |- _ =>
                      apply Z.ltb_lt in H end; lia|]
               end; lia.
Qed.

Lemma perm_filter_length {A} (p : A -> bool) l l' :
  Permutation l l' -> List.length (filter p l) = List.length (filter p l').
Proof.
  induction 1; simpl; auto.
  - destruct (p x); simpl; congruence.
  - destruct (p x), (p y); reflexivity.
  - congruence.
Qed.

(** The place of a row in the sorted array. *)
Lemma sorted_position l : forall r,
  NoDup (map rid l) -> In r l ->
  Arr.findIndex (row_is r.(rid)) (sortByTotalDesc l) = rowsBefore r l.
Proof.
  induction l as [|x l IH]; intros r Hnd Hin; [contradiction|].
  inversion Hnd as [|? ? Hx Hl]; subst.
  cbn [sortByTotalDesc fold_right rowsBefore].
  fold (sortByTotalDesc l).
  destruct (N.eqb_spec (rid x) (rid r)) as [E|E].
  - assert (r = x).
    { destruct Hin as [->|Hin]; [reflexivity|].
      exfalso. apply Hx. rewrite E. apply in_map. exact Hin. }
    subst r.
    rewrite sort_insert_new.
    + f_equal. symmetry. apply perm_filter_length, sort_perm.
    + apply sort_sorted.
    + intros y Hy. apply N.eqb_neq. intros Ey. apply Hx.
      rewrite <- Ey. apply in_map.
      eapply Permutation_in; [apply Permutation_sym, sort_perm | exact Hy].
  - destruct Hin as [->|Hin]; [congruence|].
    rewrite sort_insert_old.
    + rewrite IH by assumption. reflexivity.
    + apply sort_sorted.
    + eapply Permutation_NoDup; [|exact Hl].
      apply Permutation_map, sort_perm.
    + eapply Permutation_in; [apply sort_perm | exact Hin].
    + congruence.
Qed.

Lemma findIndex_hit {A} (p : A -> bool) l :
  (0 <= Arr.findIndex p l)%Z ->
  exists x, Arr.at_ l (Arr.findIndex p l) = Some x /\ p x = true.
Proof.
  induction l as [|y l IH]; simpl; [lia|].
  destruct (p y) eqn:Py; [intros _; exists y; split; [reflexivity | exact Py]|].
  destruct (Arr.findIndex p l <? 0)%Z eqn:F; [lia|].
  apply Z.ltb_ge in F. intros _.
  destruct (IH F) as (x & Hx & Px). exists x. split; [|exact Px].
  unfold Arr.at_ in *.
  destruct (Arr.findIndex p l <? 0)%Z eqn:F'; [discriminate|].
  destruct (Arr.findIndex p l + 1 <? 0)%Z eqn:F''; [apply Z.ltb_lt in F''; lia|].
  replace (Z.to_nat (Arr.findIndex p l + 1)) with (S (Z.to_nat (Arr.findIndex p l))) by lia.
  exact Hx.
Qed.

Lemma ranks_distinct_aux l r1 r2 :
  NoDup (map rid l) -> In r1 l -> In r2 l ->
  rowsBefore r1 l = rowsBefore r2 l -> rid r1 = rid r2.
Proof.
  intros Hnd H1 H2 E.
  rewrite <- !sorted_position in E by assumption.
  pose proof (findIndex_some (row_is (rid r1)) (sortByTotalDesc l) r1
                (Permutation_in _ (sort_perm _) H1) (N.eqb_refl _)) as G1.
  pose proof (findIndex_some (row_is (rid r2)) (sortByTotalDesc l) r2
                (Permutation_in _ (sort_perm _) H2) (N.eqb_refl _)) as G2.
  destruct (findIndex_hit _ _ G1) as (x1 & A1 & P1).
  destruct (findIndex_hit _ _ G2) as (x2 & A2 & P2).
  rewrite E, A2 in A1. injection A1 as <-.
  unfold row_is in P1, P2. apply N.eqb_eq in P1, P2. congruence.
Qed.

End Ranks.

(** C6, amended: whenever [calculateRanks] runs on rows with distinct ids,
    each row's rank is its place in the array sorted by total, highest
    first: one more than the number of rows with a strictly larger total
    plus the number of rows with the same total that come earlier in the
    array.  Nothing else in a row changes, and no two rows share a rank. *)
Theorem calculateRanks_positional (s : State) :
  NoDup (map rid s.(rows)) ->
  rows (calculateRanks s)
  = map (fun r => set_rank (1 + rowsBefore r s.(rows)) r) s.(rows)
  /\ (forall r1 r2,
        In r1 (rows (calculateRanks s)) -> In r2 (rows (calculateRanks s)) ->
        rid r1 <> rid r2 -> rank r1 <> rank r2).
Proof.
  intros Hnd.
  assert (E : rows (calculateRanks s)
              = map (fun r => set_rank (1 + rowsBefore r s.(rows)) r) s.(rows)).
  { unfold calculateRanks. simpl.
    rewrite assignRanks_spec; [| |exact Hnd].
    - apply map_ext_in. intros r Hin. unfold ranked.
      rewrite sorted_position by assumption.
      pose proof (findIndex_some (row_is (rid r)) (sortByTotalDesc (rows s)) r
                    (Permutation_in _ (sort_perm _) Hin) (N.eqb_refl _)) as Hge.
      rewrite sorted_position in Hge by assumption.
      replace (0 <=? rowsBefore r (rows s))%Z with true
        by (symmetry; apply Z.leb_le; exact Hge).
      f_equal.
    - eapply Permutation_NoDup; [|exact Hnd]. apply Permutation_map, sort_perm. }
  split; [exact E|].
  intros r1 r2 H1 H2 Hne Hr. rewrite E in H1, H2.
  apply in_map_iff in H1 as (x1 & <- & H1), H2 as (x2 & <- & H2).
  cbn [rid rank set_rank] in Hne, Hr. apply Hne.
  apply (ranks_distinct_aux (rows s)); try assumption. lia.
Qed.

(** C6, as stated: two rows with equal totals get the same rank.  Two
    students with total 18 each are ranked 1 and 2. *)
Lemma tied_rows_get_different_ranks :
  ~ (forall r1 r2,
       In r1 (rows (calculateRanks Examples.tied)) -> In r2 (rows (calculateRanks Examples.tied)) ->
       (totalScore r1 == totalScore r2)%Q -> rank r1 = rank r2).
Proof.
  intros H.
  specialize (H (mkRow 1 [("assignment1"%string, Some 90%Q)] 18 90 1 false false)
                (mkRow 2 [("assignment1"%string, Some 90%Q)] 18 90 2 false false)).
  simpl in H.
  assert (E : 1%Z = 2%Z) by (apply H; [left; reflexivity | right; left; reflexivity | reflexivity]).
  discriminate.
Qed.


Lemma calculateRanks_positional_witness :
  rows (calculateRanks Examples.tied)
  = map (fun r => set_rank (1 + rowsBefore r (rows Examples.tied)) r) (rows Examples.tied).
Proof.
  apply (proj1 (calculateRanks_positional Examples.tied
                  ltac:(simpl; repeat constructor; simpl; intuition discriminate))).
Defined.

(* ----------------------------------------------------------------- *)
(** ** The has-error flag *)


Section ErrorFlags.

Lemma update_first_proj {B} (proj : StudentGradeRow -> B) p f l :
  (forall x, proj (f x) = proj x) ->
  map proj (Arr.update_first p f l) = map proj l.
Proof.
  intros Hf. induction l as [|x xs IH]; simpl; [reflexivity|].
  destruct (p x); simpl; [rewrite Hf; reflexivity | f_equal; exact IH].
Qed.

Lemma assignRanks_proj {B} (proj : StudentGradeRow -> B) sorted :
  (forall v x, proj (set_rank v x) = proj x) ->
  forall index rs, map proj (assignRanks sorted index rs) = map proj rs.
Proof.
  intros Hp. induction sorted as [|row rest IH]; intros index rs; simpl; [reflexivity|].
  rewrite IH. apply update_first_proj. intros x. apply Hp.
Qed.

Lemma writeBackAll_proj {B} (proj : StudentGradeRow -> B) modified vals s :
  (forall g t a m x,
     proj (set_averageScore a (set_totalScore t (set_isModified m (set_grades g x)))) = proj x) ->
  map proj (rows (writeBackAll modified vals s)) = map proj (rows s).
Proof.
  intros Hp. unfold writeBackAll, Obj.entries. simpl.
  generalize (rows s) as rs.
  induction vals as [|kv vals IH]; intros rs; simpl; [reflexivity|].
  rewrite IH. unfold writeBack.
  destruct (key_rowId (fst kv)); [|reflexivity].
  apply update_first_proj. intros x. apply Hp.
Qed.

Lemma flags_agree_ext s s' :
  map idAndFlag (rows s') = map idAndFlag (rows s) ->
  validationErrors s' = validationErrors s ->
  flags_agree s -> flags_agree s'.
Proof.
  intros Hr He Hs r Hin. unfold inErrorSet. rewrite He.
  apply (in_map idAndFlag) in Hin. rewrite Hr in Hin.
  apply in_map_iff in Hin as (x & Hx & Hin).
  injection Hx as Hid Hfl. rewrite <- Hid, <- Hfl. apply Hs. exact Hin.
Qed.

(** [undo] and [redo] write neither a flag nor the error set. *)
Lemma undo_flags s :
  map idAndFlag (rows (undo s)) = map idAndFlag (rows s)
  /\ validationErrors (undo s) = validationErrors s.
Proof.
  unfold undo. destruct (negb (canUndo s)); [split; reflexivity|].
  cbv zeta. destruct (Arr.at_ _ _) as [entry|]; [|split; reflexivity].
  split; [|reflexivity].
  unfold calculateRanks. cbn [rows set_rows].
  rewrite assignRanks_proj by reflexivity.
  rewrite writeBackAll_proj by reflexivity. reflexivity.
Qed.

Lemma redo_flags s :
  map idAndFlag (rows (redo s)) = map idAndFlag (rows s)
  /\ validationErrors (redo s) = validationErrors s.
Proof.
  unfold redo. destruct (negb (canRedo s)); [split; reflexivity|].
  cbv zeta. destruct (Arr.at_ _ _) as [entry|]; [|split; reflexivity].
  split; [|reflexivity].
  unfold calculateRanks. cbn [rows set_rows].
  rewrite assignRanks_proj by reflexivity.
  rewrite writeBackAll_proj by reflexivity. reflexivity.
Qed.

Lemma existsb_filter_keep {A} (p q : A -> bool) l :
  (forall x, p x = true -> q x = true) ->
  existsb p (filter q l) = existsb p l.
Proof.
  intros H. induction l as [|x l IH]; simpl; [reflexivity|].
  destruct (q x) eqn:Q; simpl.
  - rewrite IH. reflexivity.
  - rewrite IH. destruct (p x) eqn:P; [|reflexivity].
    rewrite (H x P) in Q. discriminate.
Qed.

(** The rows and the error set [updateCell] leaves when the row exists. *)
Lemma updateCell_rows_errors r c v s row :
  find (row_is r) s.(rows) = Some row ->
  exists flag errs write,
    rows (updateCell r c v s) = Arr.update_first (row_is r) write s.(rows)
    /\ validationErrors (updateCell r c v s) = errs
    /\ (forall x, rid (write x) = rid x /\ hasErrors (write x) = flag
                  /\ grades (write x) = Obj.set (grades x) c v)
    /\ flag = existsb (fun e => N.eqb e.(e_rowId) r) errs
    /\ (forall id, id <> r ->
          existsb (fun e => N.eqb e.(e_rowId) id) errs
          = existsb (fun e => N.eqb e.(e_rowId) id) s.(validationErrors)).
Proof.
  intros F. unfold updateCell. rewrite F.
  match goal with
  | |- context [addToHistory ?op ?p ?n (set_rows (Arr.update_first _ ?w _) (set_validationErrors ?e _))] =>
      exists (match validateCell s r c v with
              | Some _ => true
              | None => existsb (fun e0 => N.eqb e0.(e_rowId) r) e
              end), e, w;
      destruct (addToHistory_log op p n
                  (set_rows (Arr.update_first (row_is r) w (rows s))
                     (set_validationErrors e s))) as (_ & _ & H3 & H4 & _)
  end.
  split; [destruct (as_enabled _); simpl; rewrite H3; reflexivity|].
  split; [destruct (as_enabled _); simpl; rewrite H4; reflexivity|].
  split; [intros x; repeat split|].
  split.
  - destruct (validateCell s r c v); [|reflexivity].
    rewrite existsb_app. simpl. rewrite N.eqb_refl, orb_true_r. reflexivity.
  - intros id Hid. destruct (validateCell s r c v).
    + rewrite existsb_app. simpl.
      destruct (N.eqb_spec r id); [congruence|]. rewrite orb_false_r. reflexivity.
    + apply existsb_filter_keep. intros e He. apply N.eqb_eq in He.
      unfold error_at. destruct (N.eqb_spec (e_rowId e) r); [congruence|]. reflexivity.
Qed.

Lemma updateCell_flags r c v s : flags_inv s -> flags_inv (updateCell r c v s).
Proof.
  intros [Hnd Hag]. split; [rewrite updateCell_row_ids; exact Hnd|].
  destruct (find (row_is r) (rows s)) as [row|] eqn:F.
  - destruct (updateCell_rows_errors r c v s row F)
      as (flag & errs & write & Hr & He & Hw & Hflag & Hother).
    intros x Hx. unfold inErrorSet. rewrite He. rewrite Hr in Hx.
    rewrite update_first_unique in Hx by exact Hnd.
    apply in_map_iff in Hx as (y & Hy & Hin). subst x.
    unfold row_is. destruct (N.eqb_spec (rid y) r) as [E|E].
    + destruct (Hw y) as (W1 & W2 & _). rewrite W1, W2, E. exact Hflag.
    + rewrite Hother by exact E. apply Hag. exact Hin.
  - unfold updateCell. rewrite F. exact Hag.
Qed.

Lemma step_flags a s : a <> AValidateAll -> flags_inv s -> flags_inv (step a s).
Proof.
  intros Ha Hs.
  destruct a; cbn [step]; unfold clear, addPoints, multiplyBy; try congruence.
  - apply updateCell_flags; assumption.
  - apply (batchUpdate_preserves flags_inv); auto using updateCell_flags.
  - apply (batchUpdate_preserves flags_inv); auto using updateCell_flags.
  - unfold fill. destruct (selectedCells s); [assumption|].
    apply (batchUpdate_preserves flags_inv); auto using updateCell_flags.
  - apply (batchUpdate_preserves flags_inv); auto using updateCell_flags.
  - apply (batchUpdate_preserves flags_inv); auto using updateCell_flags.
  - destruct Hs as [Hnd Hag]. destruct (undo_flags s) as [Hr He].
    split.
    + replace (map rid (rows (undo s))) with (map fst (map idAndFlag (rows (undo s))))
        by (rewrite map_map; reflexivity).
      rewrite Hr, map_map. exact Hnd.
    + eapply flags_agree_ext; eassumption.
  - destruct Hs as [Hnd Hag]. destruct (redo_flags s) as [Hr He].
    split.
    + replace (map rid (rows (redo s))) with (map fst (map idAndFlag (rows (redo s))))
        by (rewrite map_map; reflexivity).
      rewrite Hr, map_map. exact Hnd.
    + eapply flags_agree_ext; eassumption.
  - exact Hs.
Qed.

Lemma run_flags l : forall s,
  Forall (fun a => a <> AValidateAll) l -> flags_inv s -> flags_inv (run l s).
Proof.
  unfold run. induction l as [|a l IH]; intros s Hl Hs; simpl; [assumption|].
  inversion Hl; subst. apply IH; [assumption|]. apply step_flags; assumption.
Qed.

End ErrorFlags.

(** [updateCell] recomputes the totals of the row it writes and leaves every
    rank as it was: ranks are recomputed by [saveGrades], [undo] and [redo]
    only. *)
Lemma updateCell_keeps_ranks r c v s :
  map rank (rows (updateCell r c v s)) = map rank (rows s).
Proof.
  unfold updateCell.
  destruct (find (row_is r) (rows s)) as [row|]; [|reflexivity].
  match goal with
  | |- context [addToHistory ?op ?p ?n ?s1] =>
      destruct (addToHistory_log op p n s1) as (_ & _ & H3 & _)
  end.
  destruct (as_enabled _); simpl; rewrite H3; simpl;
    apply update_first_proj; reflexivity.
Qed.

(** C7, as stated: after every operation a row's flag says whether the row
    is in the error set, and undoing an out-of-range edit clears the flag.
    [validateAll] on a loaded sheet holding a 150 puts the row into the error
    set and leaves its flag false; and undoing the edit that wrote 150 over
    85.25 brings 85.25 back while the flag stays true. *)
Lemma error_flags_not_rederived :
  (flags_agree Examples.outOfRange
   /\ ~ flags_agree (step AValidateAll Examples.outOfRange))
  /\ (let s2 := updateCell 1 "assignment1" (Some 150%Q)
                  (updateCell 1 "assignment1" (Some (8525 # 100)) Examples.fractional) in
      cellValue (undo s2) 1 "assignment1" = Some (Some (Some (8525 # 100)))
      /\ rowHasErrors s2 1 = Some true
      /\ rowHasErrors (undo s2) 1 = Some true).
Proof.
  split; [split|].
  - intros r [<-|[]]. reflexivity.
  - intros H. specialize (H _ (or_introl eq_refl)). vm_compute in H. discriminate.
  - repeat split; vm_compute; reflexivity.
Qed.

(** C7, amended: on rows with distinct ids, along every sequence of
    [updateCell], batch operations, [undo] and [redo] each row's
    [hasErrors] flag is true exactly when the row appears in the aggregate
    error set, provided that held at the start; [undo] and [redo] replay
    values only and leave every flag and the error set as they were;
    [validateAll] replaces the error set and leaves the rows, flags
    included, as they were. *)
Theorem error_flags_follow_edits (s : State) (l : list Action) :
  NoDup (map rid s.(rows)) -> flags_agree s ->
  Forall (fun a => a <> AValidateAll) l ->
  flags_agree (run l s)
  /\ map hasErrors (rows (undo s)) = map hasErrors (rows s)
  /\ validationErrors (undo s) = validationErrors s
  /\ map hasErrors (rows (redo s)) = map hasErrors (rows s)
  /\ validationErrors (redo s) = validationErrors s
  /\ rows (validateAll s) = rows s.
Proof.
  intros Hnd Hag Hl.
  split; [apply run_flags; [assumption | split; assumption]|].
  destruct (undo_flags s) as [Hu1 Hu2]. destruct (redo_flags s) as [Hr1 Hr2].
  apply (f_equal (map snd)) in Hu1, Hr1. rewrite !map_map in Hu1, Hr1.
  repeat split; assumption.
Qed.

Lemma error_flags_follow_edits_witness :
  flags_agree
    (run [AUpdateCell 1 "assignment1" (Some 150%Q); AUndo] Examples.fractional).
Proof.
  apply (error_flags_follow_edits Examples.fractional
           [AUpdateCell 1 "assignment1" (Some 150%Q); AUndo]).
  - simpl. repeat constructor. simpl. intuition.
  - intros r [<-|[]]. reflexivity.
  - repeat constructor; discriminate.
Defined.

(* ----------------------------------------------------------------- *)
(** ** The autosave batch *)

Section AutoSave.

Lemma row_keys_NoDup (row : StudentGradeRow) :
  NoDup (Obj.keys row.(grades)) ->
  NoDup (map fst (map (fun cv : string * Value => (cellKey row.(rid) (fst cv), snd cv)) row.(grades))).
Proof.
  unfold Obj.keys. rewrite map_map. simpl.
  induction (grades row) as [|[c v] g IH]; simpl; intros Hnd; [constructor|].
  inversion Hnd as [|? ? Hc Hg]; subst.
  constructor; [|apply IH; exact Hg].
  intros H. apply in_map_iff in H as ([c' v'] & Hk & Hin). simpl in Hk.
  apply cellKey_inj in Hk as [_ ->]. apply Hc.
  apply (in_map fst) in Hin. exact Hin.
Qed.

Lemma allCells_key_row rs k :
  In k (map fst (allCells rs)) -> exists r c, In r rs /\ k = cellKey r.(rid) c.
Proof.
  unfold allCells. intros H.
  apply in_map_iff in H as ([k' v] & Hk & Hin). simpl in Hk. subst k'.
  apply in_flat_map in Hin as (r & Hr & Hin).
  apply in_map_iff in Hin as ([c v'] & Hcv & _). injection Hcv as Hk _.
  exists r, c. split; [exact Hr | symmetry; exact Hk].
Qed.

Lemma allCells_NoDup rs :
  NoDup (map rid rs) ->
  (forall r, In r rs -> NoDup (Obj.keys r.(grades))) ->
  NoDup (map fst (allCells rs)).
Proof.
  induction rs as [|x rs IH]; intros Hnd Hg; simpl; [constructor|].
  inversion Hnd as [|? ? Hx Hrs]; subst.
  rewrite map_app. apply NoDup_app.
  - apply row_keys_NoDup, Hg. left. reflexivity.
  - apply IH; [exact Hrs | intros r Hr; apply Hg; right; exact Hr].
  - intros k Hk1 Hk2.
    rewrite map_map in Hk1. apply in_map_iff in Hk1 as ([c v] & Hk & _). simpl in Hk.
    apply allCells_key_row in Hk2 as (r & c' & Hr & Hk').
    rewrite Hk' in Hk. apply cellKey_inj in Hk as [Hid _].
    apply Hx. rewrite Hid. apply in_map. exact Hr.
Qed.

Lemma fold_set_map {A} (key : A -> string) (val : A -> Value) l : forall o,
  fold_left (fun u a => Obj.set u (key a) (val a)) l o
  = fold_left (fun u kv => Obj.set u (fst kv) (snd kv)) (map (fun a => (key a, val a)) l) o.
Proof. induction l as [|a l IH]; intros o; simpl; [reflexivity | apply IH]. Qed.

Lemma autoSave_fold rs : forall o : Obj.t Value,
  NoDup (Obj.keys o ++ map fst (allCells rs)) ->
  fold_left
    (fun updates row =>
       fold_left (fun u cv => Obj.set u (cellKey row.(rid) (fst cv)) (snd cv))
         (Obj.entries row.(grades)) updates)
    rs o
  = o ++ allCells rs.
Proof.
  induction rs as [|x rs IH]; intros o Hnd; simpl.
  - rewrite List.app_nil_r. reflexivity.
  - simpl in Hnd. rewrite map_app, List.app_assoc in Hnd.
    unfold Obj.entries.
    rewrite (fold_set_map (fun cv => cellKey (rid x) (fst cv)) snd).
    rewrite set_all_fresh by (eapply NoDup_app_remove_r; exact Hnd).
    rewrite IH.
    + rewrite <- List.app_assoc. reflexivity.
    + unfold Obj.keys in *. rewrite map_app. exact Hnd.
Qed.

Lemma save_updates_allCells rs :
  (forall r, In r rs -> forall k, In k (Obj.keys r.(grades)) -> no_dash k = true) ->
  save_updates (allCells rs) = allUpdates rs.
Proof.
  unfold save_updates, Obj.entries, allCells, allUpdates.
  induction rs as [|x rs IH]; intros Hd; simpl; [reflexivity|].
  rewrite map_app, IH by (intros r Hr; apply Hd; right; exact Hr).
  f_equal. rewrite map_map.
  apply map_ext_in. intros [c v] Hin. simpl.
  rewrite key_rowId_cellKey, key_columnId_cellKey; [reflexivity|].
  apply (Hd x); [left; reflexivity|].
  apply (in_map fst) in Hin. exact Hin.
Qed.

End AutoSave.

(** C8, amended: on a sheet whose rows have distinct ids and whose
    [grades] objects are keyed, each key once, by column ids that hold no
    ['-'], the [updates] object the autosave callback assembles holds every
    entry of every row's [grades], modified or not, in row order; with a
    course loaded and some row modified or in error the request carries one
    [{ student_id, column_id, score }] triple for each of them, and otherwise
    nothing is sent. *)
Theorem autoSave_sends_every_cell (s : State) :
  NoDup (map rid s.(rows)) ->
  (forall r, In r s.(rows) -> NoDup (Obj.keys r.(grades))) ->
  (forall r k, In r s.(rows) -> In k (Obj.keys r.(grades)) -> no_dash k = true) ->
  autoSaveUpdates s = allCells s.(rows)
  /\ autoSaveRequest s =
       (if hasUnsavedChanges s
        then match s.(courseInfo) with
             | Some course => Some (course, allUpdates s.(rows))
             | None => None
             end
        else None).
Proof.
  intros Hrows Hkeys Hdash.
  assert (E : autoSaveUpdates s = allCells s.(rows)).
  { unfold autoSaveUpdates. rewrite autoSave_fold; [reflexivity|].
    simpl. apply allCells_NoDup; assumption. }
  split; [exact E|].
  unfold autoSaveRequest, saveGrades_dispatch.
  destruct (hasUnsavedChanges s); [|reflexivity].
  destruct (courseInfo s); [|reflexivity].
  rewrite E, save_updates_allCells; [reflexivity|].
  intros r Hr k Hk. exact (Hdash r k Hr Hk).
Qed.

(** C8, as stated: the batch holds the dirty cells and no cell untouched
    since the last save.  With row 1 modified and row 2 untouched, the
    request still carries row 2's score. *)
Lemma autoSave_sends_clean_cells :
  exists course req,
    autoSaveRequest Examples.oneDirty = Some (course, req)
    /\ In (mkUpdate (Some 2%N) "assignment1" (Some (8525 # 100))) req
    /\ modifiedRows Examples.oneDirty = [1%N].
Proof.
  eexists. eexists. split; [reflexivity|]. split; [right; left; reflexivity | reflexivity].
Qed.


Lemma autoSave_sends_every_cell_witness :
  autoSaveRequest Examples.oneDirty
  = Some (1%N, [mkUpdate (Some 1%N) "assignment1" (Some (9025 # 100));
                mkUpdate (Some 2%N) "assignment1" (Some (8525 # 100))]).
Proof.
  assert (Hrows : NoDup (map rid (rows Examples.oneDirty))).
  { simpl. repeat constructor; simpl; intuition discriminate. }
  assert (Hkeys : forall r, In r (rows Examples.oneDirty) -> NoDup (Obj.keys (grades r))).
  { intros r [<-|[<-|[]]]; repeat constructor; simpl; intuition. }
  assert (Hdash : forall r k, In r (rows Examples.oneDirty) ->
                              In k (Obj.keys (grades r)) -> no_dash k = true).
  { intros r k [<-|[<-|[]]] [<-|[]]; reflexivity. }
  exact (proj2 (autoSave_sends_every_cell Examples.oneDirty Hrows Hkeys Hdash)).
Defined.

(* ----------------------------------------------------------------- *)
(** ** Batch arithmetic *)


Section CellWrites.

Lemma find_update_first_same id f l :
  (forall x, rid (f x) = rid x) ->
  find (row_is id) (Arr.update_first (row_is id) f l) = option_map f (find (row_is id) l).
Proof.
  intros Hf. induction l as [|x l IH]; simpl; [reflexivity|].
  destruct (row_is id x) eqn:E; simpl.
  - unfold row_is in *. rewrite Hf, E. reflexivity.
  - rewrite E. exact IH.
Qed.

Lemma find_update_first_other id id' f l :
  (forall x, rid (f x) = rid x) -> id <> id' ->
  find (row_is id) (Arr.update_first (row_is id') f l) = find (row_is id) l.
Proof.
  intros Hf Hne. induction l as [|x l IH]; simpl; [reflexivity|].
  destruct (row_is id' x) eqn:E; simpl.
  - unfold row_is in *. rewrite Hf. apply N.eqb_eq in E.
    destruct (N.eqb_spec (rid x) id); [congruence | reflexivity].
  - destruct (row_is id x); [reflexivity | exact IH].
Qed.

Lemma find_row_in id l : In id (map rid l) -> exists row, find (row_is id) l = Some row.
Proof.
  intros Hin. destruct (find (row_is id) l) as [row|] eqn:F; [eauto|].
  exfalso. apply in_map_iff in Hin as (x & Hx & Hin).
  apply (find_none _ _ F) in Hin. unfold row_is in Hin.
  rewrite Hx, N.eqb_refl in Hin. discriminate.
Qed.

(** [updateCell] stores the value in the cell it names... *)
Lemma updateCell_writes r c v s :
  In r (map rid s.(rows)) ->
  cellValue (updateCell r c v s) r c = Some (Some v).
Proof.
  intros Hin. destruct (find_row_in r _ Hin) as [row F].
  destruct (updateCell_rows_errors r c v s row F)
    as (flag & errs & write & Hr & _ & Hw & _).
  unfold cellValue. rewrite Hr.
  rewrite find_update_first_same by (intros x; apply Hw).
  rewrite F. simpl. destruct (Hw row) as (_ & _ & ->).
  rewrite get_set_same. reflexivity.
Qed.

(** ... and leaves every other cell alone. *)
Lemma updateCell_keeps r c v s r' c' :
  (r', c') <> (r, c) ->
  cellValue (updateCell r c v s) r' c' = cellValue s r' c'.
Proof.
  intros Hne.
  destruct (find (row_is r) (rows s)) as [row|] eqn:F.
  - destruct (updateCell_rows_errors r c v s row F)
      as (flag & errs & write & Hr & _ & Hw & _).
    unfold cellValue. rewrite Hr.
    destruct (N.eq_dec r' r) as [->|Hr'].
    + rewrite find_update_first_same by (intros x; apply Hw).
      rewrite F. simpl. destruct (Hw row) as (_ & _ & ->).
      rewrite get_set_other; [reflexivity|]. congruence.
    + rewrite find_update_first_other by (try (intros x; apply Hw); assumption).
      reflexivity.
  - unfold updateCell. rewrite F. reflexivity.
Qed.

Lemma batchUpdate_row_ids u : forall s,
  map rid (rows (batchUpdate u s)) = map rid (rows s).
Proof.
  intros s.
  apply (batchUpdate_preserves (fun st => map rid (rows st) = map rid (rows s)));
    [|reflexivity].
  intros r c v st Hst. rewrite updateCell_row_ids. exact Hst.
Qed.

Lemma batchUpdate_keeps u r c : forall s,
  (forall k, In k (Obj.keys u) -> plainKey k) ->
  ~ In (cellKey r c) (Obj.keys u) ->
  cellValue (batchUpdate u s) r c = cellValue s r c.
Proof.
  unfold batchUpdate, Obj.entries.
  induction u as [|[k v] u IH]; intros s Hk Hn; simpl; [reflexivity|].
  rewrite IH.
  - destruct (Hk k (or_introl eq_refl)) as (r0 & c0 & -> & Hc0).
    rewrite key_rowId_cellKey, key_columnId_cellKey by exact Hc0.
    apply updateCell_keeps. intros E. injection E as -> ->.
    apply Hn. left. reflexivity.
  - intros k' Hk'. apply Hk. right. exact Hk'.
  - intros H. apply Hn. right. exact H.
Qed.

Lemma batchUpdate_writes u r c v : forall s,
  NoDup (Obj.keys u) ->
  (forall k, In k (Obj.keys u) -> plainKey k) ->
  Obj.get u (cellKey r c) = Some v ->
  In r (map rid s.(rows)) ->
  cellValue (batchUpdate u s) r c = Some (Some v).
Proof.
  induction u as [|[k v0] u IH]; intros s Hnd Hk Hget Hin; [discriminate|].
  simpl in Hget. inversion Hnd as [|? ? Hfresh Hnd']; subst.
  destruct (Hk k (or_introl eq_refl)) as (r0 & c0 & -> & Hc0).
  change (batchUpdate ((cellKey r0 c0, v0) :: u) s)
    with (batchUpdate u
            (match key_rowId (cellKey r0 c0) with
             | Some rowId => updateCell rowId (key_columnId (cellKey r0 c0)) v0 s
             | None => s
             end)).
  rewrite key_rowId_cellKey, key_columnId_cellKey by exact Hc0.
  destruct (String.eqb_spec (cellKey r0 c0) (cellKey r c)) as [E|E].
  - injection Hget as ->. apply cellKey_inj in E as [-> ->].
    rewrite batchUpdate_keeps.
    + apply updateCell_writes. exact Hin.
    + intros k' Hk'. apply Hk. right. exact Hk'.
    + exact Hfresh.
  - apply IH; try assumption.
    + intros k' Hk'. apply Hk. right. exact Hk'.
    + rewrite updateCell_row_ids. exact Hin.
Qed.

End CellWrites.
Section BatchArithmetic.

Lemma at_in {A} (l : list A) i x : Arr.at_ l i = Some x -> In x l.
Proof.
  unfold Arr.at_. destruct (i <? 0)%Z; [discriminate|]. apply nth_error_In.
Qed.

Lemma selectionLoop_in s c :
  In c (selectionLoop s) ->
  In c.(lc_rowData) s.(rows) /\ In c.(lc_column) s.(columns).
Proof.
  unfold selectionLoop. intros H.
  apply in_flat_map in H as (sel & _ & H).
  apply in_flat_map in H as (row & _ & H).
  apply in_flat_map in H as (colIndex & _ & H).
  destruct (Arr.at_ (rows s) row) as [rowData|] eqn:Er; [|contradiction].
  destruct (Arr.at_ (columns s) colIndex) as [column|] eqn:Ec; [|contradiction].
  destruct H as [<-|[]]. simpl. split; eapply at_in; eassumption.
Qed.

Lemma NoDup_map_eq {A B} (f : A -> B) l x y :
  NoDup (map f l) -> In x l -> In y l -> f x = f y -> x = y.
Proof.
  induction l as [|a l IH]; intros Hnd Hx Hy E; [contradiction|].
  simpl in Hnd. inversion Hnd as [|? ? Ha Hl]; subst.
  destruct Hx as [->|Hx], Hy as [->|Hy]; auto.
  - exfalso. apply Ha. rewrite E. apply in_map. exact Hy.
  - exfalso. apply Ha. rewrite <- E. apply in_map. exact Hx.
Qed.

Variable s : State.
Variable f : LoopCell -> option Value.

Lemma collect_get l : forall o k v,
  (forall c, In c l -> loopKey c = k -> f c = Some v) ->
  (exists c, In c l /\ loopKey c = k) \/ Obj.get o k = Some v ->
  Obj.get (collectInto f l o) k = Some v.
Proof.
  induction l as [|c l IH]; intros o k v Hall H; simpl.
  - destruct H as [(c & [] & _)|H]. exact H.
  - apply IH; [intros c' Hc'; apply Hall; right; exact Hc'|].
    destruct (String.eqb_spec (loopKey c) k) as [E|E].
    + right. rewrite (Hall c (or_introl eq_refl) E), E. apply get_set_same.
    + destruct H as [(c' & [->|Hc'] & Hk)|H]; [congruence | left; eauto |].
      right. destruct (f c); [rewrite get_set_other by exact E|]; exact H.
Qed.

Lemma collect_keys l : forall o k,
  In k (Obj.keys (collectInto f l o)) ->
  In k (Obj.keys o) \/ exists c, In c l /\ loopKey c = k.
Proof.
  induction l as [|c l IH]; intros o k H; simpl in *; [left; exact H|].
  apply IH in H as [H|(c' & Hc' & Hk)]; [|right; eauto].
  destruct (f c); [|left; exact H].
  apply keys_set in H as [->|H]; [right; eauto | left; exact H].
Qed.

Lemma collect_NoDup l : forall o,
  NoDup (Obj.keys o) -> NoDup (Obj.keys (collectInto f l o)).
Proof.
  induction l as [|c l IH]; intros o Hnd; simpl; [exact Hnd|].
  apply IH. destruct (f c); [apply set_NoDup|]; exact Hnd.
Qed.

Hypothesis Hwf : wf_grid s.

Lemma loopKey_plain c : In c (selectionLoop s) -> plainKey (loopKey c).
Proof.
  intros Hc. apply selectionLoop_in in Hc as [_ Hcol].
  exists (rid (lc_rowData c)), (cid (lc_column c)). split; [reflexivity|].
  apply (wf_col_ids _ Hwf). exact Hcol.
Qed.

(** Two iterations with the same key are at the same row and column. *)
Lemma loopKey_cell c c' :
  In c (selectionLoop s) -> In c' (selectionLoop s) -> loopKey c = loopKey c' ->
  lc_rowData c = lc_rowData c' /\ lc_column c = lc_column c'.
Proof.
  intros Hc Hc' E. apply cellKey_inj in E as [Er Ec].
  apply selectionLoop_in in Hc as [Hr Hcol], Hc' as [Hr' Hcol'].
  split.
  - eapply (NoDup_map_eq rid); [apply (wf_rows _ Hwf) | | |]; eassumption.
  - eapply (NoDup_map_eq cid); [apply (wf_cols _ Hwf) | | |]; eassumption.
Qed.

(** A batch operation whose value depends on the row and column only
    leaves that value in every cell of the loop. *)
Lemma batch_writes (g : StudentGradeRow -> GradeColumn -> Value) c :
  (forall c', f c' = Some (g (lc_rowData c') (lc_column c'))) ->
  In c (selectionLoop s) ->
  cellValue (batchUpdate (collectUpdates s f) s) (rid (lc_rowData c)) (cid (lc_column c))
  = Some (Some (g (lc_rowData c) (lc_column c))).
Proof.
  intros Hf Hc.
  apply batchUpdate_writes.
  - apply (collect_NoDup (selectionLoop s) []). constructor.
  - intros k Hk. apply (collect_keys (selectionLoop s) []) in Hk as [[]|(c' & Hc' & <-)].
    apply loopKey_plain. exact Hc'.
  - apply (collect_get (selectionLoop s) []).
    + intros c' Hc' E. rewrite Hf.
      destruct (loopKey_cell c' c Hc' Hc E) as [-> ->]. reflexivity.
    + left. exists c. split; [exact Hc | reflexivity].
  - apply in_map. apply selectionLoop_in in Hc as [Hr _]. exact Hr.
Qed.

End BatchArithmetic.

Section SelectedCells.

Variable s : State.
Variable f : LoopCell -> option Value.

Hypothesis Hrows : NoDup (map rid s.(rows)).
Hypothesis Hcols : NoDup (map cid s.(columns)).
Hypothesis Hdash : forall col, In col s.(columns) -> no_dash col.(cid) = true.

Lemma loopKey_decodes c : In c (selectionLoop s) -> plainKey (loopKey c).
Proof.
  intros Hc. apply selectionLoop_in in Hc as [_ Hcol].
  exists (rid (lc_rowData c)), (cid (lc_column c)). split; [reflexivity|].
  apply Hdash. exact Hcol.
Qed.

Lemma loopKey_same_cell c c' :
  In c (selectionLoop s) -> In c' (selectionLoop s) -> loopKey c = loopKey c' ->
  lc_rowData c = lc_rowData c' /\ lc_column c = lc_column c'.
Proof.
  intros Hc Hc' E. apply cellKey_inj in E as [Er Ec].
  apply selectionLoop_in in Hc as [Hr Hcol], Hc' as [Hr' Hcol'].
  split.
  - exact (NoDup_map_eq rid (rows s) _ _ Hrows Hr Hr' Er).
  - exact (NoDup_map_eq cid (columns s) _ _ Hcols Hcol Hcol' Ec).
Qed.

(** A batch operation whose value depends on the row and column only
    leaves that value in every cell of the loop. *)
Lemma batch_writes_cell (g : StudentGradeRow -> GradeColumn -> Value) c :
  (forall c', f c' = Some (g (lc_rowData c') (lc_column c'))) ->
  In c (selectionLoop s) ->
  cellValue (batchUpdate (collectUpdates s f) s) (rid (lc_rowData c)) (cid (lc_column c))
  = Some (Some (g (lc_rowData c) (lc_column c))).
Proof.
  intros Hf Hc.
  apply batchUpdate_writes.
  - apply (collect_NoDup f (selectionLoop s) []). constructor.
  - intros k Hk. apply (collect_keys f (selectionLoop s) []) in Hk as [[]|(c' & Hc' & <-)].
    apply loopKey_decodes. exact Hc'.
  - apply (collect_get f (selectionLoop s) []).
    + intros c' Hc' E. rewrite Hf.
      destruct (loopKey_same_cell c' c Hc' Hc E) as [-> ->]. reflexivity.
    + left. exists c. split; [exact Hc | reflexivity].
  - apply in_map. apply selectionLoop_in in Hc as [Hr _]. exact Hr.
Qed.

End SelectedCells.

Section Clamp.

Lemma clampScore_range x top : (0 <= top)%Q -> (0 <= clampScore x top <= top)%Q.
Proof.
  intros Ht. unfold clampScore, Math_min, Math_max.
  destruct (Qle_bool 0 x) eqn:E0.
  - apply Qle_bool_iff in E0.
    destruct (Qle_bool x top) eqn:E1.
    + apply Qle_bool_iff in E1. split; assumption.
    + split; [exact Ht | apply Qle_refl].
  - destruct (Qle_bool 0 top) eqn:E1.
    + split; [apply Qle_refl | exact Ht].
    + split; [exact Ht | apply Qle_refl].
Qed.

Lemma clampScore_over x top : (top < x)%Q -> (0 <= top)%Q -> clampScore x top = top.
Proof.
  intros Hx Ht. unfold clampScore, Math_min, Math_max.
  assert (E0 : Qle_bool 0 x = true).
  { apply Qle_bool_iff. apply Qlt_le_weak. eapply Qle_lt_trans; eassumption. }
  rewrite E0.
  destruct (Qle_bool x top) eqn:E1; [|reflexivity].
  apply Qle_bool_iff in E1. exfalso. eapply Qlt_not_le; eassumption.
Qed.

Lemma clampScore_within x top : (0 <= x)%Q -> (x <= top)%Q -> clampScore x top = x.
Proof.
  intros H0 H1. unfold clampScore, Math_min, Math_max.
  apply Qle_bool_iff in H0, H1. rewrite H0, H1. reflexivity.
Qed.

Lemma clampScore_under x top : (x < 0)%Q -> (0 <= top)%Q -> clampScore x top = 0%Q.
Proof.
  intros Hx Ht. unfold clampScore, Math_min, Math_max.
  assert (E0 : Qle_bool 0 x = false).
  { destruct (Qle_bool 0 x) eqn:E; [|reflexivity].
    apply Qle_bool_iff in E. exfalso. eapply Qlt_not_le; eassumption. }
  rewrite E0. apply Qle_bool_iff in Ht. rewrite Ht. reflexivity.
Qed.

Lemma mul_zero x : mul x 0 = 0%Q.
Proof.
  unfold mul. change 0%Q with (Qred 0) at 2.
  apply Qred_complete. apply Qmult_0_r.
Qed.

Lemma clampScore_zero top : (0 <= top)%Q -> clampScore 0 top = 0%Q.
Proof.
  intros Ht. unfold clampScore, Math_min, Math_max. simpl.
  apply Qle_bool_iff in Ht. rewrite Ht. reflexivity.
Qed.

End Clamp.

(** C4, as stated: every cell of the selection is rewritten with the
    clamped result.  [batchUpdate] finds the cell of an update by splitting
    its key at ['-'], so a cell of the column "mid-term" is never written:
    with that cell at 95 selected, [addPoints(10)] leaves it at 95 and puts
    100 under the name "mid". *)
Lemma addPoints_misses_dashed_column :
  In Examples.dashedLoop (selectionLoop Examples.dashedSelected)
  /\ currentValue Examples.dashedLoop = 95%Q
  /\ maxScore (lc_column Examples.dashedLoop) = 100%Q
  /\ cellValue Examples.dashedSelected 1 "mid-term" = Some (Some (Some 95%Q))
  /\ cellValue (addPoints 10 Examples.dashedSelected) 1 "mid-term" = Some (Some (Some 95%Q))
  /\ cellValue (addPoints 10 Examples.dashedSelected) 1 "mid" = Some (Some (Some 100%Q)).
Proof.
  split; [left; reflexivity|].
  split; [reflexivity|].
  split; [reflexivity|].
  split; [reflexivity|].
  split; vm_compute; reflexivity.
Qed.

(** C4, amended: on a sheet whose rows have distinct ids and whose columns
    have distinct ids that hold no ['-'], for every cell the selection loop
    visits on a column with [maxScore >= 0], [addPoints] and [multiplyBy]
    read the cell's current value with absence read as 0, apply the
    transform and leave [Math.min(Math.max(0, result), maxScore)] in the
    cell: the result itself when it lies in [[0, maxScore]], 0 when it is
    below 0 and [maxScore] when it is above; a cell at 95 on a column with
    maxScore 100 is left at 100 by [addPoints(10)], and [multiplyBy(0)]
    leaves the number 0, not absence. *)
Theorem arithmetic_is_clamped (s : State) (c : LoopCell) :
  NoDup (map rid s.(rows)) ->
  NoDup (map cid s.(columns)) ->
  (forall col, In col s.(columns) -> no_dash col.(cid) = true) ->
  In c (selectionLoop s) -> (0 <= maxScore (lc_column c))%Q ->
  let rowId := rid (lc_rowData c) in
  let columnId := cid (lc_column c) in
  let top := maxScore (lc_column c) in
  cellValue s rowId columnId = Some (Obj.get (grades (lc_rowData c)) columnId)
  /\ currentValue c = nullish (nullish (Obj.get (grades (lc_rowData c)) columnId) None) 0%Q
  /\ (forall points,
        cellValue (addPoints points s) rowId columnId
        = Some (Some (Some (clampScore (add (currentValue c) points) top)))
        /\ (0 <= clampScore (add (currentValue c) points) top <= top)%Q)
  /\ (forall factor,
        cellValue (multiplyBy factor s) rowId columnId
        = Some (Some (Some (clampScore (mul (currentValue c) factor) top)))
        /\ (0 <= clampScore (mul (currentValue c) factor) top <= top)%Q)
  /\ (forall x, (0 <= x)%Q -> (x <= top)%Q -> clampScore x top = x)
  /\ (forall x, (x < 0)%Q -> clampScore x top = 0%Q)
  /\ (forall x, (top < x)%Q -> clampScore x top = top)
  /\ ((currentValue c == 95)%Q -> (top == 100)%Q ->
        (clampScore (add (currentValue c) 10) top == 100)%Q)
  /\ cellValue (multiplyBy 0 s) rowId columnId = Some (Some (Some 0%Q)).
Proof.
  intros Hrows Hcols Hdash Hc Htop rowId columnId top.
  assert (Hadd : forall points,
             cellValue (addPoints points s) rowId columnId
             = Some (Some (Some (clampScore (add (currentValue c) points) top)))).
  { intros points. unfold addPoints.
    apply (batch_writes_cell s _ Hrows Hcols Hdash
             (fun r col => Some (clampScore
                                   (add (nullish (grade_at (grades r) (cid col)) 0%Q) points)
                                   (maxScore col))) c);
      [reflexivity | exact Hc]. }
  assert (Hmul : forall factor,
             cellValue (multiplyBy factor s) rowId columnId
             = Some (Some (Some (clampScore (mul (currentValue c) factor) top)))).
  { intros factor. unfold multiplyBy.
    apply (batch_writes_cell s _ Hrows Hcols Hdash
             (fun r col => Some (clampScore
                                   (mul (nullish (grade_at (grades r) (cid col)) 0%Q) factor)
                                   (maxScore col))) c);
      [reflexivity | exact Hc]. }
  split.
  { destruct (selectionLoop_in s c Hc) as [Hr _].
    unfold cellValue.
    destruct (find (row_is rowId) (rows s)) as [row|] eqn:F.
    + apply find_some in F as [Hin E]. apply N.eqb_eq in E.
      rewrite (NoDup_map_eq rid (rows s) row (lc_rowData c) Hrows Hin Hr E).
      reflexivity.
    + apply (find_none _ _ F) in Hr. unfold row_is, rowId in Hr.
      rewrite N.eqb_refl in Hr. discriminate. }
  split; [reflexivity|].
  split.
  { intros points. split; [apply Hadd | apply clampScore_range; exact Htop]. }
  split.
  { intros factor. split; [apply Hmul | apply clampScore_range; exact Htop]. }
  split.
  { intros x H0 H1. apply clampScore_within; assumption. }
  split.
  { intros x Hx. apply clampScore_under; assumption. }
  split.
  { intros x Hx. apply clampScore_over; assumption. }
  split.
  { intros Hcur Ht.
    rewrite clampScore_over; [exact Ht | | exact Htop].
    unfold add. rewrite Qred_correct, Hcur, Ht. reflexivity. }
  rewrite Hmul, mul_zero, clampScore_zero by exact Htop. reflexivity.
Qed.

Lemma arithmetic_is_clamped_witness :
  cellValue (addPoints 10 Examples.selected95) 1 "assignment1" = Some (Some (Some 100%Q))
  /\ cellValue (addPoints 3 Examples.selected95) 1 "assignment1" = Some (Some (Some 98%Q))
  /\ cellValue (addPoints (-100) Examples.selected95) 1 "assignment1" = Some (Some (Some 0%Q))
  /\ cellValue (multiplyBy (1 # 2) Examples.selected95) 1 "assignment1"
     = Some (Some (Some (95 # 2)))
  /\ cellValue (multiplyBy 0 Examples.selected95) 1 "assignment1" = Some (Some (Some 0%Q)).
Proof.
  assert (Hrows : NoDup (map rid (rows Examples.selected95))).
  { simpl. repeat constructor; simpl; intuition. }
  assert (Hcols : NoDup (map cid (columns Examples.selected95))).
  { simpl. repeat constructor; simpl; intuition. }
  assert (Hdash : forall col, In col (columns Examples.selected95) -> no_dash (cid col) = true).
  { intros col [<-|[]]. reflexivity. }
  assert (Hin : In Examples.loop95 (selectionLoop Examples.selected95))
    by (left; reflexivity).
  assert (Htop : (0 <= maxScore (lc_column Examples.loop95))%Q) by discriminate.
  destruct (arithmetic_is_clamped Examples.selected95 Examples.loop95
              Hrows Hcols Hdash Hin Htop)
    as (_ & _ & Hadd & Hmul & _ & _ & _ & _ & Hzero).
  split; [exact (proj1 (Hadd 10%Q))|].
  split; [exact (proj1 (Hadd 3%Q))|].
  split; [exact (proj1 (Hadd (-100)%Q))|].
  split; [exact (proj1 (Hmul (1 # 2)%Q)) | exact Hzero].
Defined.

(* ----------------------------------------------------------------- *)
(** ** Arrow and Tab navigation *)

Section Navigation.
Import ExcelNavigation.

Ltac zbool :=
  repeat match goal with
         | H : (_ <? _)%Z = true |- _ => apply Z.ltb_lt in H
         | H : (_ <? _)%Z = false |- _ => apply Z.ltb_ge in H
         | H : (_ <=? _)%Z = true |- _ => apply Z.leb_le in H
         | H : (_ <=? _)%Z = false |- _ => apply Z.leb_gt in H
         end.

Ltac zcases :=
  repeat match goal with
         | |- context [(?a <? ?b)%Z] => destruct (a <? b)%Z eqn:?
         | |- context [(?a <=? ?b)%Z] => destruct (a <=? b)%Z eqn:?
         end; zbool; simpl in *; zbool.

Lemma inGridb_spec R C p : inGridb R C p = true <-> inGrid R C p.
Proof.
  unfold inGridb, inGrid.
  rewrite !andb_true_iff, !Z.leb_le, !Z.ltb_lt. tauto.
Qed.

(** Where an arrow leads from a cell of the grid. *)
Lemma getNextPosition_from_grid nav r c d R C :
  inGrid R C (r, c) ->
  getNextPosition nav r c d R C =
  Some (if inGridb R C (neighbour d (r, c)) then neighbour d (r, c)
        else if wrapAround nav then farEdge d R C (r, c) else (r, c)).
Proof.
  intros [[H1 H2] [H3 H4]]. cbn [fst snd] in *.
  assert (Er1 : (r <? 0)%Z = false) by (apply Z.ltb_ge; lia).
  assert (Er2 : (R <=? r)%Z = false) by (apply Z.leb_gt; lia).
  assert (Er3 : (0 <=? r)%Z = true) by (apply Z.leb_le; lia).
  assert (Er4 : (r <? R)%Z = true) by (apply Z.ltb_lt; lia).
  assert (Er5 : Z.max 0 (Z.min (R - 1) r) = r) by lia.
  assert (Ec1 : (c <? 0)%Z = false) by (apply Z.ltb_ge; lia).
  assert (Ec2 : (C <=? c)%Z = false) by (apply Z.leb_gt; lia).
  assert (Ec3 : (0 <=? c)%Z = true) by (apply Z.leb_le; lia).
  assert (Ec4 : (c <? C)%Z = true) by (apply Z.ltb_lt; lia).
  assert (Ec5 : Z.max 0 (Z.min (C - 1) c) = c) by lia.
  unfold getNextPosition, inGridb, neighbour, farEdge.
  destruct (wrapAround nav); destruct d; cbv zeta; cbn [fst snd];
    rewrite ?Er1, ?Er2, ?Er3, ?Er4, ?Er5, ?Ec1, ?Ec2, ?Ec3, ?Ec4, ?Ec5;
    cbn [fst snd andb];
    rewrite ?Er1, ?Er2, ?Er3, ?Er4, ?Er5, ?Ec1, ?Ec2, ?Ec3, ?Ec4, ?Ec5;
    zcases; try lia; try reflexivity; f_equal; f_equal; lia.
Qed.

(** X1: from a cell of the grid an arrow key always lands on a cell of the
    grid: on the neighbour when there is one, otherwise on the cell itself
    (no wrap-around) or on the far end of the same row or column
    (wrap-around). *)
Theorem getNextPosition_lands_in_grid nav r c d R C :
  inGrid R C (r, c) ->
  exists p,
    getNextPosition nav r c d R C = Some p
    /\ inGrid R C p
    /\ (inGrid R C (neighbour d (r, c)) -> p = neighbour d (r, c))
    /\ (~ inGrid R C (neighbour d (r, c)) ->
        p = if wrapAround nav then farEdge d R C (r, c) else (r, c)).
Proof.
  intros Hin. rewrite (getNextPosition_from_grid nav r c d R C Hin).
  eexists. split; [reflexivity|].
  destruct (inGridb R C (neighbour d (r, c))) eqn:E.
  - apply inGridb_spec in E. repeat split; try apply E; tauto.
  - assert (Hn : ~ inGrid R C (neighbour d (r, c))).
    { intros H. apply inGridb_spec in H. congruence. }
    split; [|split; [tauto | reflexivity]].
    destruct Hin as [[H1 H2] [H3 H4]]. simpl in *.
    destruct (wrapAround nav); [|split; simpl; lia].
    unfold inGrid, neighbour in Hn.
    destruct d; unfold farEdge, inGrid; simpl in *; lia.
Qed.

Lemma getNextPosition_lands_in_grid_witness :
  exists p,
    ExcelNavigation.getNextPosition (ExcelNavigation.make None None) 2 1 Down 3 2 = Some p
    /\ inGrid 3 2 p
    /\ (inGrid 3 2 (neighbour Down (2, 1)%Z) -> p = neighbour Down (2, 1)%Z)
    /\ (~ inGrid 3 2 (neighbour Down (2, 1)%Z) ->
        p = if ExcelNavigation.wrapAround (ExcelNavigation.make None None)
            then farEdge Down 3 2 (2, 1)%Z else (2, 1)%Z).
Proof.
  apply (getNextPosition_lands_in_grid (ExcelNavigation.make None None) 2 1 Down 3 2).
  unfold inGrid. simpl. lia.
Defined.

(** X2: with wrap-around, the opposite arrow undoes an arrow, at the edges
    of the grid too. *)
Theorem getNextPosition_wrap_inverse nav r c d R C p :
  wrapAround nav = true ->
  inGrid R C (r, c) ->
  getNextPosition nav r c d R C = Some p ->
  getNextPosition nav (fst p) (snd p) (opposite d) R C = Some (r, c).
Proof.
  intros Hw Hin E.
  rewrite (getNextPosition_from_grid nav r c d R C Hin), Hw in E.
  injection E as <-.
  assert (Hp : inGrid R C
                 (if inGridb R C (neighbour d (r, c)) then neighbour d (r, c)
                  else farEdge d R C (r, c))).
  { destruct (inGridb R C (neighbour d (r, c))) eqn:E; [apply inGridb_spec; exact E|].
    destruct Hin as [[H1 H2] [H3 H4]].
    destruct d; unfold farEdge, inGrid; simpl in *; lia. }
  rewrite getNextPosition_from_grid, Hw by (rewrite <- surjective_pairing; exact Hp).
  rewrite <- surjective_pairing.
  f_equal.
  destruct Hin as [[H1 H2] [H3 H4]]. cbn [fst snd] in *.
  destruct (inGridb R C (neighbour d (r, c))) eqn:E1;
    [apply inGridb_spec in E1 | apply not_true_iff_false in E1; rewrite inGridb_spec in E1];
    match goal with
    | |- (if inGridb ?R ?C ?q then _ else _) = _ =>
        destruct (inGridb R C q) eqn:E2;
        [apply inGridb_spec in E2 | apply not_true_iff_false in E2; rewrite inGridb_spec in E2]
    end;
    destruct d; unfold inGrid, neighbour, farEdge, opposite in *; cbn [fst snd] in *;
    try (f_equal; lia); exfalso; lia.
Qed.

Lemma getNextPosition_wrap_inverse_witness :
  ExcelNavigation.getNextPosition (ExcelNavigation.make None None) 0 1 Up 3 2 = Some (2, 1)%Z.
Proof.
  apply (getNextPosition_wrap_inverse (ExcelNavigation.make None None) 2 1 Down 3 2 (0, 1)%Z).
  - reflexivity.
  - unfold inGrid. simpl. lia.
  - reflexivity.
Defined.

(** X3: Tab goes through the grid row by row, Shift+Tab goes back the same
    way and each undoes the other; a move is refused only without
    wrap-around, by Tab on the last cell and by Shift+Tab on the first. *)
Theorem getTabNextPosition_row_major nav r c R C :
  inGrid R C (r, c) ->
  (forall p, getTabNextPosition nav r c true R C = Some p ->
     inGrid R C p
     /\ rowMajor C p = ((rowMajor C (r, c) + 1) mod (R * C))%Z
     /\ getTabNextPosition nav (fst p) (snd p) false R C = Some (r, c))
  /\ (forall p, getTabNextPosition nav r c false R C = Some p ->
     inGrid R C p
     /\ rowMajor C p = ((rowMajor C (r, c) - 1) mod (R * C))%Z
     /\ getTabNextPosition nav (fst p) (snd p) true R C = Some (r, c))
  /\ (getTabNextPosition nav r c true R C = None <->
      wrapAround nav = false /\ (r, c) = (R - 1, C - 1)%Z)
  /\ (getTabNextPosition nav r c false R C = None <->
      wrapAround nav = false /\ (r, c) = (0, 0)%Z).
Proof.
  intros [[H1 H2] [H3 H4]]. cbn [fst snd] in *.
  assert (HRC : (0 < R * C)%Z) by nia.
  unfold getTabNextPosition, inGrid, rowMajor.
  split; [|split; [|split]].
  - intros p.
    destruct (c <? C - 1)%Z eqn:E1; [|destruct (r <? R - 1)%Z eqn:E2;
      [|destruct (wrapAround nav) eqn:W; [|discriminate]]];
      zbool; intros E; injection E as <-; cbn [fst snd].
    + assert (G : (0 <? c + 1)%Z = true) by (apply Z.ltb_lt; lia).
      rewrite G. repeat split; try lia.
      * rewrite Z.mod_small; nia.
      * do 2 f_equal. lia.
    + assert (G1 : (0 <? 0)%Z = false) by reflexivity.
      assert (G2 : (0 <? r + 1)%Z = true) by (apply Z.ltb_lt; lia).
      rewrite G1, G2. repeat split; try lia.
      * rewrite Z.mod_small; nia.
      * do 2 f_equal; lia.
    + assert (G1 : (0 <? 0)%Z = false) by reflexivity.
      rewrite G1, ?W. repeat split; try lia.
      * replace (r * C + c + 1)%Z with (1 * (R * C))%Z by nia.
        rewrite Z.mod_mul by lia. lia.
      * do 2 f_equal; lia.
  - intros p.
    destruct (0 <? c)%Z eqn:E1; [|destruct (0 <? r)%Z eqn:E2;
      [|destruct (wrapAround nav) eqn:W; [|discriminate]]];
      zbool; intros E; injection E as <-; cbn [fst snd].
    + assert (G : (c - 1 <? C - 1)%Z = true) by (apply Z.ltb_lt; lia).
      rewrite G. repeat split; try lia.
      * rewrite Z.mod_small; nia.
      * do 2 f_equal. lia.
    + assert (G1 : (C - 1 <? C - 1)%Z = false) by (apply Z.ltb_irrefl).
      assert (G2 : (r - 1 <? R - 1)%Z = true) by (apply Z.ltb_lt; lia).
      rewrite G1, G2. repeat split; try lia.
      * rewrite Z.mod_small; nia.
      * do 2 f_equal; lia.
    + assert (G1 : (C - 1 <? C - 1)%Z = false) by (apply Z.ltb_irrefl).
      assert (G2 : (R - 1 <? R - 1)%Z = false) by (apply Z.ltb_irrefl).
      rewrite G1, G2, ?W.
      assert (r = 0%Z /\ c = 0%Z) as [-> ->] by lia.
      repeat split; try lia.
      replace (0 * C + 0 - 1)%Z with (R * C - 1 + (-1) * (R * C))%Z by lia.
      rewrite Z.mod_add by lia. rewrite Z.mod_small; nia.
  - destruct (c <? C - 1)%Z eqn:E1; [|destruct (r <? R - 1)%Z eqn:E2;
      [|destruct (wrapAround nav) eqn:W]]; zbool;
      (split; [try discriminate | try (intros [_ E]; injection E; lia)]).
    + intros [E _]. discriminate.
    + intros _. split; [reflexivity | f_equal; lia].
    + reflexivity.
  - destruct (0 <? c)%Z eqn:E1; [|destruct (0 <? r)%Z eqn:E2;
      [|destruct (wrapAround nav) eqn:W]]; zbool;
      (split; [try discriminate | try (intros [_ E]; injection E; lia)]).
    + intros [E _]. discriminate.
    + intros _. split; [reflexivity | f_equal; lia].
    + reflexivity.
Qed.

Lemma getTabNextPosition_row_major_witness :
  ExcelNavigation.getTabNextPosition (ExcelNavigation.make (Some false) None) 2 1 true 3 2 = None
  <-> ExcelNavigation.wrapAround (ExcelNavigation.make (Some false) None) = false
      /\ (2, 1)%Z = (3 - 1, 2 - 1)%Z.
Proof.
  apply (getTabNextPosition_row_major (ExcelNavigation.make (Some false) None) 2 1 3 2).
  unfold inGrid. simpl. lia.
Defined.

End Navigation.

(* ----------------------------------------------------------------- *)
(** ** What a selection holds *)

Section SelectionMembership.
Import SelectionManager.

Lemma string_leb_refl s : String.leb s s = true.
Proof.
  destruct (String.leb_total s s); assumption.
Qed.

Lemma string_leb_both a b : String.leb a b && String.leb b a = true <-> a = b.
Proof.
  split.
  - intros H. apply andb_prop in H as [H1 H2]. apply String.leb_antisym; assumption.
  - intros ->. rewrite string_leb_refl. reflexivity.
Qed.

Lemma zle_both a b : ((a <=? b) && (b <=? a))%Z = true <-> b = a.
Proof.
  rewrite andb_true_iff, !Z.leb_le. lia.
Qed.

(** X4: after a plain [selectCell] exactly the clicked cell is selected. *)
Theorem selectCell_selects_one_cell rowId columnId m r c :
  isCellSelected r c (selectCell rowId columnId false m) = true
  <-> r = rowId /\ c = columnId.
Proof.
  unfold isCellSelected, selectCell. cbn.
  rewrite orb_false_r, andb_true_iff, zle_both, string_leb_both.
  intuition congruence.
Qed.

(** X5: after [selectRow] a cell is selected exactly when it is in that
    row, whatever its column. *)
Theorem selectRow_selects_the_row rowId m r c :
  isCellSelected r c (selectRow rowId false m) = true <-> r = rowId.
Proof.
  unfold isCellSelected, selectRow. cbn.
  rewrite orb_false_r, andb_true_r, zle_both. reflexivity.
Qed.

(** X6: after [selectColumn] a cell is selected exactly when it is in that
    column and its row is between 0 and [Number.MAX_SAFE_INTEGER]. *)
Theorem selectColumn_selects_the_column columnId m r c :
  isCellSelected r c (selectColumn columnId false m) = true
  <-> (0 <= r <= MAX_SAFE_INTEGER)%Z /\ c = columnId.
Proof.
  unfold isCellSelected, selectColumn. cbn [negb selections existsb s_type is_row_kind
    startRow endRow startColumn endColumn orb].
  rewrite orb_false_r, !andb_true_iff, !Z.leb_le.
  rewrite <- andb_true_iff, string_leb_both. intuition congruence.
Qed.

(** X7: [selectAll] stores a range from column [''] to column [''], so
    [isCellSelected] holds only for the empty column id: no cell of a named
    column counts as selected; and with the anchor reset, an extending
    [selectCell] changes nothing. *)
Theorem selectAll_selects_no_named_column m r c :
  (isCellSelected r c (selectAll m) = true
   <-> (0 <= r <= MAX_SAFE_INTEGER)%Z /\ c = EmptyString)
  /\ (c <> EmptyString -> isCellSelected r c (selectAll m) = false)
  /\ (forall r' c', selectCell r' c' true (selectAll m) = selectAll m).
Proof.
  assert (H : isCellSelected r c (selectAll m) = true
              <-> (0 <= r <= MAX_SAFE_INTEGER)%Z /\ c = EmptyString).
  { unfold isCellSelected, selectAll. cbn [selections existsb s_type is_row_kind
      startRow endRow startColumn endColumn orb].
    rewrite orb_false_r, !andb_true_iff, !Z.leb_le.
    rewrite <- andb_true_iff, string_leb_both. intuition congruence. }
  split; [exact H|]. split; [|reflexivity].
  intros Hc. apply not_true_is_false. intros E.
  apply H in E as [_ E]. contradiction.
Qed.

(** X8: after an extension from anchor [a] to target [t] a cell is selected
    exactly when its row is between the two rows and its column id is, as a
    string, at or after the anchor's and at or before the target's; the
    anchor and the target themselves are selected only if the anchor's
    column id does not sort after the target's. *)
Theorem extension_membership (a t : Z * string) ts m0 r c :
  let m := extendAll (ts ++ [t]) (selectCell (fst a) (snd a) false m0) in
  (isCellSelected r c m = true
   <-> (Z.min (fst a) (fst t) <= r <= Z.max (fst a) (fst t))%Z
       /\ String.leb (snd a) c = true /\ String.leb c (snd t) = true)
  /\ isCellSelected (fst a) (snd a) m = String.leb (snd a) (snd t)
  /\ isCellSelected (fst t) (snd t) m = String.leb (snd a) (snd t).
Proof.
  intros m.
  assert (Hs : selections m =
               [mkSelection (Z.min (fst a) (fst t)) (Z.max (fst a) (fst t))
                  (snd a) (snd t) KRange]).
  { subst m. rewrite extendAll_snoc.
    pose proof (extendAll_anchor ts (selectCell (fst a) (snd a) false m0)) as A.
    unfold selectCell at 1. cbn [negb]. rewrite A. destruct a. reflexivity. }
  unfold isCellSelected. rewrite Hs.
  cbn [existsb s_type is_row_kind startRow endRow startColumn endColumn orb].
  rewrite !orb_false_r.
  split; [|split].
  - rewrite !andb_true_iff, !Z.leb_le. tauto.
  - rewrite string_leb_refl.
    replace ((Z.min (fst a) (fst t) <=? fst a)%Z) with true by (symmetry; apply Z.leb_le; lia).
    replace ((fst a <=? Z.max (fst a) (fst t))%Z) with true by (symmetry; apply Z.leb_le; lia).
    reflexivity.
  - rewrite string_leb_refl, andb_true_r.
    replace ((Z.min (fst a) (fst t) <=? fst t)%Z) with true by (symmetry; apply Z.leb_le; lia).
    replace ((fst t <=? Z.max (fst a) (fst t))%Z) with true by (symmetry; apply Z.leb_le; lia).
    reflexivity.
Qed.

End SelectionMembership.

(* ----------------------------------------------------------------- *)
(** ** The rendered block *)

Section RenderedBlock.
Import VirtualScroll.

Lemma ceiling_nonneg (H V : Q) : (0 < H)%Q -> (0 <= V)%Q -> (0 <= Qceiling (V / H))%Z.
Proof.
  intros HH HV.
  assert (Hq : (0 <= V / H)%Q).
  { apply Qle_shift_div_l; [exact HH|]. rewrite Qmult_0_l. exact HV. }
  pose proof (Qle_ceiling (V / H)) as Hc.
  rewrite (Zle_Qle 0). eapply Qle_trans; eassumption.
Qed.

Lemma slice_length {A} (b e : Z) (l : list A) :
  (0 <= b)%Z -> (0 <= e)%Z ->
  List.length (Arr.slice b e l)
  = Z.to_nat (Z.min e (Z.of_nat (List.length l)) - Z.min b (Z.of_nat (List.length l))).
Proof.
  intros Hb He. unfold Arr.slice.
  destruct (b <? 0)%Z eqn:Eb; [apply Z.ltb_lt in Eb; lia|].
  destruct (e <? 0)%Z eqn:Ee; [apply Z.ltb_lt in Ee; lia|].
  rewrite length_firstn, length_skipn. lia.
Qed.

Lemma slice_nth {A} (b e : Z) (l : list A) (k : nat) :
  (0 <= b)%Z -> (0 <= e)%Z ->
  (k < List.length (Arr.slice b e l))%nat ->
  nth_error (Arr.slice b e l) k = nth_error l (Z.to_nat b + k).
Proof.
  intros Hb He Hk.
  rewrite slice_length in Hk by assumption.
  unfold Arr.slice.
  destruct (b <? 0)%Z eqn:Eb; [apply Z.ltb_lt in Eb; lia|].
  destruct (e <? 0)%Z eqn:Ee; [apply Z.ltb_lt in Ee; lia|].
  rewrite nth_error_firstn.
  destruct (Nat.ltb_spec k
              (Z.to_nat (Z.min e (Z.of_nat (List.length l)) - Z.min b (Z.of_nat (List.length l)))));
    [|lia].
  rewrite nth_error_skipn. f_equal. lia.
Qed.

(** X9: with virtualization on, a non-negative overscan and container
    height, the number of rows handed to the renderer is at most
    [ceil(containerHeight / itemHeight) + 2 * overscan], whatever the number
    of rows and the scroll offset. *)
Theorem visibleItems_bounded {T} (items : list T) (o : VirtualScrollOptions) (S : Q) :
  showAll (List.length items) o = false ->
  (0 < o.(itemHeight))%Q -> (0 <= o.(containerHeight))%Q ->
  (0 <= overscan_of o)%Z ->
  (List.length (visibleItems items o S)
   <= Z.to_nat (Qceiling (o.(containerHeight) / o.(itemHeight)) + 2 * overscan_of o))%nat.
Proof.
  intros Hall HH HV Hov.
  pose proof (ceiling_nonneg _ _ HH HV) as Hc.
  unfold visibleItems. rewrite Hall.
  assert (Ha : (0 <= startIndex (List.length items) o S)%Z).
  { unfold startIndex. rewrite Hall. lia. }
  assert (Hb : (0 <= endIndex (List.length items) o S)%Z).
  { unfold endIndex. rewrite Hall. unfold Math_ceil. lia. }
  rewrite slice_length by assumption.
  unfold endIndex. rewrite Hall. unfold Math_ceil. lia.
Qed.

Lemma visibleItems_bounded_witness :
  (List.length (VirtualScroll.visibleItems (repeat tt 200) Examples.buffered 500)
   <= Z.to_nat (Qceiling (20 / 10) + 2 * 1))%nat.
Proof.
  apply (visibleItems_bounded (repeat tt 200) Examples.buffered 500).
  - reflexivity.
  - reflexivity.
  - discriminate.
  - discriminate.
Defined.

(** The same bound holds of the window computed on doubles: the ceiling of
    the rounded quotient is never above the exact one. *)
Lemma visibleItems_bounded_on_doubles {T} (items : list T) (o : VirtualScrollOptions) (S : Q) :
  showAll (List.length items) o = false ->
  (0 < o.(itemHeight))%Q -> (0 <= o.(containerHeight))%Q ->
  (0 <= overscan_of o)%Z ->
  (Qceiling (o.(containerHeight) / o.(itemHeight)) <= 2 ^ 53)%Z ->
  (List.length (VirtualScroll64.visibleItems items o S)
   <= Z.to_nat (Qceiling (o.(containerHeight) / o.(itemHeight)) + 2 * overscan_of o))%nat.
Proof.
  intros Hall HH HV Hov Hmax.
  pose proof (ceiling_round64 _ (quotient_nonneg _ _ HH HV) Hmax) as Hc.
  unfold VirtualScroll64.visibleItems. rewrite Hall.
  assert (Ha : (0 <= VirtualScroll64.startIndex (List.length items) o S)%Z).
  { unfold VirtualScroll64.startIndex. rewrite Hall. lia. }
  assert (Hc0 : (0 <= Math_ceil (Double.div (containerHeight o) (itemHeight o)))%Z).
  { unfold Math_ceil, Double.div.
    apply (Qceiling_resp_le 0). apply round64_nonneg. apply quotient_nonneg; assumption. }
  assert (Hb : (0 <= VirtualScroll64.endIndex (List.length items) o S)%Z).
  { unfold VirtualScroll64.endIndex. rewrite Hall. lia. }
  rewrite slice_length by assumption.
  unfold VirtualScroll64.endIndex. rewrite Hall.
  unfold Math_ceil, Double.div in *. lia.
Qed.

(** Without overscan the block can start below the top of the viewport:
    with rows 97.6 high, [414311.99999999994 / 97.6] is the double 4245
    although the quotient itself is below 4245, so row 4245 is taken for the
    first visible one and the block is put at 414312. *)
Lemma block_below_viewport_top_without_overscan :
  VirtualScroll64.startIndex 5000 Examples.tallBare Examples.deepScroll = 4245%Z
  /\ Qfloor (Examples.deepScroll / itemHeight Examples.tallBare) = 4244%Z
  /\ (VirtualScroll64.offsetY 5000 Examples.tallBare Examples.deepScroll == 414312)%Q
  /\ (Examples.deepScroll < VirtualScroll64.offsetY 5000 Examples.tallBare Examples.deepScroll)%Q.
Proof.
  split; [vm_compute; reflexivity|].
  split; [vm_compute; reflexivity|].
  split; vm_compute; reflexivity.
Qed.

(** X10: in the engine's double arithmetic, with virtualization on, at
    least one row of overscan, fewer than [2^53] rows and a scroll offset
    that is a double in [[0, R * H]], the [k]-th rendered row is row
    [startIndex + k], and the block, pushed down by [startIndex * itemHeight],
    starts between the top of the content and the top of the viewport. *)
Theorem visibleItems_in_place {T} (items : list T) (o : VirtualScrollOptions) (S : Q) :
  showAll (List.length items) o = false ->
  (0 < o.(itemHeight))%Q -> (0 <= o.(containerHeight))%Q ->
  (1 <= overscan_of o)%Z ->
  (Z.of_nat (List.length items) < 2 ^ 53)%Z ->
  (0 <= S)%Q -> (S <= inject_Z (Z.of_nat (List.length items)) * o.(itemHeight))%Q ->
  (Double.round64 S == S)%Q ->
  (forall k, (k < List.length (VirtualScroll64.visibleItems items o S))%nat ->
     nth_error (VirtualScroll64.visibleItems items o S) k
     = nth_error items
         (Z.to_nat (VirtualScroll64.startIndex (List.length items) o S) + k))
  /\ (0 <= VirtualScroll64.offsetY (List.length items) o S)%Q
  /\ (VirtualScroll64.offsetY (List.length items) o S <= S)%Q.
Proof.
  intros Hall HH HV Hov Hlen HS Hmax Hdbl.
  pose proof (rounded_floor _ _ _ HH HS Hmax Hlen) as Hf'.
  assert (Hfl : (0 <= Qfloor (S / itemHeight o))%Z).
  { apply Qfloor_resp_le with (x := 0%Q) (y := (S / itemHeight o)%Q).
    apply quotient_nonneg; assumption. }
  assert (Hc : (0 <= Math_ceil (Double.div (containerHeight o) (itemHeight o)))%Z).
  { unfold Math_ceil, Double.div.
    apply (Qceiling_resp_le 0). apply round64_nonneg. apply quotient_nonneg; assumption. }
  assert (Ha : (0 <= VirtualScroll64.startIndex (List.length items) o S)%Z).
  { unfold VirtualScroll64.startIndex. rewrite Hall. lia. }
  assert (Hb : (0 <= VirtualScroll64.endIndex (List.length items) o S)%Z).
  { unfold VirtualScroll64.endIndex. rewrite Hall. lia. }
  assert (Hs : (VirtualScroll64.startIndex (List.length items) o S
                <= Qfloor (S / itemHeight o))%Z).
  { unfold VirtualScroll64.startIndex. rewrite Hall. lia. }
  split; [|split].
  - intros k Hk. unfold VirtualScroll64.visibleItems in *. rewrite Hall in *.
    apply slice_nth; assumption.
  - unfold VirtualScroll64.offsetY. rewrite Hall. unfold Double.mul.
    apply round64_nonneg. apply Qmult_le_0_compat; [|apply Qlt_le_weak; exact HH].
    change 0%Q with (inject_Z 0). rewrite <- Zle_Qle. exact Ha.
  - unfold VirtualScroll64.offsetY. rewrite Hall. unfold Double.mul.
    rewrite <- Hdbl at 2. apply round64_mono.
    + apply Qmult_le_0_compat; [|apply Qlt_le_weak; exact HH].
      change 0%Q with (inject_Z 0). rewrite <- Zle_Qle. exact Ha.
    + destruct (floor_bounds (itemHeight o) S HH) as [Hf _].
      eapply Qle_trans; [|exact Hf].
      apply Qmult_le_compat_r; [|apply Qlt_le_weak; exact HH].
      rewrite <- Zle_Qle. exact Hs.
Qed.

Lemma visibleItems_in_place_witness :
  (VirtualScroll64.offsetY (List.length (repeat tt 5000)) Examples.tall Examples.deepScroll
   <= Examples.deepScroll)%Q.
Proof.
  assert (Hall : showAll (List.length (repeat tt 5000)) Examples.tall = false)
    by (vm_compute; reflexivity).
  assert (HH : (0 < itemHeight Examples.tall)%Q) by (vm_compute; reflexivity).
  assert (HV : (0 <= containerHeight Examples.tall)%Q) by (vm_compute; discriminate).
  assert (Hov : (1 <= overscan_of Examples.tall)%Z) by (vm_compute; discriminate).
  assert (Hlen : (Z.of_nat (List.length (repeat tt 5000)) < 2 ^ 53)%Z)
    by (vm_compute; reflexivity).
  assert (HS : (0 <= Examples.deepScroll)%Q) by (vm_compute; discriminate).
  assert (Hmax : (Examples.deepScroll
                  <= inject_Z (Z.of_nat (List.length (repeat tt 5000)))
                     * itemHeight Examples.tall)%Q) by (vm_compute; discriminate).
  assert (Hdbl : (Double.round64 Examples.deepScroll == Examples.deepScroll)%Q)
    by (vm_compute; reflexivity).
  exact (proj2 (proj2 (visibleItems_in_place (repeat tt 5000) Examples.tall
                         Examples.deepScroll Hall HH HV Hov Hlen HS Hmax Hdbl))).
Defined.

End RenderedBlock.

(* ----------------------------------------------------------------- *)
(** ** Derived scores *)

Section DerivedScores.

Lemma update_first_Forall {A} (P : A -> Prop) p f l :
  (forall x, P (f x)) -> Forall P l -> Forall P (Arr.update_first p f l).
Proof.
  intros Hf. induction 1 as [|x l Hx Hl IH]; simpl; [constructor|].
  destruct (p x); constructor; auto.
Qed.

Lemma update_first_Forall_keep {A} (P : A -> Prop) p f l :
  (forall x, P x -> P (f x)) -> Forall P l -> Forall P (Arr.update_first p f l).
Proof.
  intros Hf. induction 1 as [|x l Hx Hl IH]; simpl; [constructor|].
  destruct (p x); constructor; auto.
Qed.

Lemma assignRanks_Forall (P : StudentGradeRow -> Prop) sorted :
  (forall v x, P x -> P (set_rank v x)) ->
  forall index rs, Forall P rs -> Forall P (assignRanks sorted index rs).
Proof.
  intros Hp. induction sorted as [|row rest IH]; intros index rs Hrs; simpl; [assumption|].
  apply IH, update_first_Forall_keep; auto.
Qed.

Lemma calculateRanks_derived s : totals_ok s -> totals_ok (calculateRanks s).
Proof.
  unfold totals_ok, calculateRanks. cbn [rows columns set_rows].
  apply assignRanks_Forall. intros v x Hx. exact Hx.
Qed.

Lemma writeBackAll_derived modified vals s :
  totals_ok s -> totals_ok (writeBackAll modified vals s).
Proof.
  unfold totals_ok, writeBackAll, Obj.entries. cbn [rows columns set_rows].
  generalize (rows s) as rs.
  induction vals as [|kv vals IH]; intros rs Hrs; simpl; [assumption|].
  apply IH. unfold writeBack. destruct (key_rowId (fst kv)); [|assumption].
  apply update_first_Forall; [|assumption].
  intros x. split; reflexivity.
Qed.

(** Everything [updateCell] does to an existing row, in one place. *)
Lemma updateCell_effect r c v s row :
  find (row_is r) s.(rows) = Some row ->
  exists write op,
    rows (updateCell r c v s) = Arr.update_first (row_is r) write s.(rows)
    /\ (forall x, rid (write x) = rid x
                  /\ grades (write x) = Obj.set (grades x) c v
                  /\ isModified (write x) = true
                  /\ derived_ok s.(columns) (write x))
    /\ columns (updateCell r c v s) = columns s
    /\ validationErrors (updateCell r c v s)
        = match validateCell s r c v with
          | Some msg => s.(validationErrors) ++ [mkError r c msg TRange]
          | None => filter (fun e => negb (error_at r c e)) s.(validationErrors)
          end
    /\ history (updateCell r c v s)
        = history (addToHistory op [(cellKey r c, grade_at row.(grades) c)] [(cellKey r c, v)] s)
    /\ historyIndex (updateCell r c v s)
        = historyIndex (addToHistory op [(cellKey r c, grade_at row.(grades) c)] [(cellKey r c, v)] s).
Proof.
  intros F. unfold updateCell. rewrite F.
  match goal with
  | |- context [addToHistory ?op ?p ?n (set_rows (Arr.update_first _ ?w _) (set_validationErrors ?e _))] =>
      exists w, op;
      destruct (addToHistory_log op p n
                  (set_rows (Arr.update_first (row_is r) w (rows s))
                     (set_validationErrors e s))) as (H1 & H2 & H3 & H4 & H5);
      destruct (addToHistory_log op p n s) as (H6 & H7 & _);
      cbv zeta in H1, H2, H6, H7
  end.
  split; [destruct (as_enabled _); simpl; rewrite H3; reflexivity|].
  split; [intros x; repeat split|].
  split; [destruct (as_enabled _); simpl; rewrite H5; reflexivity|].
  split; [destruct (as_enabled _); simpl; rewrite H4; reflexivity|].
  split; destruct (as_enabled _); simpl; rewrite ?H1, ?H2, ?H6, ?H7; reflexivity.
Qed.

Lemma updateCell_columns r c v s : columns (updateCell r c v s) = columns s.
Proof.
  destruct (find (row_is r) (rows s)) as [row|] eqn:F.
  - destruct (updateCell_effect r c v s row F) as (w & op & _ & _ & H & _). exact H.
  - unfold updateCell. rewrite F. reflexivity.
Qed.

Lemma updateCell_derived r c v s : totals_ok s -> totals_ok (updateCell r c v s).
Proof.
  intros Hs. unfold totals_ok. rewrite updateCell_columns.
  destruct (find (row_is r) (rows s)) as [row|] eqn:F.
  - destruct (updateCell_effect r c v s row F) as (w & op & -> & Hw & _).
    apply update_first_Forall; [|exact Hs]. intros x. apply Hw.
  - unfold updateCell. rewrite F. exact Hs.
Qed.

Lemma undo_derived s : totals_ok s -> totals_ok (undo s).
Proof.
  intros Hs. unfold undo. destruct (negb (canUndo s)); [assumption|].
  cbv zeta. destruct (Arr.at_ _ _) as [entry|]; [|exact Hs].
  apply calculateRanks_derived, writeBackAll_derived. exact Hs.
Qed.

Lemma redo_derived s : totals_ok s -> totals_ok (redo s).
Proof.
  intros Hs. unfold redo. destruct (negb (canRedo s)); [assumption|].
  cbv zeta. destruct (Arr.at_ _ _) as [entry|]; [|exact Hs].
  apply calculateRanks_derived, writeBackAll_derived. exact Hs.
Qed.

Lemma step_derived a s : totals_ok s -> totals_ok (step a s).
Proof.
  intros Hs.
  destruct a; cbn [step]; unfold clear, addPoints, multiplyBy.
  - apply updateCell_derived; assumption.
  - apply (batchUpdate_preserves totals_ok); auto using updateCell_derived.
  - apply (batchUpdate_preserves totals_ok); auto using updateCell_derived.
  - unfold fill. destruct (selectedCells s); [assumption|].
    apply (batchUpdate_preserves totals_ok); auto using updateCell_derived.
  - apply (batchUpdate_preserves totals_ok); auto using updateCell_derived.
  - apply (batchUpdate_preserves totals_ok); auto using updateCell_derived.
  - apply undo_derived; assumption.
  - apply redo_derived; assumption.
  - exact Hs.
  - exact Hs.
Qed.

Lemma run_derived l : forall s, totals_ok s -> totals_ok (run l s).
Proof.
  unfold run. induction l as [|a l IH]; intros s Hs; simpl; [assumption|].
  apply IH, step_derived, Hs.
Qed.

Lemma saveGrades_derived g reply s : totals_ok s -> totals_ok (fst (saveGrades g reply s)).
Proof.
  intros Hs. unfold saveGrades, saveGrades_dispatch.
  destruct (courseInfo s); [|exact Hs].
  destruct reply; cbn [saveGrades_settle fst]; [|exact Hs].
  apply (calculateRanks_derived (writeBackAll false g (set_error None (set_saving true s)))).
  apply writeBackAll_derived. exact Hs.
Qed.

Lemma mapi_from_Forall {A B} (P : B -> Prop) (f : A -> Z -> B) l :
  (forall x i, P (f x i)) -> forall i, Forall P (Arr.mapi_from f i l).
Proof.
  intros Hf. induction l as [|x l IH]; intros i; simpl; constructor; auto.
Qed.

Lemma loadGrades_derived c data s : totals_ok (loadGrades (Answer c) (Answer data) s).
Proof.
  unfold loadGrades. cbv zeta.
  match goal with
  | |- totals_ok (set_loading false (clearHistory (calculateRanks ?x))) =>
      change (totals_ok (calculateRanks x))
  end.
  apply calculateRanks_derived. unfold totals_ok. cbn [rows columns set_rows set_columns].
  apply mapi_from_Forall. intros x i. split; reflexivity.
Qed.

(** X11: once a sheet has loaded, whatever is done to it -- edits, batch
    operations, undo, redo, validation, a save however it settles, the
    autosave callback -- every row's [totalScore] and [averageScore] are
    the ones [calculateTotalScore] and [calculateAverageScore] give for the
    grades the row holds. *)
Theorem derived_scores_follow_grades c data s0 (l : list Action) g reply :
  let s := run l (loadGrades (Answer c) (Answer data) s0) in
  totals_ok s
  /\ totals_ok (fst (saveGrades g reply s))
  /\ totals_ok (autoSaveFire reply s).
Proof.
  intros s.
  assert (Hs : totals_ok s) by apply run_derived, loadGrades_derived.
  split; [exact Hs|]. split; [apply saveGrades_derived, Hs|].
  unfold autoSaveFire. cbv zeta.
  destruct (hasUnsavedChanges _); [|exact Hs].
  apply saveGrades_derived. exact Hs.
Qed.

End DerivedScores.

(* ----------------------------------------------------------------- *)
(** ** Loading a sheet *)

Section Loading.

Lemma calculateRanks_rows s :
  NoDup (map rid s.(rows)) ->
  rows (calculateRanks s)
  = map (fun r => set_rank (1 + rowsBefore r s.(rows)) r) s.(rows).
Proof.
  intros Hnd. unfold calculateRanks. simpl.
  rewrite assignRanks_spec; [| |exact Hnd].
  - apply map_ext_in. intros r Hin. unfold ranked.
    rewrite sorted_position by assumption.
    pose proof (findIndex_some (row_is (rid r)) (sortByTotalDesc (rows s)) r
                  (Permutation_in _ (sort_perm _) Hin) (N.eqb_refl _)) as Hge.
    rewrite sorted_position in Hge by assumption.
    replace (0 <=? rowsBefore r (rows s))%Z with true
      by (symmetry; apply Z.leb_le; exact Hge).
    f_equal.
  - eapply Permutation_NoDup; [|exact Hnd]. apply Permutation_map, sort_perm.
Qed.

Lemma ahead_ext r r' l : forall l',
  totalScore r = totalScore r' ->
  map (fun x => (rid x, totalScore x)) l = map (fun x => (rid x, totalScore x)) l' ->
  List.length (filter (ahead r) l) = List.length (filter (ahead r') l').
Proof.
  induction l as [|y l IH]; intros [|y' l'] Ht E; try discriminate; [reflexivity|].
  simpl in E. injection E as _ Ey El. cbn [filter].
  replace (ahead r y) with (ahead r' y') by (unfold ahead; rewrite Ht, Ey; reflexivity).
  destruct (ahead r' y'); cbn [List.length]; rewrite (IH l' Ht El); reflexivity.
Qed.

(** [rowsBefore] reads ids and totals only. *)
Lemma rowsBefore_ext r r' l : forall l',
  rid r = rid r' -> totalScore r = totalScore r' ->
  map (fun x => (rid x, totalScore x)) l = map (fun x => (rid x, totalScore x)) l' ->
  rowsBefore r l = rowsBefore r' l'.
Proof.
  induction l as [|x l IH]; intros [|x' l'] Hid Ht E; try discriminate; [reflexivity|].
  simpl in E. injection E as Ex Et El. simpl.
  rewrite Ex, Et, Hid, Ht. rewrite (IH l' Hid Ht El).
  rewrite (ahead_ext r r' l l' Ht El). reflexivity.
Qed.

Lemma mapi_from_ids {B} (f : N -> Z -> B) (proj : B -> N) l :
  (forall x i, proj (f x i) = x) -> forall i, map proj (Arr.mapi_from f i l) = l.
Proof.
  intros Hf. induction l as [|x l IH]; intros i; simpl; [reflexivity|].
  rewrite Hf, IH. reflexivity.
Qed.

Lemma find_mapi_from (f : N -> Z -> StudentGradeRow) l :
  (forall x i, rid (f x i) = x) -> NoDup l ->
  forall k i id, nth_error l i = Some id ->
  find (row_is id) (Arr.mapi_from f k l) = Some (f id (k + Z.of_nat i)%Z).
Proof.
  intros Hf. induction 1 as [|x l Hx Hnd IH]; intros k i id Hi.
  - destruct i; discriminate.
  - simpl. unfold row_is at 1. rewrite Hf. destruct i as [|i]; simpl in Hi.
    + injection Hi as ->. rewrite N.eqb_refl. f_equal. f_equal. lia.
    + destruct (N.eqb_spec x id) as [->|Hne].
      * exfalso. apply Hx. eapply nth_error_In. exact Hi.
      * rewrite (IH (k + 1)%Z i id Hi). f_equal. f_equal. lia.
Qed.

Lemma find_map_row (g : StudentGradeRow -> StudentGradeRow) id l :
  (forall x, rid (g x) = rid x) ->
  find (row_is id) (map g l) = option_map g (find (row_is id) l).
Proof.
  intros Hg. induction l as [|x l IH]; simpl; [reflexivity|].
  unfold row_is at 1 3. rewrite Hg. destruct (N.eqb (rid x) id); [reflexivity|exact IH].
Qed.

(** X12: a load that both requests answer leaves a sheet with one row per
    student, in the order received and with the grades object at the same
    position; ranks are positional, nothing is unsaved, there is nothing to
    undo or redo, and the error and loading marks are down.  Validation
    errors and the selection of the sheet shown before are not reset. *)
Theorem loadGrades_fresh_sheet c data s0 :
  NoDup data.(cg_students) ->
  let s := loadGrades (Answer c) (Answer data) s0 in
  map rid (rows s) = cg_students data
  /\ columns s = cg_columns data
  /\ courseInfo s = Some c
  /\ (forall i id col, nth_error (cg_students data) i = Some id ->
        cellValue s id col = Some (Obj.get (grades_of data (Z.of_nat i)) col))
  /\ (forall r, In r (rows s) -> rank r = (1 + rowsBefore r (rows s))%Z)
  /\ hasUnsavedChanges s = false
  /\ canUndo s = false /\ canRedo s = false
  /\ loading s = false /\ error s = None
  /\ validationErrors s = validationErrors s0
  /\ selectedCells s = selectedCells s0.
Proof.
  intros Hnd s.
  set (mk := fun (student : N) (index : Z) =>
               mkRow student (grades_of data index)
                 (calculateTotalScore (grades_of data index) (cg_columns data))
                 (calculateAverageScore (grades_of data index) (cg_columns data))
                 0 false false).
  set (fresh := Arr.mapi mk (cg_students data)).
  assert (Hids : map rid fresh = cg_students data)
    by (apply mapi_from_ids; reflexivity).
  assert (Hrows : rows s = map (fun r => set_rank (1 + rowsBefore r fresh) r) fresh).
  { subst s. unfold loadGrades. cbv zeta. cbn [rows set_loading clearHistory set_historyIndex set_history].
    rewrite calculateRanks_rows; cbn [rows set_rows]; [reflexivity|].
    change (NoDup (map rid fresh)). rewrite Hids. exact Hnd. }
  split; [rewrite Hrows, map_map; exact Hids|].
  split; [reflexivity|]. split; [reflexivity|].
  split.
  { intros i id col Hi. unfold cellValue. rewrite Hrows.
    rewrite find_map_row by reflexivity.
    unfold fresh, Arr.mapi.
    rewrite (find_mapi_from mk _ ltac:(reflexivity) Hnd 0%Z i id Hi).
    reflexivity. }
  split.
  { intros r Hin. rewrite Hrows in Hin |- *.
    apply in_map_iff in Hin as (x & <- & Hx). cbn [rank set_rank].
    f_equal. apply rowsBefore_ext; try reflexivity.
    rewrite map_map. reflexivity. }
  split.
  { unfold hasUnsavedChanges, modifiedRows. rewrite Hrows.
    rewrite filter_none; [reflexivity|].
    intros x Hx. apply in_map_iff in Hx as (y & <- & Hy).
    cbn [isModified hasErrors set_rank].
    assert (Hf : Forall (fun r => isModified r || hasErrors r = false) fresh)
      by (apply mapi_from_Forall; reflexivity).
    rewrite Forall_forall in Hf. apply Hf, Hy. }
  repeat split.
Qed.

Lemma loadGrades_fresh_sheet_witness :
  map rid (rows (loadGrades (Answer 7%N)
                   (Answer (mkCourseGrades [1%N; 2%N] [Examples.assignment1]
                              [Some [("assignment1"%string, Some 85%Q)]]))
                   initialState))
  = [1%N; 2%N].
Proof.
  apply (loadGrades_fresh_sheet 7%N
           (mkCourseGrades [1%N; 2%N] [Examples.assignment1]
              [Some [("assignment1"%string, Some 85%Q)]])
           initialState).
  simpl. repeat constructor; simpl; intuition discriminate.
Defined.

End Loading.

(* ----------------------------------------------------------------- *)
(** ** Edits, the history cursor and the error list *)

Section EditHistory.

Lemma nth_error_tl {A} (l : list A) n : nth_error (tl l) n = nth_error l (S n).
Proof. destruct l; [destruct n|]; reflexivity. Qed.

Lemma length_tl {A} (l : list A) : List.length (tl l) = (List.length l - 1)%nat.
Proof. destruct l; simpl; lia. Qed.

(** After recording, the cursor is on the new entry, which is the last. *)
Lemma addToHistory_newest op p n s :
  history_ok s ->
  let s' := addToHistory op p n s in
  historyIndex s' = (Z.of_nat (List.length (history s')) - 1)%Z
  /\ Z.of_nat (List.length (history s')) = Z.min (historyIndex s + 2) 100
  /\ Arr.at_ (history s') (historyIndex s') = Some (mkEntry op p n).
Proof.
  intros Hok s'. pose proof (history_ok_cursor s Hok) as Hc.
  destruct Hok as (Hb & _ & _).
  destruct (addToHistory_log op p n s) as (Hh & Hi & _).
  cbv zeta in Hh, Hi. subst s'.
  assert (Ls : List.length (Arr.slice0 (historyIndex s + 1) (history s))
               = Z.to_nat (historyIndex s + 1)) by (apply slice0_length; lia).
  assert (L : List.length (Arr.slice0 (historyIndex s + 1) (history s) ++ [mkEntry op p n])
              = Z.to_nat (historyIndex s + 2)).
  { rewrite length_app, Ls. simpl. lia. }
  assert (Hlast : nth_error (Arr.slice0 (historyIndex s + 1) (history s) ++ [mkEntry op p n])
                    (Z.to_nat (historyIndex s + 1)) = Some (mkEntry op p n)).
  { rewrite nth_error_app2 by lia. rewrite Ls, Nat.sub_diag. reflexivity. }
  rewrite Hh, Hi. unfold Arr.at_.
  destruct (100 <? _)%nat eqn:E;
    [apply Nat.ltb_lt in E | apply Nat.ltb_ge in E]; rewrite L in E.
  - rewrite length_tl, L, nth_error_tl.
    replace (historyIndex s + 1 - 1 <? 0)%Z with false by (symmetry; apply Z.ltb_ge; lia).
    replace (S (Z.to_nat (historyIndex s + 1 - 1))) with (Z.to_nat (historyIndex s + 1)) by lia.
    repeat split; try lia. exact Hlast.
  - rewrite L.
    replace (historyIndex s + 1 <? 0)%Z with false by (symmetry; apply Z.ltb_ge; lia).
    repeat split; try lia. exact Hlast.
Qed.

(** X13: an edit of a cell of an existing row, made anywhere in the
    history, leaves nothing to redo: the entries past the cursor are
    dropped, the cursor is on the entry of this edit, which records the
    value the cell held and the value written, and [redo] does nothing. *)
Theorem edit_discards_redo r c v s row :
  history_ok s ->
  find (row_is r) s.(rows) = Some row ->
  let s' := updateCell r c v s in
  canRedo s' = false
  /\ redo s' = s'
  /\ Z.of_nat (List.length (history s')) = Z.min (historyIndex s + 2) 100
  /\ exists entry,
       Arr.at_ (history s') (historyIndex s') = Some entry
       /\ previousValues entry = [(cellKey r c, grade_at row.(grades) c)]
       /\ newValues entry = [(cellKey r c, v)].
Proof.
  intros Hok F s'.
  destruct (updateCell_effect r c v s row F) as (w & op & _ & _ & _ & _ & Hh & Hi).
  destruct (addToHistory_newest op [(cellKey r c, grade_at (grades row) c)] [(cellKey r c, v)] s Hok)
    as (H1 & H2 & H3).
  fold s' in Hh, Hi. cbv zeta in H1, H2, H3.
  rewrite <- Hh, <- Hi in H1, H3. rewrite <- Hh in H2.
  assert (Hr : canRedo s' = false).
  { unfold canRedo. apply Z.ltb_ge. lia. }
  split; [exact Hr|].
  split; [unfold redo; rewrite Hr; reflexivity|].
  split; [exact H2|].
  eexists. split; [exact H3|]. split; reflexivity.
Qed.

Lemma edit_discards_redo_witness :
  canRedo (updateCell 1 "assignment1" (Some 90%Q) Examples.loaded) = false.
Proof.
  apply (edit_discards_redo 1 "assignment1" (Some 90%Q) Examples.loaded Examples.zhangsan).
  - unfold history_ok. simpl. repeat split; try lia. congruence.
  - reflexivity.
Defined.

End EditHistory.

Section ErrorList.

Lemma validateCell_columns s s' r c v :
  columns s' = columns s -> validateCell s' r c v = validateCell s r c v.
Proof. intros E. unfold validateCell. rewrite E. reflexivity. Qed.

Lemma failed_edit_appends r c v s msg :
  In r (map rid s.(rows)) ->
  validateCell s r c v = Some msg ->
  validationErrors (updateCell r c v s) = s.(validationErrors) ++ [mkError r c msg TRange].
Proof.
  intros Hin Hv. destruct (find_row_in r _ Hin) as [row F].
  destruct (updateCell_effect r c v s row F) as (w & op & _ & _ & _ & He & _).
  rewrite He, Hv. reflexivity.
Qed.

Lemma failed_edits_append r c v msg n : forall s,
  In r (map rid s.(rows)) ->
  validateCell s r c v = Some msg ->
  let s' := run (repeat (AUpdateCell r c v) n) s in
  validationErrors s' = s.(validationErrors) ++ repeat (mkError r c msg TRange) n
  /\ map rid (rows s') = map rid (rows s)
  /\ columns s' = columns s.
Proof.
  induction n as [|n IH]; intros s Hin Hv; cbn [repeat].
  - simpl. rewrite List.app_nil_r. repeat split.
  - change (run (AUpdateCell r c v :: repeat (AUpdateCell r c v) n) s)
      with (run (repeat (AUpdateCell r c v) n) (updateCell r c v s)).
    destruct (IH (updateCell r c v s)) as (He & Hr & Hc).
    + rewrite updateCell_row_ids. exact Hin.
    + rewrite (validateCell_columns s) by apply updateCell_columns. exact Hv.
    + cbv zeta. rewrite He, Hr, Hc, updateCell_row_ids, updateCell_columns.
      rewrite (failed_edit_appends r c v s msg Hin Hv), <- List.app_assoc.
      repeat split.
Qed.

(** X14: every edit that fails validation adds one entry to the error
    list, also when the cell already has one, so [errorCount] counts failed
    edits rather than cells in error; one edit of the cell that passes
    validation removes them all, and no error of another cell. *)
Theorem failed_edits_pile_up r c v v' s msg n :
  In r (map rid s.(rows)) ->
  validateCell s r c v = Some msg ->
  validateCell s r c v' = None ->
  let s' := run (repeat (AUpdateCell r c v) n) s in
  errorCount s' = (errorCount s + n)%nat
  /\ validationErrors (updateCell r c v' s')
     = filter (fun e => negb (error_at r c e)) s.(validationErrors).
Proof.
  intros Hin Hv Hv' s'.
  destruct (failed_edits_append r c v msg n s Hin Hv) as (He & Hr & Hc).
  fold s' in He, Hr, Hc.
  split.
  - unfold errorCount. rewrite He, length_app, repeat_length. reflexivity.
  - assert (Hin' : In r (map rid (rows s'))) by (rewrite Hr; exact Hin).
    destruct (find_row_in r _ Hin') as [row F].
    destruct (updateCell_effect r c v' s' row F) as (w & op & _ & _ & _ & Hx & _).
    rewrite Hx, (validateCell_columns s s') by exact Hc.
    rewrite Hv', He, filter_app.
    rewrite (filter_none _ (repeat _ n)); [apply List.app_nil_r|].
    intros e Hin_e. apply repeat_spec in Hin_e. subst e.
    unfold error_at. cbn [e_rowId e_columnId].
    rewrite N.eqb_refl, String.eqb_refl. reflexivity.
Qed.

Lemma failed_edits_pile_up_witness :
  errorCount (run (repeat (AUpdateCell 1 "assignment1" (Some 150%Q)) 3) Examples.loaded) = 3%nat.
Proof.
  apply (failed_edits_pile_up 1 "assignment1" (Some 150%Q) (Some (9025 # 100)) Examples.loaded
           "分数必须在 0 到 100 之间" 3).
  - simpl. left. reflexivity.
  - vm_compute. reflexivity.
  - vm_compute. reflexivity.
Defined.

End ErrorList.

(* ----------------------------------------------------------------- *)
(** ** A save that is accepted *)

Section SavedSheet.

Lemma find_writeBack m cols kv rs r :
  exists f,
    (forall x, rid (f x) = rid x
               /\ grades (f x) = Obj.set (grades x) (key_columnId (fst kv)) (snd kv)
               /\ isModified (f x) = m /\ hasErrors (f x) = hasErrors x)
    /\ find (row_is r) (writeBack m cols kv rs)
       = match key_rowId (fst kv) with
         | Some r' => if N.eqb r' r then option_map f (find (row_is r) rs)
                      else find (row_is r) rs
         | None => find (row_is r) rs
         end.
Proof.
  unfold writeBack.
  match goal with
  | |- context [Arr.update_first _ ?w rs] => exists w
  end.
  split; [intros x; repeat split|].
  destruct (key_rowId (fst kv)) as [r'|]; [|reflexivity].
  destruct (N.eqb_spec r' r) as [->|Hne].
  - apply find_update_first_same. reflexivity.
  - apply find_update_first_other; [reflexivity | congruence].
Qed.

Lemma writeBack_ids m cols kv rs : map rid (writeBack m cols kv rs) = map rid rs.
Proof.
  unfold writeBack. destruct (key_rowId _); [|reflexivity].
  apply update_first_proj. reflexivity.
Qed.

Lemma writeBackAll_modified m cols vals r : forall rs,
  option_map isModified
    (find (row_is r) (fold_left (fun rs kv => writeBack m cols kv rs) vals rs))
  = option_map (fun x => if touchesRow vals r then m else isModified x) (find (row_is r) rs).
Proof.
  induction vals as [|kv vals IH]; intros rs; cbn [fold_left].
  - destruct (find _ _); reflexivity.
  - rewrite IH. destruct (find_writeBack m cols kv rs r) as (f & Hf & ->).
    unfold touchesRow. cbn [existsb]. fold (touchesRow vals r).
    destruct (key_rowId (fst kv)) as [r'|]; [|reflexivity].
    destruct (N.eqb r' r); [|reflexivity].
    destruct (find (row_is r) rs) as [x|]; [|reflexivity]. cbn [option_map orb].
    destruct (touchesRow vals r); [reflexivity|].
    destruct (Hf x) as (_ & _ & -> & _). reflexivity.
Qed.

Lemma writeBackAll_cell_keeps m cols vals r c : forall rs,
  (forall k, In k (Obj.keys vals) -> plainKey k) ->
  ~ In (cellKey r c) (Obj.keys vals) ->
  option_map (fun x => Obj.get (grades x) c)
    (find (row_is r) (fold_left (fun rs kv => writeBack m cols kv rs) vals rs))
  = option_map (fun x => Obj.get (grades x) c) (find (row_is r) rs).
Proof.
  induction vals as [|[k v] vals IH]; intros rs Hk Hn; cbn [fold_left]; [reflexivity|].
  rewrite IH.
  - destruct (find_writeBack m cols (k, v) rs r) as (f & Hf & ->). cbn [fst snd] in *.
    destruct (Hk k (or_introl eq_refl)) as (r0 & c0 & -> & Hc0).
    rewrite key_rowId_cellKey. rewrite key_columnId_cellKey in Hf by exact Hc0.
    destruct (N.eqb_spec r0 r) as [->|Hne]; [|reflexivity].
    destruct (find (row_is r) rs) as [x|]; [|reflexivity]. cbn [option_map].
    destruct (Hf x) as (_ & -> & _). rewrite get_set_other; [reflexivity|].
    intros ->. apply Hn. left. reflexivity.
  - intros k' Hk'. apply Hk. right. exact Hk'.
  - intros H. apply Hn. right. exact H.
Qed.

Lemma writeBackAll_cell m cols vals r c v : forall rs,
  NoDup (Obj.keys vals) ->
  (forall k, In k (Obj.keys vals) -> plainKey k) ->
  Obj.get vals (cellKey r c) = Some v ->
  In r (map rid rs) ->
  option_map (fun x => Obj.get (grades x) c)
    (find (row_is r) (fold_left (fun rs kv => writeBack m cols kv rs) vals rs))
  = Some (Some v).
Proof.
  induction vals as [|[k v0] vals IH]; intros rs Hnd Hk Hget Hin; [discriminate|].
  simpl in Hget. inversion Hnd as [|? ? Hfresh Hnd']; subst. cbn [fold_left].
  destruct (Hk k (or_introl eq_refl)) as (r0 & c0 & -> & Hc0).
  destruct (String.eqb_spec (cellKey r0 c0) (cellKey r c)) as [E|E].
  - injection Hget as ->. apply cellKey_inj in E as [-> ->].
    rewrite writeBackAll_cell_keeps.
    + destruct (find_writeBack m cols (cellKey r c, v) rs r) as (f & Hf & ->).
      cbn [fst snd] in *. rewrite key_rowId_cellKey, N.eqb_refl.
      rewrite key_columnId_cellKey in Hf by exact Hc0.
      destruct (find_row_in r rs Hin) as [row ->]. cbn [option_map].
      destruct (Hf row) as (_ & -> & _). rewrite get_set_same. reflexivity.
    + intros k' Hk'. apply Hk. right. exact Hk'.
    + exact Hfresh.
  - apply IH; try assumption.
    + intros k' Hk'. apply Hk. right. exact Hk'.
    + rewrite writeBack_ids. exact Hin.
Qed.

Lemma find_assignRanks {B} (proj : StudentGradeRow -> B) r sorted :
  (forall v x, proj (set_rank v x) = proj x) ->
  forall index rs,
  option_map proj (find (row_is r) (assignRanks sorted index rs))
  = option_map proj (find (row_is r) rs).
Proof.
  intros Hp. induction sorted as [|row rest IH]; intros index rs; cbn [assignRanks];
    [reflexivity|].
  rewrite IH. destruct (N.eq_dec r (rid row)) as [->|Hne].
  - rewrite find_update_first_same by reflexivity.
    destruct (find _ rs); [|reflexivity]. cbn [option_map]. rewrite Hp. reflexivity.
  - rewrite find_update_first_other by (try reflexivity; assumption). reflexivity.
Qed.

Lemma touches_named vals r :
  (forall k, In k (Obj.keys vals) -> plainKey k) ->
  touchesRow vals r = true <-> namesRow vals r.
Proof.
  intros Hk. unfold touchesRow, namesRow. rewrite existsb_exists. split.
  - intros ([k v] & Hin & Ht). cbn [fst] in Ht.
    assert (Hkin : In k (Obj.keys vals)) by (apply in_map_iff; exists (k, v); auto).
    destruct (Hk k Hkin) as (r0 & c0 & -> & _).
    rewrite key_rowId_cellKey in Ht. apply N.eqb_eq in Ht. subst r0.
    exists c0. exact Hkin.
  - intros (c & Hin). apply in_map_iff in Hin as ([k v] & Hk' & Hin). cbn [fst] in Hk'.
    subst k. exists (cellKey r c, v). split; [exact Hin|].
    cbn [fst]. rewrite key_rowId_cellKey. apply N.eqb_refl.
Qed.

(** The rows once a save has been answered. *)
Lemma saveGrades_rows g s course :
  s.(courseInfo) = Some course ->
  rows (fst (saveGrades g Resolve s))
  = assignRanks
      (sortByTotalDesc
         (fold_left (fun rs kv => writeBack false s.(columns) kv rs) g s.(rows)))
      0
      (fold_left (fun rs kv => writeBack false s.(columns) kv rs) g s.(rows)).
Proof.
  intros Hc. unfold saveGrades, saveGrades_dispatch. rewrite Hc. reflexivity.
Qed.

(** X15: a save the data source accepts, of an object whose keys each name
    one cell, writes every value it names into its row and takes the
    modified mark off that row; cells it does not name keep their value,
    rows it does not name keep their mark, no row's [hasErrors] flag
    changes, and exactly the errors of the cells it names leave the error
    list. *)
Theorem saveGrades_success g s course :
  s.(courseInfo) = Some course ->
  NoDup (Obj.keys g) ->
  (forall k, In k (Obj.keys g) -> plainKey k) ->
  let s' := fst (saveGrades g Resolve s) in
  snd (saveGrades g Resolve s) = Fulfilled
  /\ saving s' = false /\ error s' = None
  /\ (forall r c v, In r (map rid s.(rows)) -> Obj.get g (cellKey r c) = Some v ->
        cellValue s' r c = Some (Some v) /\ rowModified s' r = Some false)
  /\ (forall r c, ~ In (cellKey r c) (Obj.keys g) -> cellValue s' r c = cellValue s r c)
  /\ (forall r, ~ namesRow g r -> rowModified s' r = rowModified s r)
  /\ (forall r, rowHasErrors s' r = rowHasErrors s r)
  /\ (forall e, In e (validationErrors s') <->
                In e (validationErrors s)
                /\ ~ In (cellKey e.(e_rowId) e.(e_columnId)) (Obj.keys g)).
Proof.
  intros Hc Hnd Hk s'.
  pose proof (saveGrades_rows g s course Hc) as Hrows. fold s' in Hrows.
  assert (Hcell : forall r c, cellValue s' r c
            = option_map (fun x => Obj.get (grades x) c)
                (find (row_is r)
                   (fold_left (fun rs kv => writeBack false (columns s) kv rs) g (rows s)))).
  { intros r c. unfold cellValue. rewrite Hrows.
    transitivity (option_map (fun x => Obj.get (grades x) c)
                    (find (row_is r)
                       (assignRanks
                          (sortByTotalDesc
                             (fold_left (fun rs kv => writeBack false (columns s) kv rs) g (rows s)))
                          0
                          (fold_left (fun rs kv => writeBack false (columns s) kv rs) g (rows s))))).
    - destruct (find _ _); reflexivity.
    - apply find_assignRanks. reflexivity. }
  assert (Hmod : forall r, rowModified s' r
            = option_map (fun x => if touchesRow g r then false else isModified x)
                (find (row_is r) (rows s))).
  { intros r. unfold rowModified. rewrite Hrows.
    rewrite (find_assignRanks isModified r) by reflexivity.
    apply writeBackAll_modified. }
  split; [unfold saveGrades, saveGrades_dispatch; rewrite Hc; reflexivity|].
  split; [unfold s', saveGrades, saveGrades_dispatch; rewrite Hc; reflexivity|].
  split; [unfold s', saveGrades, saveGrades_dispatch; rewrite Hc; reflexivity|].
  split.
  { intros r c v Hin Hget. split.
    - rewrite Hcell. apply writeBackAll_cell; assumption.
    - rewrite Hmod. destruct (find_row_in r _ Hin) as [row ->]. cbn [option_map].
      replace (touchesRow g r) with true; [reflexivity|].
      symmetry. apply touches_named; [exact Hk|].
      exists c. eapply get_in_keys. exact Hget. }
  split.
  { intros r c Hn. rewrite Hcell, writeBackAll_cell_keeps by assumption.
    unfold cellValue. destruct (find _ _); reflexivity. }
  split.
  { intros r Hn. rewrite Hmod. unfold rowModified.
    destruct (touchesRow g r) eqn:T.
    - exfalso. apply Hn. apply touches_named; assumption.
    - reflexivity. }
  split.
  { intros r. unfold rowHasErrors. rewrite Hrows.
    rewrite (find_assignRanks hasErrors r) by reflexivity.
    generalize (rows s) as rs. unfold Obj.t in g. clear Hrows Hcell Hmod Hnd Hk.
    induction g as [|kv g' IH]; intros rs; cbn [fold_left]; [reflexivity|].
    rewrite IH. destruct (find_writeBack false (columns s) kv rs r) as (f & Hf & ->).
    destruct (key_rowId (fst kv)) as [r'|]; [|reflexivity].
    destruct (N.eqb r' r); [|reflexivity].
    destruct (find (row_is r) rs) as [x|]; [|reflexivity]. cbn [option_map].
    destruct (Hf x) as (_ & _ & _ & ->). reflexivity. }
  intros e. unfold s', saveGrades, saveGrades_dispatch. rewrite Hc.
  cbn [saveGrades_settle fst validationErrors set_saving set_validationErrors].
  rewrite filter_In. cbn [validationErrors calculateRanks writeBackAll set_rows set_error set_saving].
  rewrite negb_true_iff. split; intros [H1 H2]; (split; [exact H1|]).
  - intros Hin. apply not_true_iff_false in H2. apply H2.
    apply existsb_exists. eexists. split; [exact Hin|]. apply String.eqb_refl.
  - apply not_true_iff_false. intros Hex. apply H2.
    apply existsb_exists in Hex as (k & Hin & Heq). apply String.eqb_eq in Heq.
    rewrite Heq. exact Hin.
Qed.

Lemma saveGrades_success_witness :
  cellValue (fst (saveGrades [(cellKey 1 "assignment1", Some (9025 # 100))] Resolve Examples.oneDirty))
    1 "assignment1" = Some (Some (Some (9025 # 100)))
  /\ rowModified (fst (saveGrades [(cellKey 1 "assignment1", Some (9025 # 100))] Resolve Examples.oneDirty)) 1
     = Some false.
Proof.
  apply (saveGrades_success [(cellKey 1 "assignment1", Some (9025 # 100))] Examples.oneDirty 1%N).
  - reflexivity.
  - simpl. repeat constructor. simpl. tauto.
  - intros k [<-|[]]. exists 1%N, "assignment1"%string. split; reflexivity.
  - simpl. left. reflexivity.
  - reflexivity.
Defined.

End SavedSheet.

(* ----------------------------------------------------------------- *)
(** ** An autosave that is accepted *)

Section AutoSaved.









End AutoSaved.

(* ----------------------------------------------------------------- *)
(** ** Whole-sheet selection and fill *)

Section WholeSheet.

Lemma range_from_In lo n i : In i (Arr.range_from lo n) <-> (lo <= i < lo + Z.of_nat n)%Z.
Proof.
  revert lo. induction n as [|n IH]; intros lo; simpl; [lia|].
  rewrite IH. lia.
Qed.

Lemma range_In lo hi i : In i (Arr.range lo hi) <-> (lo <= i <= hi)%Z.
Proof. unfold Arr.range. rewrite range_from_In. lia. Qed.

Lemma at_nth {A} (l : list A) (i : nat) : Arr.at_ l (Z.of_nat i) = nth_error l i.
Proof.
  unfold Arr.at_. replace (Z.of_nat i <? 0)%Z with false by (symmetry; apply Z.ltb_ge; lia).
  rewrite Nat2Z.id. reflexivity.
Qed.

Lemma findIndex_nth_col l : forall i c,
  NoDup (map cid l) -> nth_error l i = Some c ->
  Arr.findIndex (col_is (cid c)) l = Z.of_nat i.
Proof.
  induction l as [|x l IH]; intros i c Hnd Hi; [destruct i; discriminate|].
  inversion Hnd as [|? ? Hfresh Hnd']; subst. simpl.
  destruct i as [|i]; simpl in Hi.
  - injection Hi as ->. unfold col_is. rewrite String.eqb_refl. reflexivity.
  - unfold col_is at 1. destruct (String.eqb_spec (cid x) (cid c)) as [E|_].
    + exfalso. apply Hfresh. rewrite E. apply in_map. eapply nth_error_In. exact Hi.
    + rewrite (IH i c Hnd' Hi).
      replace (Z.of_nat i <? 0)%Z with false by (symmetry; apply Z.ltb_ge; lia). lia.
Qed.

Lemma wf_grid_ext s s' :
  rows s' = rows s -> columns s' = columns s -> wf_grid s -> wf_grid s'.
Proof.
  intros Hr Hc [H1 H2 H3 H4]. constructor; rewrite ?Hr, ?Hc; assumption.
Qed.

Lemma selectAll_grid s : rows (selectAll s) = rows s /\ columns (selectAll s) = columns s.
Proof.
  unfold selectAll.
  destruct (hd_error _); [|split; reflexivity].
  destruct (lastColumn s); [|split; reflexivity].
  destruct (rows s) eqn:E; (split; [exact E | reflexivity]).
Qed.

(** After [selectAll] the loop of a batch operation visits every cell. *)
Lemma selectAll_loop s row col :
  NoDup (map cid s.(columns)) ->
  In row s.(rows) -> In col s.(columns) ->
  exists c, In c (selectionLoop (selectAll s)) /\ lc_rowData c = row /\ lc_column c = col.
Proof.
  intros Hnd Hrow Hcol.
  destruct (In_nth_error _ _ Hrow) as [i Hi], (In_nth_error _ _ Hcol) as [j Hj].
  assert (Hil : (i < List.length (rows s))%nat) by (apply nth_error_Some; congruence).
  assert (Hjl : (j < List.length (columns s))%nat) by (apply nth_error_Some; congruence).
  destruct (columns s) as [|first cols] eqn:Ecols; [destruct j; discriminate|].
  assert (Hlast : exists final, lastColumn s = Some final
                    /\ nth_error (first :: cols) (List.length cols) = Some final).
  { unfold lastColumn. rewrite Ecols.
    replace (Z.of_nat (List.length (first :: cols)) - 1)%Z with (Z.of_nat (List.length cols))
      by (simpl List.length; lia).
    rewrite at_nth.
    destruct (nth_error (first :: cols) (List.length cols)) as [final|] eqn:E.
    - exists final. split; reflexivity.
    - apply nth_error_None in E. simpl in E. lia. }
  destruct Hlast as (final & Hlast & Hnth).
  destruct (rows s) as [|r0 rs] eqn:Erows; [destruct i; discriminate|].
  set (sel := mkSelection 0 (Z.of_nat (List.length (r0 :: rs)) - 1) (cid first) (cid final) KRange).
  assert (Esel : selectAll s = set_selectedCells [sel] s).
  { unfold selectAll. rewrite Ecols, Hlast, Erows. reflexivity. }
  exists (mkLoopCell sel (Z.of_nat i) (Z.of_nat j) row col).
  split; [|split; reflexivity].
  rewrite Esel. unfold selectionLoop.
  cbn [selectedCells set_selectedCells rows columns flat_map]. rewrite List.app_nil_r.
  apply in_flat_map. exists (Z.of_nat i). split.
  { apply range_In. unfold sel. cbn [startRow endRow]. rewrite ?Erows. lia. }
  apply in_flat_map. exists (Z.of_nat j). split.
  { apply range_In. unfold columnIndex, sel. cbn [columns set_selectedCells startColumn endColumn].
    rewrite ?Ecols.
    rewrite (findIndex_nth_col (first :: cols) 0 first Hnd eq_refl).
    rewrite (findIndex_nth_col (first :: cols) _ final Hnd Hnth).
    simpl in Hjl. lia. }
  rewrite ?Erows, ?Ecols, !at_nth, Hi, Hj. left. reflexivity.
Qed.

(** X17: on a sheet whose row ids and column ids are distinct and whose
    column ids have no ['-'], [selectAll] followed by [copy] puts every cell
    on the clipboard under its key, and [selectAll] followed by [clear]
    leaves every cell of every row holding [null]. *)
Theorem selectAll_reaches_every_cell s row col :
  wf_grid s -> In row s.(rows) -> In col s.(columns) ->
  Obj.get (clipboard (copy (selectAll s))) (cellKey row.(rid) col.(cid))
  = Some (grade_at row.(grades) col.(cid))
  /\ cellValue (clear (selectAll s)) row.(rid) col.(cid) = Some (Some None).
Proof.
  intros Hwf Hrow Hcol.
  destruct (selectAll_loop s row col (wf_cols _ Hwf) Hrow Hcol) as (c & Hc & Er & Ec).
  destruct (selectAll_grid s) as [Hr' Hc'].
  assert (Hwf' : wf_grid (selectAll s)) by (eapply wf_grid_ext; eassumption).
  split.
  - change (Obj.get
              (collectInto (fun c => Some (grade_at (grades (lc_rowData c)) (cid (lc_column c))))
                 (selectionLoop (selectAll s)) [])
              (cellKey (rid row) (cid col))
            = Some (grade_at (grades row) (cid col))).
    apply (collect_get _ (selectionLoop (selectAll s)) []).
    + intros c' Hin E. f_equal.
      unfold loopKey in E. apply cellKey_inj in E as [E1 E2].
      destruct (selectionLoop_in _ c' Hin) as [Hr1 Hc1].
      rewrite Hr' in Hr1. 
      rewrite (NoDup_map_eq rid (rows s) (lc_rowData c') row (wf_rows _ Hwf) Hr1 Hrow E1), E2.
      reflexivity.
    + left. exists c. split; [exact Hc|]. unfold loopKey. rewrite Er, Ec. reflexivity.
  - unfold clear. rewrite <- Er, <- Ec.
    apply (batch_writes (selectAll s) _ Hwf' (fun _ _ => None) c); [reflexivity | exact Hc].
Qed.

Lemma selectAll_reaches_every_cell_witness :
  cellValue (clear (selectAll Examples.loaded)) 1 "assignment1" = Some (Some None).
Proof.
  apply (selectAll_reaches_every_cell Examples.loaded Examples.zhangsan Examples.assignment1).
  - constructor; simpl.
    + repeat constructor; simpl; tauto.
    + repeat constructor; simpl; tauto.
    + intros c [<-|[]]. reflexivity.
    + intros r [<-|[]]. split; [repeat constructor; simpl; tauto
                               | intros k [<-|[]]; reflexivity].
  - left. reflexivity.
  - left. reflexivity.
Defined.

End WholeSheet.

Section Fill.

Lemma selectionLoop_cell s c :
  In c (selectionLoop s) ->
  In c.(lc_selection) s.(selectedCells)
  /\ Arr.at_ s.(rows) c.(lc_row) = Some c.(lc_rowData)
  /\ Arr.at_ s.(columns) c.(lc_colIndex) = Some c.(lc_column).
Proof.
  unfold selectionLoop. intros H.
  apply in_flat_map in H as (sel & Hsel & H).
  apply in_flat_map in H as (row & _ & H).
  apply in_flat_map in H as (colIndex & _ & H).
  destruct (Arr.at_ (rows s) row) as [rowData|] eqn:Er; [|contradiction].
  destruct (Arr.at_ (columns s) colIndex) as [column|] eqn:Ec; [|contradiction].
  destruct H as [<-|[]]. simpl. auto.
Qed.

Lemma batch_writes_on_loop s f (g : LoopCell -> Value) c :
  wf_grid s ->
  (forall c', In c' (selectionLoop s) -> f c' = Some (g c')) ->
  (forall c', In c' (selectionLoop s) -> loopKey c' = loopKey c -> g c' = g c) ->
  In c (selectionLoop s) ->
  cellValue (batchUpdate (collectUpdates s f) s) (rid (lc_rowData c)) (cid (lc_column c))
  = Some (Some (g c)).
Proof.
  intros Hwf Hf Hg Hc.
  apply batchUpdate_writes.
  - apply (collect_NoDup f (selectionLoop s) []). constructor.
  - intros k Hk. apply (collect_keys f (selectionLoop s) []) in Hk as [[]|(c' & Hc' & <-)].
    apply (loopKey_plain s Hwf). exact Hc'.
  - apply (collect_get f (selectionLoop s) []).
    + intros c' Hc' E. rewrite Hf by exact Hc'. rewrite (Hg c' Hc' E). reflexivity.
    + left. exists c. split; [exact Hc | reflexivity].
  - apply in_map. apply selectionLoop_in in Hc as [Hr _]. exact Hr.
Qed.

Lemma collect_nothing f l : forall o,
  (forall c, In c l -> f c = None) -> collectInto f l o = o.
Proof.
  induction l as [|c l IH]; intros o H; simpl; [reflexivity|].
  rewrite (H c (or_introl eq_refl)). apply IH. intros c' Hc'. apply H. right. exact Hc'.
Qed.

(** X18: with one selection on a well-formed sheet, filling down gives
    every selected cell the value the row just above the selection holds in
    the same column, and filling up the value of the row just below; when
    there is no such row the sheet is left as it is. *)
Theorem fill_copies_adjacent_row d s sel :
  wf_grid s ->
  s.(selectedCells) = [sel] ->
  d = Up \/ d = Down ->
  (forall src c, Arr.at_ s.(rows) (fillSourceRow d sel) = Some src ->
     In c (selectionLoop s) ->
     cellValue (fill d s) (rid (lc_rowData c)) (cid (lc_column c))
     = Some (Some (grade_at src.(grades) (cid (lc_column c)))))
  /\ (Arr.at_ s.(rows) (fillSourceRow d sel) = None -> fill d s = s).
Proof.
  intros Hwf Hsel Hd.
  assert (Hone : forall c, In c (selectionLoop s) -> lc_selection c = sel).
  { intros c Hc. apply selectionLoop_cell in Hc as (Hin & _).
    rewrite Hsel in Hin. destruct Hin as [E|[]]. symmetry. exact E. }
  split.
  - intros src c Hsrc Hc. unfold fill.
    destruct (selectedCells s) eqn:E; [discriminate|]. clear E.
    apply (batch_writes_on_loop s _ (fun c => grade_at (grades src) (cid (lc_column c))) c Hwf).
    + intros c' Hc'. cbv zeta. rewrite (Hone c' Hc').
      destruct (selectionLoop_cell s c' Hc') as (_ & _ & Hcol).
      destruct Hd as [-> | ->]; cbn [fillSourceRow] in Hsrc; rewrite Hsrc, Hcol; reflexivity.
    + intros c' Hc' E. destruct (loopKey_cell s Hwf c' c Hc' Hc E) as [_ ->]. reflexivity.
    + exact Hc.
  - intros Hnone. unfold fill.
    destruct (selectedCells s) eqn:E; [reflexivity|]. clear E.
    match goal with
    | |- batchUpdate (collectUpdates s ?f) s = s =>
        change (collectUpdates s f) with (collectInto f (selectionLoop s) []);
        rewrite (collect_nothing f (selectionLoop s) []); [reflexivity|]
    end.
    intros c Hc. cbv zeta. rewrite (Hone c Hc).
    destruct Hd as [-> | ->]; cbn [fillSourceRow] in Hnone; rewrite Hnone; reflexivity.
Qed.

Lemma fill_copies_adjacent_row_witness :
  cellValue (fill Down Examples.secondSelected) 2 "assignment1" = Some (Some (Some (9025 # 100))).
Proof.
  assert (Hwf : wf_grid Examples.secondSelected).
  { constructor; simpl.
    - repeat constructor; simpl; intuition discriminate.
    - repeat constructor; simpl; tauto.
    - intros c [<-|[]]. reflexivity.
    - intros r [<-|[<-|[]]]; simpl; (split; [repeat constructor; simpl; tauto|]);
        intros k [<-|[]]; reflexivity. }
  apply (proj1 (fill_copies_adjacent_row Down Examples.secondSelected Examples.secondCell
                  Hwf eq_refl (or_intror eq_refl))
           (mkRow 1 [("assignment1"%string, Some (9025 # 100))] (1805 # 100) (9025 # 100) 1 true false)
           Examples.secondLoop eq_refl).
  left. reflexivity.
Defined.

End Fill.

(* ----------------------------------------------------------------- *)
(** ** The store's arithmetic *)

Section Arithmetic.

Lemma add_eq a b : (add a b == a + b)%Q.
Proof. unfold add. apply Qred_correct. Qed.

Lemma mul_eq a b : (mul a b == a * b)%Q.
Proof. unfold mul. apply Qred_correct. Qed.

Lemma div_eq a b : (div a b == a / b)%Q.
Proof. unfold div. apply Qred_correct. Qed.

End Arithmetic.

(* ----------------------------------------------------------------- *)
(** ** Selected rows and columns *)

Section SetOfIds.

Context {A : Type} (eqb : A -> A -> bool).
Hypothesis eqb_spec : forall x y, eqb x y = true <-> x = y.

Lemma NoDup_snoc (x : A) set : NoDup set -> ~ In x set -> NoDup (set ++ [x]).
Proof.
  induction 1 as [|y l Hy Hl IH]; simpl; intros Hx.
  - repeat constructor. simpl. tauto.
  - constructor.
    + rewrite in_app_iff. simpl. intros [H|[H|[]]]; [auto|]. apply Hx. left. symmetry. exact H.
    + apply IH. intros H. apply Hx. right. exact H.
Qed.

Lemma Set_add_In x set y : In y (Arr.Set_add eqb x set) <-> y = x \/ In y set.
Proof.
  unfold Arr.Set_add. destruct (existsb (eqb x) set) eqn:E.
  - split; [auto|]. intros [->|H]; [|exact H].
    apply existsb_exists in E as (z & Hz & Ez). apply eqb_spec in Ez. subst z. exact Hz.
  - rewrite in_app_iff. simpl. intuition.
Qed.

Lemma Set_add_NoDup x set : NoDup set -> NoDup (Arr.Set_add eqb x set).
Proof.
  intros Hnd. unfold Arr.Set_add. destruct (existsb (eqb x) set) eqn:E; [exact Hnd|].
  apply NoDup_snoc; [exact Hnd|]. intros Hx.
  assert (existsb (eqb x) set = true)
    by (apply existsb_exists; exists x; split; [exact Hx | apply eqb_spec; reflexivity]).
  congruence.
Qed.

(** Adding to a [Set] the key of what each index of a loop finds, if it
    finds anything. *)
Lemma fold_Set_add {I B} (pick : I -> option B) (key : B -> A) (l : list I) : forall set,
  NoDup set ->
  NoDup (fold_left (fun set i => match pick i with
                                 | Some b => Arr.Set_add eqb (key b) set
                                 | None => set
                                 end) l set)
  /\ forall y,
       In y (fold_left (fun set i => match pick i with
                                     | Some b => Arr.Set_add eqb (key b) set
                                     | None => set
                                     end) l set)
       <-> In y set \/ exists i b, In i l /\ pick i = Some b /\ key b = y.
Proof.
  induction l as [|i l IH]; intros set Hnd; cbn [fold_left].
  - split; [exact Hnd|]. intros y. split; [auto|]. intros [H|(i & b & [] & _)]. exact H.
  - destruct (pick i) as [x|] eqn:E.
    + destruct (IH (Arr.Set_add eqb (key x) set) (Set_add_NoDup (key x) set Hnd)) as [H1 H2].
      split; [exact H1|]. intros y. rewrite H2, Set_add_In. split.
      * intros [[->|H]|(j & b & Hj & Hp & Hk)].
        -- right. exists i, x. eauto 10 using in_eq, in_cons.
        -- left. exact H.
        -- right. exists j, b. eauto 10 using in_eq, in_cons.
      * intros [H|(j & b & [<-|Hj] & Hp & Hk)].
        -- left. right. exact H.
        -- left. left. congruence.
        -- right. exists j, b. eauto 10 using in_eq, in_cons.
    + destruct (IH set Hnd) as [H1 H2]. split; [exact H1|].
      intros y. rewrite H2. split.
      * intros [H|(j & b & Hj & Hp & Hk)]; [left; exact H | right; exists j, b; eauto 10 using in_eq, in_cons].
      * intros [H|(j & b & [<-|Hj] & Hp & Hk)];
          [left; exact H | congruence | right; exists j, b; eauto 10 using in_eq, in_cons].
Qed.

Lemma fold_fold_Set_add {S I B} (idx : S -> list I) (pick : I -> option B) (key : B -> A)
    (sels : list S) : forall set,
  NoDup set ->
  NoDup (fold_left (fun set sel =>
                      fold_left (fun set i => match pick i with
                                              | Some b => Arr.Set_add eqb (key b) set
                                              | None => set
                                              end) (idx sel) set) sels set)
  /\ forall y,
       In y (fold_left (fun set sel =>
                          fold_left (fun set i => match pick i with
                                                  | Some b => Arr.Set_add eqb (key b) set
                                                  | None => set
                                                  end) (idx sel) set) sels set)
       <-> In y set \/ exists sel i b, In sel sels /\ In i (idx sel) /\ pick i = Some b /\ key b = y.
Proof.
  induction sels as [|sel sels IH]; intros set Hnd; cbn [fold_left].
  - split; [exact Hnd|]. intros y. split; [auto|]. intros [H|(s & i & b & [] & _)]. exact H.
  - destruct (fold_Set_add pick key (idx sel) set Hnd) as [N1 M1].
    destruct (IH _ N1) as [N2 M2]. split; [exact N2|].
    intros y. rewrite M2, M1. split.
    + intros [[H|(i & b & Hi & Hp)]|(s & i & b & Hs & Hi & Hp)].
      * left. exact H.
      * right. exists sel, i, b. eauto 10 using in_eq, in_cons.
      * right. exists s, i, b. eauto 10 using in_eq, in_cons.
    + intros [H|(s & i & b & [<-|Hs] & Hi & Hp)].
      * left. left. exact H.
      * left. right. exists i, b. eauto 10 using in_eq, in_cons.
      * right. exists s, i, b. eauto 10 using in_eq, in_cons.
Qed.

End SetOfIds.

Section SelectedRowsAndColumns.

(** X21: [selectedRows] lists each selected row id once, however the
    selections overlap, and lists exactly the ids of the rows whose index
    lies in some selection; [selectedColumns] does the same for the columns
    between the positions of a selection's first and last column. *)
Theorem selected_ids_listed_once s :
  NoDup (selectedRows s)
  /\ (forall r, In r (selectedRows s) <->
        exists sel i row, In sel s.(selectedCells)
          /\ (sel.(startRow) <= i <= sel.(endRow))%Z
          /\ Arr.at_ s.(rows) i = Some row /\ rid row = r)
  /\ NoDup (selectedColumns s)
  /\ (forall c, In c (selectedColumns s) <->
        exists sel j col, In sel s.(selectedCells)
          /\ (columnIndex s sel.(startColumn) <= j <= columnIndex s sel.(endColumn))%Z
          /\ Arr.at_ s.(columns) j = Some col /\ cid col = c).
Proof.
  pose proof (fold_fold_Set_add N.eqb N.eqb_eq
                (fun sel => Arr.range sel.(startRow) sel.(endRow))
                (fun i => Arr.at_ s.(rows) i) rid
                s.(selectedCells) [] (NoDup_nil _)) as [N1 M1].
  pose proof (fold_fold_Set_add String.eqb String.eqb_eq
                (fun sel => Arr.range (columnIndex s sel.(startColumn))
                              (columnIndex s sel.(endColumn)))
                (fun j => Arr.at_ s.(columns) j) cid
                s.(selectedCells) [] (NoDup_nil _)) as [N2 M2].
  split; [exact N1|]. split.
  - intros r. unfold selectedRows. rewrite M1. split.
    + intros [[]|(sel & i & b & Hs & Hi & Hp & Hk)].
      exists sel, i, b. apply range_In in Hi. auto.
    + intros (sel & i & b & Hs & Hi & Hp & Hk). right.
      exists sel, i, b. rewrite range_In. auto.
  - split; [exact N2|].
    intros c. unfold selectedColumns. rewrite M2. split.
    + intros [[]|(sel & i & b & Hs & Hi & Hp & Hk)].
      exists sel, i, b. apply range_In in Hi. auto.
    + intros (sel & i & b & Hs & Hi & Hp & Hk). right.
      exists sel, i, b. rewrite range_In. auto.
Qed.

End SelectedRowsAndColumns.

(* ----------------------------------------------------------------- *)
(** ** Windows over rows of different heights *)

Section BinarySearch.
Import DynamicVirtualScroll.

Lemma floor_half n : Math_floor (inject_Z n / 2) = (n / 2)%Z.
Proof.
  unfold Math_floor, Qdiv, Qmult, Qinv, inject_Z. simpl.
  rewrite Z.mul_1_r. reflexivity.
Qed.

(** On a range where [goRight] holds up to some index and fails from it
    on, the loop ends and leaves [left] on that index. *)
Lemma search_boundary (goRight : Z -> bool) (lo hi : Z) :
  (forall i j, (lo <= i <= j)%Z -> (j <= hi)%Z -> goRight j = true -> goRight i = true) ->
  forall fuel left right,
  (lo <= left)%Z -> (right <= hi)%Z -> (left <= right + 1)%Z ->
  (Z.to_nat (right - left + 1) <= fuel)%nat ->
  (forall i, (lo <= i < left)%Z -> goRight i = true) ->
  (forall i, (right < i <= hi)%Z -> goRight i = false) ->
  exists final,
    search fuel goRight left right = Some final
    /\ (left <= final <= right + 1)%Z
    /\ (forall i, (lo <= i < final)%Z -> goRight i = true)
    /\ (forall i, (final <= i <= hi)%Z -> goRight i = false).
Proof.
  intros Hmono. induction fuel as [|fuel IH]; intros left right Hlo Hhi Hlr Hfuel Hl Hr.
  - simpl. destruct (left <=? right)%Z eqn:E; [apply Z.leb_le in E; lia|].
    apply Z.leb_gt in E. exists left. repeat split; try lia; auto.
    intros i Hi. apply Hr. lia.
  - cbn [search]. destruct (left <=? right)%Z eqn:E.
    + apply Z.leb_le in E. rewrite floor_half.
      assert (Hmid : (left <= (left + right) / 2 <= right)%Z).
      { split; [apply Z.div_le_lower_bound | apply Z.div_le_upper_bound]; lia. }
      destruct (goRight ((left + right) / 2)%Z) eqn:G.
      * destruct (IH ((left + right) / 2 + 1)%Z right) as (final & H1 & H2 & H3 & H4);
          try lia.
        -- intros i Hi. apply (Hmono i ((left + right) / 2)%Z); [lia | lia | exact G].
        -- exact Hr.
        -- exists final. repeat split; try lia; auto.
      * destruct (IH left ((left + right) / 2 - 1)%Z) as (final & H1 & H2 & H3 & H4);
          try lia.
        -- exact Hl.
        -- intros i Hi. destruct (goRight i) eqn:Gi; [|reflexivity].
           rewrite (Hmono ((left + right) / 2)%Z i) in G; [discriminate | lia | lia | exact Gi].
        -- exists final. repeat split; try lia; auto.
    + apply Z.leb_gt in E. exists left. repeat split; try lia; auto.
      intros i Hi. apply Hr. lia.
Qed.

Lemma binarySearch_boundary (goRight : Z -> bool) (lo hi : Z) :
  (lo <= hi + 1)%Z ->
  (forall i j, (lo <= i <= j)%Z -> (j <= hi)%Z -> goRight j = true -> goRight i = true) ->
  exists final,
    binarySearch goRight lo hi = Some final
    /\ (lo <= final <= hi + 1)%Z
    /\ (forall i, (lo <= i < final)%Z -> goRight i = true)
    /\ (forall i, (final <= i <= hi)%Z -> goRight i = false).
Proof.
  intros Hle Hmono. unfold binarySearch.
  apply (search_boundary goRight lo hi Hmono); try lia.
Qed.

End BinarySearch.

Section MeasuredLayout.
Import DynamicVirtualScroll.

Context {T : Type} (getItemHeight : T -> Z -> Q).

Lemma measureFrom_lengths (items : list T) : forall i cur,
  List.length (itemHeights (measureFrom getItemHeight i cur items)) = List.length items
  /\ List.length (itemPositions (measureFrom getItemHeight i cur items)) = List.length items.
Proof.
  induction items as [|x r IH]; intros i cur; simpl; [split; reflexivity|].
  destruct (IH (i + 1)%Z (add cur (getItemHeight x i))) as [-> ->]. split; reflexivity.
Qed.

Lemma measureFrom_heights (items : list T) : forall i cur k,
  nth_error (itemHeights (measureFrom getItemHeight i cur items)) k
  = option_map (fun item => getItemHeight item (i + Z.of_nat k)%Z) (nth_error items k).
Proof.
  induction items as [|x r IH]; intros i cur k; simpl.
  - destruct k; reflexivity.
  - destruct k as [|k]; simpl.
    + rewrite Z.add_0_r. reflexivity.
    + rewrite IH. destruct (nth_error r k); [|reflexivity]. simpl. do 2 f_equal. lia.
Qed.

(** A position is the starting position plus the heights before it. *)
Lemma measureFrom_positions (items : list T) : forall i cur k top,
  nth_error (itemPositions (measureFrom getItemHeight i cur items)) k = Some top ->
  (top == cur + sumOf (firstn k (itemHeights (measureFrom getItemHeight i cur items))))%Q.
Proof.
  induction items as [|x r IH]; intros i cur k top;
    cbn [measureFrom itemHeights itemPositions].
  - destruct k; discriminate.
  - destruct k as [|k]; cbn [nth_error firstn].
    + intros E. injection E as <-. unfold sumOf. cbn [fold_right]. ring.
    + intros E. apply IH in E. rewrite E.
      unfold sumOf. cbn [fold_right]. rewrite Qplus_assoc.
      apply Qplus_inj_r. apply add_eq.
Qed.

Hypothesis positive : forall item index, (0 < getItemHeight item index)%Q.

Lemma measureFrom_ge (items : list T) : forall i cur k top,
  nth_error (itemPositions (measureFrom getItemHeight i cur items)) k = Some top ->
  (cur <= top)%Q.
Proof.
  induction items as [|x r IH]; intros i cur k top; simpl.
  - destruct k; discriminate.
  - destruct k as [|k]; simpl.
    + intros E. injection E as <-. apply Qle_refl.
    + intros E. apply IH in E. eapply Qle_trans; [|exact E].
      rewrite add_eq.
      rewrite <- (Qplus_0_r cur) at 1. apply Qplus_le_r. apply Qlt_le_weak, positive.
Qed.

(** An item ends where or before any later item starts. *)
Lemma measureFrom_ordered (items : list T) : forall i cur k k' top height top',
  (k < k')%nat ->
  nth_error (itemPositions (measureFrom getItemHeight i cur items)) k = Some top ->
  nth_error (itemHeights (measureFrom getItemHeight i cur items)) k = Some height ->
  nth_error (itemPositions (measureFrom getItemHeight i cur items)) k' = Some top' ->
  (top + height <= top')%Q.
Proof.
  induction items as [|x r IH]; intros i cur k k' top height top' Hk; simpl.
  - destruct k; discriminate.
  - destruct k' as [|k']; [lia|]. destruct k as [|k]; simpl.
    + intros E1 E2 E3. injection E1 as <-. injection E2 as <-.
      apply measureFrom_ge in E3. rewrite add_eq in E3. exact E3.
    + intros E1 E2 E3. eapply (IH _ _ k k'); try eassumption. lia.
Qed.

Lemma measureFrom_positive (items : list T) : forall i cur k height,
  nth_error (itemHeights (measureFrom getItemHeight i cur items)) k = Some height ->
  (0 < height)%Q.
Proof.
  intros i cur k height. rewrite measureFrom_heights.
  destruct (nth_error items k); simpl; [|discriminate].
  intros E. injection E as <-. apply positive.
Qed.

End MeasuredLayout.

Section DynamicWindow.
Import DynamicVirtualScroll.

Lemma lt_spec a b : lt a b = true <-> (a < b)%Q.
Proof.
  unfold lt. rewrite negb_true_iff. split.
  - intros H. apply Qnot_le_lt. intros Hle. apply Qle_bool_iff in Hle. congruence.
  - intros H. apply not_true_iff_false. intros Hle. apply Qle_bool_iff in Hle.
    apply (Qlt_not_le _ _ H Hle).
Qed.

Lemma at_some {A} (l : list A) i x :
  Arr.at_ l i = Some x <-> (0 <= i)%Z /\ nth_error l (Z.to_nat i) = Some x.
Proof.
  unfold Arr.at_. destruct (i <? 0)%Z eqn:E.
  - apply Z.ltb_lt in E. split; [discriminate | lia].
  - apply Z.ltb_ge in E. tauto.
Qed.

Lemma at_bounds {A} (l : list A) i x :
  Arr.at_ l i = Some x -> (0 <= i < Z.of_nat (List.length l))%Z.
Proof.
  intros H. apply at_some in H as [H0 H].
  assert (Z.to_nat i < List.length l)%nat by (apply nth_error_Some; congruence). lia.
Qed.

Lemma at_defined {A} (l : list A) i :
  (0 <= i < Z.of_nat (List.length l))%Z -> exists x, Arr.at_ l i = Some x.
Proof.
  intros H. destruct (nth_error l (Z.to_nat i)) as [x|] eqn:E.
  - exists x. apply at_some. split; [lia | exact E].
  - apply nth_error_None in E. lia.
Qed.

Lemma mapi_from_length {A B} (f : A -> Z -> B) l : forall i,
  List.length (Arr.mapi_from f i l) = List.length l.
Proof. induction l as [|x l IH]; intros i; simpl; [|rewrite IH]; reflexivity. Qed.

Lemma or_estimate_positive o h : (0 < h)%Q -> or_estimate o (Some h) = h.
Proof.
  intros H. unfold or_estimate. destruct (Qeq_bool h 0) eqn:E; [|reflexivity].
  apply Qeq_bool_iff in E. rewrite E in H. discriminate.
Qed.

(** X22: with item heights that are all positive and an overscan of at
    least 1, both binary searches of [useDynamicVirtualScroll] end, and the
    window they give, clamped to the list, contains every item whose span
    meets the viewport. *)
Theorem dynamic_window_covers_viewport {T} (items : list T) (getItemHeight : T -> Z -> Q)
    (o : Options) (V S : Q) :
  (forall item index, (0 < getItemHeight item index)%Q) ->
  (1 <= overscan_of o)%Z ->
  let l := updateItemHeights items getItemHeight o in
  let len := List.length items in
  exists start stop,
    startIndex len o l S = Some start
    /\ endIndex len o l V S = Some stop
    /\ (0 <= start)%Z /\ (stop <= Z.of_nat len)%Z
    /\ (forall i, itemMeets l S V i -> (start <= i < stop)%Z).
Proof.
  intros Hpos Hov l len.
  destruct (showAll len o) eqn:Hall.
  { exists 0%Z, (Z.of_nat len). unfold startIndex, endIndex. rewrite Hall.
    repeat split; try lia.
    - destruct H as (top & h & Ht & _). apply at_bounds in Ht. lia.
    - destruct H as (top & h & Ht & _). apply at_bounds in Ht.
      unfold l, updateItemHeights in Ht. fold len in Ht. rewrite Hall in Ht.
      cbn [itemPositions] in Ht. unfold Arr.mapi in Ht. rewrite mapi_from_length in Ht.
      exact (proj2 Ht). }
  assert (El : l = measureFrom getItemHeight 0 0 items).
  { unfold l, updateItemHeights. fold len. rewrite Hall. reflexivity. }
  destruct (measureFrom_lengths getItemHeight items 0 0) as [Lh Lp].
  rewrite <- El in Lh, Lp. fold len in Lh, Lp.
  (* the layout, read with the indices of the code *)
  assert (Hord : forall i j top h top',
            (0 <= i < j)%Z ->
            Arr.at_ (itemPositions l) i = Some top ->
            Arr.at_ (itemHeights l) i = Some h ->
            Arr.at_ (itemPositions l) j = Some top' ->
            (top + h <= top')%Q).
  { intros i j top h top' Hij H1 H2 H3.
    apply at_some in H1 as [_ H1], H2 as [_ H2], H3 as [_ H3]. rewrite El in H1, H2, H3.
    apply (measureFrom_ordered getItemHeight Hpos items 0 0
             (Z.to_nat i) (Z.to_nat j) top h top'); try assumption. lia. }
  assert (Hdef : forall i, (0 <= i < Z.of_nat len)%Z ->
            exists top h, Arr.at_ (itemPositions l) i = Some top
                          /\ Arr.at_ (itemHeights l) i = Some h /\ (0 < h)%Q).
  { intros i Hi.
    destruct (at_defined (itemPositions l) i) as [top Ht]; [lia|].
    destruct (at_defined (itemHeights l) i) as [h Hh]; [lia|].
    exists top, h. repeat split; try assumption.
    apply at_some in Hh as [_ Hh]. rewrite El in Hh.
    apply (measureFrom_positive getItemHeight Hpos items 0 0 _ _ Hh). }
  assert (Hbottom : forall i top h,
            Arr.at_ (itemPositions l) i = Some top ->
            Arr.at_ (itemHeights l) i = Some h -> (0 < h)%Q ->
            exists b, itemBottom o l i = Some b /\ (b == top + h)%Q).
  { intros i top h Ht Hh Hh0. unfold itemBottom. rewrite Ht, Hh.
    rewrite or_estimate_positive by exact Hh0.
    eexists. split; [reflexivity | apply add_eq]. }
  (* the first search *)
  destruct (binarySearch_boundary (startsAbove l S) 0 (Z.of_nat (List.length (itemPositions l)) - 1))
    as (lb & Eb & Hlb & Hbelow & Habove); [lia | |].
  { intros i j Hij Hj. unfold startsAbove.
    destruct (Hdef i) as (ti & hi & Hti & Hhi & Hi0); [lia|].
    destruct (Hdef j) as (tj & hj & Htj & Hhj & Hj0); [lia|].
    rewrite Hti, Htj. rewrite !lt_spec. intros Hlt.
    destruct (Z.eq_dec i j) as [->|Hne]; [congruence|].
    eapply Qle_lt_trans; [|exact Hlt].
    eapply Qle_trans; [|apply (Hord i j ti hi tj); try assumption; lia].
    rewrite <- (Qplus_0_r ti) at 1. apply Qplus_le_r, Qlt_le_weak, Hi0. }
  set (start := Z.max 0 (lb - overscan_of o)).
  assert (Es : startIndex len o l S = Some start).
  { unfold startIndex. rewrite Hall, Eb. reflexivity. }
  (* the second search *)
  destruct (binarySearch_boundary (endsAbove o l (add S V)) start
              (Z.of_nat (List.length (itemPositions l)) - 1))
    as (le & Ee & Hle & Hin & Hout); [lia | |].
  { intros i j Hij Hj. unfold endsAbove.
    destruct (Hdef i) as (ti & hi & Hti & Hhi & Hi0); [lia|].
    destruct (Hdef j) as (tj & hj & Htj & Hhj & Hj0); [lia|].
    destruct (Hbottom i ti hi Hti Hhi Hi0) as (bi & -> & Ebi).
    destruct (Hbottom j tj hj Htj Hhj Hj0) as (bj & -> & Ebj).
    intros Hb. apply Qle_bool_iff in Hb. apply Qle_bool_iff.
    destruct (Z.eq_dec i j) as [E|Hne].
    - subst j. rewrite Hti in Htj. injection Htj as <-.
      rewrite Hhi in Hhj. injection Hhj as <-. rewrite Ebi, <- Ebj. exact Hb.
    - eapply Qle_trans; [|exact Hb]. rewrite Ebi, Ebj.
      eapply Qle_trans; [apply (Hord i j ti hi tj); try assumption; lia|].
      rewrite <- (Qplus_0_r tj) at 1. apply Qplus_le_r, Qlt_le_weak, Hj0. }
  exists start, (Z.min (Z.of_nat len) (le + overscan_of o)).
  split; [exact Es|].
  split; [unfold endIndex; rewrite Hall; cbv zeta; rewrite Es, Ee; reflexivity|].
  split; [lia|]. split; [lia|].
  intros i (top & h & Ht & Hh & Hs & Hv).
  pose proof (at_bounds _ _ _ Ht) as Hi. rewrite Lp in Hi.
  split.
  - destruct (Z_lt_le_dec i start) as [Hlt|]; [exfalso | assumption].
    destruct (Hdef (i + 1)%Z) as (t1 & h1 & Ht1 & _); [lia|].
    assert (G : startsAbove l S (i + 1) = true) by (apply Hbelow; lia).
    unfold startsAbove in G. rewrite Ht1 in G. apply lt_spec in G.
    pose proof (Hord i (i + 1)%Z top h t1 ltac:(lia) Ht Hh Ht1) as Ho.
    apply (Qlt_not_le _ _ G). eapply Qle_trans; eassumption.
  - destruct (Z_lt_le_dec i (le + overscan_of o)) as [|Hge]; [lia | exfalso].
    destruct (Hdef le) as (t1 & h1 & Ht1 & Hh1 & H10); [lia|].
    destruct (Hbottom le t1 h1 Ht1 Hh1 H10) as (b & Eb1 & Eb2).
    assert (G : endsAbove o l (add S V) le = false) by (apply Hout; lia).
    unfold endsAbove in G. rewrite Eb1 in G.
    apply not_true_iff_false in G. apply G. apply Qle_bool_iff.
    rewrite Eb2, add_eq.
    eapply Qle_trans; [apply (Hord le i t1 h1 top); try assumption; lia | exact Hv].
Qed.

Lemma dynamic_window_covers_viewport_witness :
  exists start stop,
    startIndex 5 Examples.alwaysVirtual
      (updateItemHeights Examples.stripes Examples.stripeHeight Examples.alwaysVirtual) 45
    = Some start
    /\ endIndex 5 Examples.alwaysVirtual
         (updateItemHeights Examples.stripes Examples.stripeHeight Examples.alwaysVirtual) 40 45
       = Some stop
    /\ (0 <= start)%Z /\ (stop <= 5)%Z
    /\ (forall i,
          itemMeets (updateItemHeights Examples.stripes Examples.stripeHeight Examples.alwaysVirtual)
            45 40 i ->
          (start <= i < stop)%Z).
Proof.
  apply (dynamic_window_covers_viewport Examples.stripes Examples.stripeHeight
           Examples.alwaysVirtual 40 45).
  - intros item index. unfold Examples.stripeHeight. destruct (Z.even index); reflexivity.
  - discriminate.
Defined.

End DynamicWindow.

Section DynamicLayout.
Import DynamicVirtualScroll.

Lemma firstn_last_split {A} (l : list A) x :
  nth_error l (List.length l - 1) = Some x -> l = firstn (List.length l - 1) l ++ [x].
Proof.
  intros H. rewrite <- (firstn_skipn (List.length l - 1) l) at 1. f_equal.
  assert (Hlen : List.length (skipn (List.length l - 1) l) = 1%nat).
  { rewrite length_skipn. assert (List.length l - 1 < List.length l)%nat
      by (apply nth_error_Some; congruence). lia. }
  destruct (skipn (List.length l - 1) l) as [|y [|z r]] eqn:E; try discriminate.
  f_equal.
  assert (H' : nth_error (skipn (List.length l - 1) l) 0 = Some x).
  { rewrite nth_error_skipn, Nat.add_0_r. exact H. }
  rewrite E in H'. simpl in H'. congruence.
Qed.

(** A position is the starting position with the heights before it added
    to it one after the other. *)
Lemma measureFrom_running {T} (getItemHeight : T -> Z -> Q) (items : list T) :
  forall i cur k top,
  nth_error (itemPositions (measureFrom getItemHeight i cur items)) k = Some top ->
  top = fold_left add (firstn k (itemHeights (measureFrom getItemHeight i cur items))) cur.
Proof.
  induction items as [|item rest IH]; intros i cur k top H; cbn [measureFrom] in *.
  - destruct k; discriminate.
  - cbn [itemPositions itemHeights] in *. destruct k as [|k]; cbn [nth_error firstn fold_left] in *.
    + congruence.
    + apply IH. exact H.
Qed.

(** X23: the layout [updateItemHeights] computes has one height and one
    position per item; when the list is virtualized each position is 0 with
    the heights of the items before it added one after the other, by the
    additions the code makes; with positive heights and at least one item,
    [totalHeight] is all the heights added up in the same way; and
    [offsetY] is the position of the item at [startIndex], the heights of the
    skipped items added up, as long as [startIndex] is an index of the list,
    and 0 when [startIndex] is the number of items. *)
Theorem dynamic_layout_adds_up {T} (items : list T) (getItemHeight : T -> Z -> Q)
    (o : Options) :
  (forall item index, (0 < getItemHeight item index)%Q) ->
  let l := updateItemHeights items getItemHeight o in
  let len := List.length items in
  List.length (itemHeights l) = len
  /\ List.length (itemPositions l) = len
  /\ (showAll len o = false ->
      forall i top, Arr.at_ (itemPositions l) i = Some top ->
        top = addedUp (firstn (Z.to_nat i) (itemHeights l)))
  /\ (items <> [] -> totalHeight len o l = Some (addedUp (itemHeights l)))
  /\ (forall S start, startIndex len o l S = Some start ->
        (0 <= start)%Z
        /\ offsetY len o l S
           = Some (if (start <? Z.of_nat len)%Z
                   then addedUp (firstn (Z.to_nat start) (itemHeights l))
                   else 0%Q)).
Proof.
  intros Hpos l len.
  assert (Hlen : List.length (itemHeights l) = len /\ List.length (itemPositions l) = len).
  { unfold l, updateItemHeights. fold len. destruct (showAll len o).
    - cbn [itemHeights itemPositions]. unfold Arr.mapi.
      rewrite length_map, mapi_from_length. split; reflexivity.
    - apply measureFrom_lengths. }
  destruct Hlen as [Lh Lp].
  assert (Hrun : showAll len o = false ->
            forall i top, Arr.at_ (itemPositions l) i = Some top ->
              top = addedUp (firstn (Z.to_nat i) (itemHeights l))).
  { intros Hall i top Ht. apply at_some in Ht as [_ Ht]. revert Ht.
    unfold l, updateItemHeights. fold len. rewrite Hall.
    apply measureFrom_running. }
  split; [exact Lh|]. split; [exact Lp|]. split; [exact Hrun|].
  split.
  - intros Hne.
    assert (Hlen0 : (0 < len)%nat) by (unfold len; destruct items; [congruence | simpl; lia]).
    unfold totalHeight. destruct (showAll len o) eqn:Hall; [reflexivity|].
    destruct (at_defined (itemPositions l) (Z.of_nat (List.length (itemPositions l)) - 1))
      as [top Ht]; [lia|].
    destruct (at_defined (itemHeights l) (Z.of_nat (List.length (itemHeights l)) - 1))
      as [h Hh]; [lia|].
    rewrite Ht, Hh. f_equal.
    assert (Hh0 : (0 < h)%Q).
    { apply at_some in Hh as [_ Hh]. revert Hh. unfold l, updateItemHeights. fold len.
      rewrite Hall. apply (measureFrom_positive getItemHeight Hpos). }
    rewrite or_estimate_positive by exact Hh0.
    rewrite (Hrun eq_refl _ _ Ht).
    apply at_some in Hh as [_ Hh].
    replace (Z.to_nat (Z.of_nat (List.length (itemHeights l)) - 1))
      with (List.length (itemHeights l) - 1)%nat in Hh by lia.
    replace (Z.to_nat (Z.of_nat (List.length (itemPositions l)) - 1))
      with (List.length (itemHeights l) - 1)%nat by lia.
    unfold addedUp. symmetry.
    etransitivity;
      [apply (f_equal (fun hs => fold_left add hs 0)); exact (firstn_last_split _ _ Hh)|].
    rewrite fold_left_app. reflexivity.
  - intros S start Es. unfold offsetY. destruct (showAll len o) eqn:Hall.
    + unfold startIndex in Es. rewrite Hall in Es. injection Es as <-.
      split; [lia|]. destruct (0 <? Z.of_nat len)%Z; reflexivity.
    + rewrite Es.
      assert (H0 : (0 <= start)%Z).
      { unfold startIndex in Es. rewrite Hall in Es.
        destruct (binarySearch _ _ _); [|discriminate]. injection Es as <-. lia. }
      split; [exact H0|]. f_equal.
      destruct (Z.ltb_spec start (Z.of_nat len)) as [Hlt|Hge].
      * destruct (at_defined (itemPositions l) start) as [top Ht]; [lia|].
        rewrite Ht. cbn [nullish]. apply (Hrun eq_refl), Ht.
      * destruct (Arr.at_ (itemPositions l) start) as [top|] eqn:Ht; [|reflexivity].
        apply at_bounds in Ht. lia.
Qed.

Lemma dynamic_layout_adds_up_witness :
  offsetY 5 Examples.bare
    (updateItemHeights Examples.stripes Examples.stripeHeight Examples.bare) 45
  = Some 50%Q
  /\ offsetY 5 Examples.bare
       (updateItemHeights Examples.stripes Examples.stripeHeight Examples.bare) 105
     = Some 0%Q
  /\ totalHeight 5 Examples.bare
       (updateItemHeights Examples.stripes Examples.stripeHeight Examples.bare)
     = Some 120%Q.
Proof.
  assert (Hpos : forall (item : unit) index, (0 < Examples.stripeHeight item index)%Q).
  { intros item index. unfold Examples.stripeHeight. destruct (Z.even index); reflexivity. }
  destruct (dynamic_layout_adds_up Examples.stripes Examples.stripeHeight Examples.bare Hpos)
    as (_ & _ & _ & Htotal & Hoff).
  split; [exact (proj2 (Hoff 45%Q 2%Z eq_refl))|].
  split; [exact (proj2 (Hoff 105%Q 5%Z eq_refl))|].
  apply Htotal. discriminate.
Defined.

End DynamicLayout.

(* ----------------------------------------------------------------- *)
(** ** Extending a selection in the store *)

Section StoreExtension.

Lemma fold_min_le l : forall a, (fold_left Z.min l a <= a)%Z.
Proof.
  induction l as [|x l IH]; intros a; simpl; [lia|]. specialize (IH (Z.min a x)). lia.
Qed.

Lemma fold_min_in l : forall a x, In x l -> (fold_left Z.min l a <= x)%Z.
Proof.
  induction l as [|y l IH]; intros a x Hin; simpl; [contradiction|].
  destruct Hin as [->|Hin]; [|apply IH, Hin].
  pose proof (fold_min_le l (Z.min a x)). lia.
Qed.

Lemma fold_max_ge l : forall a, (a <= fold_left Z.max l a)%Z.
Proof.
  induction l as [|x l IH]; intros a; simpl; [lia|]. specialize (IH (Z.max a x)). lia.
Qed.

Lemma fold_max_in l : forall a x, In x l -> (x <= fold_left Z.max l a)%Z.
Proof.
  induction l as [|y l IH]; intros a x Hin; simpl; [contradiction|].
  destruct Hin as [->|Hin]; [|apply IH, Hin].
  pose proof (fold_max_ge l (Z.max a x)). lia.
Qed.

Lemma last_any_default {A} (l : list A) x d d' : last (x :: l) d = last (x :: l) d'.
Proof.
  revert x. induction l as [|y l IH]; intros x; [reflexivity|].
  change (last (y :: l) d = last (y :: l) d'). apply IH.
Qed.

Lemma findIndex_found_row s r :
  In r (map rid s.(rows)) -> (rowIndexOf s r =? -1)%Z = false.
Proof.
  intros Hin. apply in_map_iff in Hin as (x & <- & Hx). apply Z.eqb_neq.
  pose proof (findIndex_some (row_is (rid x)) (rows s) x Hx (N.eqb_refl _)).
  unfold rowIndexOf. lia.
Qed.

Lemma findIndex_found_col s c :
  In c (map cid s.(columns)) -> (Arr.findIndex (col_is c) s.(columns) =? -1)%Z = false.
Proof.
  intros Hin. apply in_map_iff in Hin as (x & <- & Hx). apply Z.eqb_neq.
  pose proof (findIndex_some (col_is (cid x)) (columns s) x Hx (String.eqb_refl _)). lia.
Qed.

(** One shift-click on a sheet with one selection. *)
Lemma selectCell_extends s sel r c :
  s.(selectedCells) = [sel] ->
  In r (map rid s.(rows)) -> In c (map cid s.(columns)) ->
  selectCell r c true s
  = set_currentCell (Some (mkCell r c None None false true))
      (set_selectedCells
         [mkSelection (Z.min (startRow sel) (rowIndexOf s r)) (Z.max (endRow sel) (rowIndexOf s r))
            (startColumn sel) c KRange] s).
Proof.
  intros Hsel Hr Hc. unfold selectCell.
  fold (rowIndexOf s r). rewrite (findIndex_found_row s r Hr), (findIndex_found_col s c Hc).
  cbn [orb]. unfold last_selection. rewrite Hsel. reflexivity.
Qed.

Lemma extendStore_spans ts : forall s0 s sel,
  rows s0 = rows s -> columns s0 = columns s ->
  s0.(selectedCells) = [sel] ->
  (forall x, In x ts -> In (fst x) (map rid s.(rows)) /\ In (snd x) (map cid s.(columns))) ->
  rows (extendStore ts s0) = rows s /\ columns (extendStore ts s0) = columns s
  /\ selectedCells (extendStore ts s0)
     = [mkSelection
          (fold_left Z.min (map (fun x => rowIndexOf s (fst x)) ts) (startRow sel))
          (fold_left Z.max (map (fun x => rowIndexOf s (fst x)) ts) (endRow sel))
          (startColumn sel)
          (last (map snd ts) (endColumn sel))
          (match ts with [] => s_type sel | _ => KRange end)]
  /\ (ts <> [] ->
      currentCell (extendStore ts s0)
      = Some (mkCell (fst (last ts (0%N, EmptyString))) (snd (last ts (0%N, EmptyString)))
                None None false true)).
Proof.
  induction ts as [|t ts IH]; intros s0 s sel Hr Hc Hsel Hall.
  - simpl. repeat split; try assumption; [|congruence].
    rewrite Hsel. destruct sel. reflexivity.
  - unfold extendStore. cbn [fold_left]. fold (extendStore ts (selectCell (fst t) (snd t) true s0)).
    destruct (Hall t (or_introl eq_refl)) as [Ht1 Ht2].
    rewrite (selectCell_extends s0 sel (fst t) (snd t) Hsel)
      by (rewrite ?Hr, ?Hc; assumption).
    match goal with
    | |- context [extendStore ts ?st] =>
        destruct (IH st s
                    (mkSelection (Z.min (startRow sel) (rowIndexOf s0 (fst t)))
                       (Z.max (endRow sel) (rowIndexOf s0 (fst t)))
                       (startColumn sel) (snd t) KRange))
          as (H1 & H2 & H3 & H4);
          [exact Hr | exact Hc | reflexivity
          | intros x Hx; apply Hall; right; exact Hx |]
    end.
    split; [exact H1|]. split; [exact H2|]. split.
    + rewrite H3. cbn [startRow endRow startColumn endColumn s_type map fold_left].
      unfold rowIndexOf. rewrite Hr. f_equal. f_equal.
      * destruct ts as [|t' ts']; [reflexivity|]. cbn [map].
        change (last (snd t :: snd t' :: map snd ts') (endColumn sel))
          with (last (snd t' :: map snd ts') (endColumn sel)).
        apply last_any_default.
      * destruct ts; reflexivity.
    + intros _. destruct ts as [|t' ts'].
      * reflexivity.
      * rewrite H4 by discriminate. reflexivity.
Qed.

(** X24: in the store, a plain [selectCell] followed by any number of
    extending [selectCell] calls on cells of the sheet leaves one range
    selection that starts in the column of the first cell, ends in the
    column of the last, and whose rows reach from the smallest to the
    largest row index among all the cells passed: extending never drops a
    row that was selected before.  The current cell is the last one
    passed. *)
Theorem store_extension_keeps_every_target s (a t : N * string) ts :
  (forall x, In x (a :: ts ++ [t]) ->
     In (fst x) (map rid s.(rows)) /\ In (snd x) (map cid s.(columns))) ->
  let s' := extendStore (ts ++ [t]) (selectCell (fst a) (snd a) false s) in
  exists sel,
    selectedCells s' = [sel]
    /\ startColumn sel = snd a /\ endColumn sel = snd t /\ s_type sel = KRange
    /\ startRow sel
       = fold_left Z.min (map (fun x => rowIndexOf s (fst x)) (ts ++ [t])) (rowIndexOf s (fst a))
    /\ endRow sel
       = fold_left Z.max (map (fun x => rowIndexOf s (fst x)) (ts ++ [t])) (rowIndexOf s (fst a))
    /\ (forall x, In x (a :: ts ++ [t]) ->
          (startRow sel <= rowIndexOf s (fst x) <= endRow sel)%Z)
    /\ currentCell s' = Some (mkCell (fst t) (snd t) None None false true).
Proof.
  intros Hall s'.
  destruct (Hall a (or_introl eq_refl)) as [Ha1 Ha2].
  assert (E0 : selectCell (fst a) (snd a) false s
               = set_currentCell (Some (mkCell (fst a) (snd a) None None false true))
                   (set_selectedCells
                      [mkSelection (rowIndexOf s (fst a)) (rowIndexOf s (fst a))
                         (snd a) (snd a) KCell] s)).
  { unfold selectCell. fold (rowIndexOf s (fst a)).
    rewrite (findIndex_found_row s _ Ha1), (findIndex_found_col s _ Ha2). reflexivity. }
  destruct (extendStore_spans (ts ++ [t]) (selectCell (fst a) (snd a) false s) s
              (mkSelection (rowIndexOf s (fst a)) (rowIndexOf s (fst a)) (snd a) (snd a) KCell))
    as (_ & _ & H3 & H4).
  - rewrite E0. reflexivity.
  - rewrite E0. reflexivity.
  - rewrite E0. reflexivity.
  - intros x Hx. apply Hall. right. exact Hx.
  - fold s' in H3, H4. eexists. split; [exact H3|].
    cbn [startRow endRow startColumn endColumn s_type].
    split; [reflexivity|].
    split; [rewrite map_app; cbn [map]; rewrite last_last; reflexivity|].
    split; [destruct ts; reflexivity|].
    split; [reflexivity|]. split; [reflexivity|]. split.
    + intros x [<-|Hx].
      * split; [apply fold_min_le | apply fold_max_ge].
      * split; [apply fold_min_in | apply fold_max_in];
          apply (in_map (fun y => rowIndexOf s (fst y))); exact Hx.
    + rewrite H4 by (destruct ts; discriminate). rewrite last_last. reflexivity.
Qed.

Lemma store_extension_keeps_every_target_witness :
  exists sel,
    selectedCells (extendStore ([(3%N, "assignment1"%string)] ++ [(2%N, "assignment1"%string)])
                     (selectCell 1 "assignment1" false Examples.threeRows)) = [sel]
    /\ startColumn sel = "assignment1"%string /\ endColumn sel = "assignment1"%string
    /\ s_type sel = KRange
    /\ startRow sel
       = fold_left Z.min
           (map (fun x => rowIndexOf Examples.threeRows (fst x))
              ([(3%N, "assignment1"%string)] ++ [(2%N, "assignment1"%string)]))
           (rowIndexOf Examples.threeRows 1)
    /\ endRow sel
       = fold_left Z.max
           (map (fun x => rowIndexOf Examples.threeRows (fst x))
              ([(3%N, "assignment1"%string)] ++ [(2%N, "assignment1"%string)]))
           (rowIndexOf Examples.threeRows 1)
    /\ (forall x, In x ((1%N, "assignment1"%string)
                        :: [(3%N, "assignment1"%string)] ++ [(2%N, "assignment1"%string)]) ->
          (startRow sel <= rowIndexOf Examples.threeRows (fst x) <= endRow sel)%Z)
    /\ currentCell (extendStore ([(3%N, "assignment1"%string)] ++ [(2%N, "assignment1"%string)])
                      (selectCell 1 "assignment1" false Examples.threeRows))
       = Some (mkCell 2 "assignment1" None None false true).
Proof.
  apply (store_extension_keeps_every_target Examples.threeRows
           (1%N, "assignment1"%string) (2%N, "assignment1"%string)
           [(3%N, "assignment1"%string)]).
  intros x [<-|[<-|[<-|[]]]]; simpl; tauto.
Defined.

End StoreExtension.

(* ----------------------------------------------------------------- *)
(** ** Validating the whole sheet *)

Section ValidateAll.

(** The errors [validateAll] finds in one row. *)
Lemma row_errors_cells s row cols :
  NoDup (map cid cols) ->
  NoDup (map errorCell
           (flat_map
              (fun column =>
                 match validateCell s row.(rid) column.(cid)
                         (grade_at row.(grades) column.(cid)) with
                 | Some msg => [mkError row.(rid) column.(cid) msg TRange]
                 | None => []
                 end) cols))
  /\ forall e,
       In e (flat_map
               (fun column =>
                  match validateCell s row.(rid) column.(cid)
                          (grade_at row.(grades) column.(cid)) with
                  | Some msg => [mkError row.(rid) column.(cid) msg TRange]
                  | None => []
                  end) cols) <->
       exists col msg, In col cols
         /\ validateCell s row.(rid) col.(cid) (grade_at row.(grades) col.(cid)) = Some msg
         /\ e = mkError row.(rid) col.(cid) msg TRange.
Proof.
  intros Hnd.
  assert (Hin : forall cols' e,
            In e (flat_map
                    (fun column =>
                       match validateCell s row.(rid) column.(cid)
                               (grade_at row.(grades) column.(cid)) with
                       | Some msg => [mkError row.(rid) column.(cid) msg TRange]
                       | None => []
                       end) cols') <->
            exists col msg, In col cols'
              /\ validateCell s row.(rid) col.(cid) (grade_at row.(grades) col.(cid)) = Some msg
              /\ e = mkError row.(rid) col.(cid) msg TRange).
  { intros cols' e. rewrite in_flat_map. split.
    - intros (col & Hcol & He). destruct (validateCell _ _ _ _) as [msg|] eqn:E; [|contradiction].
      destruct He as [<-|[]]. exists col, msg. auto.
    - intros (col & msg & Hcol & E & ->). exists col. split; [exact Hcol|].
      rewrite E. left. reflexivity. }
  split; [|apply Hin].
  induction cols as [|col cols IH]; simpl; [constructor|].
  inversion Hnd as [|? ? Hfresh Hnd']; subst.
  rewrite map_app. apply NoDup_app.
  - destruct (validateCell _ _ _ _); simpl; repeat constructor. simpl. tauto.
  - apply IH. exact Hnd'.
  - intros k Hk Hk'. apply Hfresh.
    destruct (validateCell s (rid row) (cid col) _) as [msg|]; [|contradiction].
    destruct Hk as [<-|[]].
    apply in_map_iff in Hk' as (e & Ee & He). apply Hin in He as (col' & msg' & Hc' & _ & ->).
    unfold errorCell in Ee. cbn [e_rowId e_columnId] in Ee. injection Ee as <-.
    apply in_map. exact Hc'.
Qed.

(** X25: [validateAll] replaces the error list by one entry for every cell
    of the sheet whose stored value fails [validateCell], and nothing else:
    on a sheet with distinct row and column ids no cell has two entries,
    whatever had piled up before.  Running it again changes nothing, and it
    writes no row. *)
Theorem validateAll_one_error_per_cell s :
  NoDup (map rid s.(rows)) -> NoDup (map cid s.(columns)) ->
  let s' := validateAll s in
  NoDup (map errorCell (validationErrors s'))
  /\ (forall e, In e (validationErrors s') <->
        exists row col msg, In row s.(rows) /\ In col s.(columns)
          /\ validateCell s row.(rid) col.(cid) (grade_at row.(grades) col.(cid)) = Some msg
          /\ e = mkError row.(rid) col.(cid) msg TRange)
  /\ validateAll s' = s'
  /\ rows s' = rows s.
Proof.
  intros Hrows Hcols s'.
  assert (Hin : forall rs e,
            In e (flat_map
                    (fun row =>
                       flat_map
                         (fun column =>
                            match validateCell s row.(rid) column.(cid)
                                    (grade_at row.(grades) column.(cid)) with
                            | Some msg => [mkError row.(rid) column.(cid) msg TRange]
                            | None => []
                            end) s.(columns)) rs) <->
            exists row col msg, In row rs /\ In col s.(columns)
              /\ validateCell s row.(rid) col.(cid) (grade_at row.(grades) col.(cid)) = Some msg
              /\ e = mkError row.(rid) col.(cid) msg TRange).
  { intros rs e. rewrite in_flat_map. split.
    - intros (row & Hrow & He).
      apply (proj2 (row_errors_cells s row (columns s) Hcols)) in He
        as (col & msg & Hcol & E & ->).
      exists row, col, msg. auto.
    - intros (row & col & msg & Hrow & Hcol & E & ->). exists row. split; [exact Hrow|].
      apply (proj2 (row_errors_cells s row (columns s) Hcols)). exists col, msg. auto. }
  split; [|split; [apply Hin | split; [|reflexivity]]].
  - unfold s', validateAll. cbn [validationErrors set_validationErrors].
    induction (rows s) as [|row rs IH]; simpl; [constructor|].
    inversion Hrows as [|? ? Hfresh Hnd']; subst.
    rewrite map_app. apply NoDup_app.
    + apply (proj1 (row_errors_cells s row (columns s) Hcols)).
    + apply IH. exact Hnd'.
    + intros k Hk Hk'. apply Hfresh.
      apply in_map_iff in Hk as (e & Ee & He).
      apply (proj2 (row_errors_cells s row (columns s) Hcols)) in He as (col & msg & _ & _ & ->).
      apply in_map_iff in Hk' as (e' & Ee' & He').
      apply in_flat_map in He' as (row' & Hrow' & He').
      apply (proj2 (row_errors_cells s row' (columns s) Hcols)) in He' as (col' & msg' & _ & _ & ->).
      unfold errorCell in Ee, Ee'. cbn [e_rowId e_columnId] in Ee, Ee'. subst k.
      injection Ee' as E1 _. rewrite <- E1. apply in_map. exact Hrow'.
  - unfold s', validateAll. cbn [rows columns set_validationErrors].
    unfold set_validationErrors. cbn. f_equal.
Qed.

Lemma validateAll_one_error_per_cell_witness :
  NoDup (map errorCell (validationErrors (validateAll Examples.outOfRange))).
Proof.
  apply (validateAll_one_error_per_cell Examples.outOfRange).
  - simpl. repeat constructor. simpl. tauto.
  - simpl. repeat constructor. simpl. tauto.
Defined.

End ValidateAll.

(* ----------------------------------------------------------------- *)
(** ** Opening and closing a cell editor *)

Section EditingACell.

(** X26: with no edit in progress, opening an editor on a cell of an
    existing row and cancelling it gives back the very same state, while
    opening it and confirming it without a new value being put in writes
    the value read at opening back through [updateCell]: every other cell
    keeps its value, the cell holds what it held ([null] if it held
    nothing), and the row is marked modified. *)
Theorem edit_round_trip s r c row :
  find (row_is r) s.(rows) = Some row ->
  s.(editingCell) = None ->
  cancelEdit (startEdit r c s) = s
  /\ let s' := finishEdit (startEdit r c s) in
     editingCell s' = None
     /\ cellValue s' r c = Some (Some (grade_at row.(grades) c))
     /\ (forall r' c', (r', c') <> (r, c) -> cellValue s' r' c' = cellValue s r' c')
     /\ rowModified s' r = Some true.
Proof.
  intros F He.
  assert (Es : startEdit r c s
               = set_editingCell
                   (Some (mkCell r c (grade_at (grades row) c) (grade_at (grades row) c) true true)) s).
  { unfold startEdit. rewrite F. reflexivity. }
  split.
  - rewrite Es. unfold cancelEdit. cbn [editingCell set_editingCell].
    destruct s. cbn in He |- *. subst. reflexivity.
  - intros s'.
    assert (Ef : s' = set_editingCell None
                        (updateCell r c (grade_at (grades row) c) (startEdit r c s))).
    { unfold s', finishEdit. rewrite Es. reflexivity. }
    assert (Hin : In r (map rid (rows (startEdit r c s)))).
    { rewrite Es. cbn [rows set_editingCell]. apply find_some in F as [Hin E].
      apply N.eqb_eq in E. rewrite <- E. apply in_map. exact Hin. }
    assert (F' : find (row_is r) (rows (startEdit r c s)) = Some row)
      by (rewrite Es; exact F).
    split; [rewrite Ef; reflexivity|]. split; [|split].
    + rewrite Ef.
      change (cellValue (updateCell r c (grade_at (grades row) c) (startEdit r c s)) r c
              = Some (Some (grade_at (grades row) c))).
      apply updateCell_writes. exact Hin.
    + intros r' c' Hne. rewrite Ef.
      change (cellValue (updateCell r c (grade_at (grades row) c) (startEdit r c s)) r' c'
              = cellValue s r' c').
      rewrite updateCell_keeps by exact Hne. rewrite Es. reflexivity.
    + rewrite Ef.
      change (rowModified (updateCell r c (grade_at (grades row) c) (startEdit r c s)) r
              = Some true).
      destruct (updateCell_effect r c (grade_at (grades row) c) (startEdit r c s) row F')
        as (w & op & Hr & Hw & _).
      unfold rowModified. rewrite Hr.
      rewrite find_update_first_same by (intros x; apply Hw).
      rewrite F'. cbn [option_map]. f_equal. apply Hw.
Qed.

Lemma edit_round_trip_witness :
  cancelEdit (startEdit 1 "assignment1" Examples.loaded) = Examples.loaded.
Proof.
  apply (edit_round_trip Examples.loaded 1 "assignment1" Examples.zhangsan).
  - reflexivity.
  - reflexivity.
Defined.

End EditingACell.

(* ----------------------------------------------------------------- *)
(** ** What a batch operation leaves alone *)

Section Frame.

Lemma batch_frame s f r c :
  wf_grid s ->
  (forall x, In x (selectionLoop s) -> (rid (lc_rowData x), cid (lc_column x)) <> (r, c)) ->
  cellValue (batchUpdate (collectUpdates s f) s) r c = cellValue s r c.
Proof.
  intros Hwf Hout. apply batchUpdate_keeps.
  - intros k Hk. apply (collect_keys f (selectionLoop s) []) in Hk as [[]|(x & Hx & <-)].
    apply (loopKey_plain s Hwf). exact Hx.
  - intros Hk. apply (collect_keys f (selectionLoop s) []) in Hk as [[]|(x & Hx & E)].
    unfold loopKey in E. apply cellKey_inj in E as [E1 E2].
    apply (Hout x Hx). congruence.
Qed.

(** X27: on a well-formed sheet, [clear], [fill], [addPoints],
    [multiplyBy] and [setPercentage] change no cell outside the selection:
    a cell that is not one of those the selection loop visits holds
    afterwards what it held before. *)
Theorem batch_operations_stay_in_selection s r c :
  wf_grid s ->
  (forall x, In x (selectionLoop s) -> (rid (lc_rowData x), cid (lc_column x)) <> (r, c)) ->
  cellValue (clear s) r c = cellValue s r c
  /\ (forall d, cellValue (fill d s) r c = cellValue s r c)
  /\ (forall points, cellValue (addPoints points s) r c = cellValue s r c)
  /\ (forall factor, cellValue (multiplyBy factor s) r c = cellValue s r c)
  /\ (forall percentage, cellValue (setPercentage percentage s) r c = cellValue s r c).
Proof.
  intros Hwf Hout. unfold setPercentage, clear, fill, addPoints, multiplyBy.
  split; [apply batch_frame; assumption|].
  split; [intros d; destruct (selectedCells s); [reflexivity | apply batch_frame; assumption]|].
  split; [intros points; apply batch_frame; assumption|].
  split; intros x; apply batch_frame; assumption.
Qed.

Lemma batch_operations_stay_in_selection_witness :
  cellValue (clear Examples.secondSelected) 1 "assignment1"
  = cellValue Examples.secondSelected 1 "assignment1".
Proof.
  assert (Hwf : wf_grid Examples.secondSelected).
  { constructor; simpl.
    - repeat constructor; simpl; intuition discriminate.
    - repeat constructor; simpl; tauto.
    - intros c [<-|[]]. reflexivity.
    - intros r [<-|[<-|[]]]; simpl; (split; [repeat constructor; simpl; tauto|]);
        intros k [<-|[]]; reflexivity. }
  assert (Hout : forall x, In x (selectionLoop Examples.secondSelected) ->
                   (rid (lc_rowData x), cid (lc_column x)) <> (1%N, "assignment1"%string)).
  { intros x [<-|[]]. simpl. discriminate. }
  exact (proj1 (batch_operations_stay_in_selection Examples.secondSelected 1 "assignment1"
                  Hwf Hout)).
Defined.

End Frame.

(* ----------------------------------------------------------------- *)
(** ** Ranks follow totals *)

Section RankOrder.

Lemma findIndex_lt_length {A} (p : A -> bool) l :
  (Arr.findIndex p l < Z.of_nat (List.length l))%Z.
Proof.
  induction l as [|x l IH]; simpl; [lia|].
  destruct (p x); [lia|]. destruct (Arr.findIndex p l <? 0)%Z; lia.
Qed.

(** In an array sorted by descending total, a row with a larger total is
    found before a row with a smaller one. *)
Lemma sorted_index_order l : forall r1 r2,
  StronglySorted desc l -> NoDup (map rid l) ->
  In r1 l -> In r2 l ->
  (totalScore r2 < totalScore r1)%Q ->
  (Arr.findIndex (row_is (rid r1)) l < Arr.findIndex (row_is (rid r2)) l)%Z.
Proof.
  induction l as [|x l IH]; intros r1 r2 Hs Hnd H1 H2 Hlt; [contradiction|].
  inversion Hs as [|? ? Hs' Hall]; subst. inversion Hnd as [|? ? Hfresh Hnd']; subst.
  rewrite Forall_forall in Hall.
  assert (Hdiff : rid r1 <> rid r2).
  { intros E. assert (r1 = r2) by (apply (NoDup_map_eq rid (x :: l) r1 r2 Hnd H1 H2 E)).
    subst. apply (Qlt_irrefl _ Hlt). }
  assert (Hin : forall r, In r (x :: l) -> rid x <> rid r -> In r l).
  { intros r [->|H] Hne; [congruence | exact H]. }
  assert (Hhead : forall r, In r (x :: l) -> rid x = rid r -> r = x).
  { intros r Hr E. symmetry.
    apply (NoDup_map_eq rid (x :: l) x r Hnd (or_introl eq_refl) Hr E). }
  rewrite !findIndex_cons.
  change (row_is (rid r1) x) with (N.eqb (rid x) (rid r1)).
  change (row_is (rid r2) x) with (N.eqb (rid x) (rid r2)).
  destruct (N.eqb_spec (rid x) (rid r1)) as [E1|E1];
    destruct (N.eqb_spec (rid x) (rid r2)) as [E2|E2].
  - congruence.
  - pose proof (findIndex_some (row_is (rid r2)) l r2 (Hin r2 H2 E2) (N.eqb_refl _)) as Hge.
    destruct (Arr.findIndex (row_is (rid r2)) l <? 0)%Z eqn:F;
      [apply Z.ltb_lt in F; lia | lia].
  - exfalso. rewrite (Hhead r2 H2 E2) in Hlt.
    pose proof (Hall r1 (Hin r1 H1 E1)) as Hd. unfold desc in Hd.
    apply (Qlt_not_le _ _ Hlt Hd).
  - pose proof (IH r1 r2 Hs' Hnd' (Hin r1 H1 E1) (Hin r2 H2 E2) Hlt) as Ho.
    pose proof (findIndex_some (row_is (rid r1)) l r1 (Hin r1 H1 E1) (N.eqb_refl _)) as Hge1.
    pose proof (findIndex_some (row_is (rid r2)) l r2 (Hin r2 H2 E2) (N.eqb_refl _)) as Hge2.
    destruct (Arr.findIndex (row_is (rid r1)) l <? 0)%Z eqn:F1;
      [apply Z.ltb_lt in F1; lia|].
    destruct (Arr.findIndex (row_is (rid r2)) l <? 0)%Z eqn:F2;
      [apply Z.ltb_lt in F2; lia|]. lia.
Qed.

(** X28: with distinct row ids, the ranks [calculateRanks] assigns run
    from 1 to the number of rows, and a row with a larger total always gets
    a smaller rank number than a row with a smaller total. *)
Theorem higher_total_ranks_first s r1 r2 :
  NoDup (map rid s.(rows)) ->
  In r1 (rows (calculateRanks s)) -> In r2 (rows (calculateRanks s)) ->
  (1 <= rank r1 <= Z.of_nat (List.length s.(rows)))%Z
  /\ ((totalScore r2 < totalScore r1)%Q -> (rank r1 < rank r2)%Z).
Proof.
  intros Hnd H1 H2. rewrite (calculateRanks_rows s Hnd) in H1, H2.
  apply in_map_iff in H1 as (x1 & <- & Hx1), H2 as (x2 & <- & Hx2).
  cbn [rank totalScore set_rank].
  rewrite <- !sorted_position by assumption.
  assert (Hp : forall x, In x (rows s) -> In x (sortByTotalDesc (rows s)))
    by (intros x Hx; eapply Permutation_in; [apply sort_perm | exact Hx]).
  assert (Hnd' : NoDup (map rid (sortByTotalDesc (rows s))))
    by (eapply Permutation_NoDup; [apply Permutation_map, sort_perm | exact Hnd]).
  split.
  - pose proof (findIndex_some (row_is (rid x1)) _ x1 (Hp x1 Hx1) (N.eqb_refl _)).
    pose proof (findIndex_lt_length (row_is (rid x1)) (sortByTotalDesc (rows s))) as Hl.
    rewrite <- (Permutation_length (sort_perm (rows s))) in Hl. lia.
  - intros Hlt.
    pose proof (sorted_index_order _ x1 x2 (sort_sorted (rows s)) Hnd' (Hp x1 Hx1) (Hp x2 Hx2) Hlt).
    lia.
Qed.

Lemma higher_total_ranks_first_witness :
  (1 <= rank (mkRow 1 [("assignment1"%string, Some (9025 # 100))] (1805 # 100) (9025 # 100) 1 true false)
   <= Z.of_nat (List.length (rows Examples.oneDirty)))%Z.
Proof.
  apply (higher_total_ranks_first Examples.oneDirty
           (mkRow 1 [("assignment1"%string, Some (9025 # 100))] (1805 # 100) (9025 # 100) 1 true false)
           (mkRow 2 [("assignment1"%string, Some (8525 # 100))] (1705 # 100) (8525 # 100) 2 false false)).
  - simpl. repeat constructor; simpl; intuition discriminate.
  - left. reflexivity.
  - right. left. reflexivity.
Defined.

End RankOrder.

(* ----------------------------------------------------------------- *)
(** ** Clearing a selected column or row *)

Section SelectedLine.

Lemma selectionLoop_spec s x :
  In x (selectionLoop s) <->
  In (lc_selection x) s.(selectedCells)
  /\ (startRow (lc_selection x) <= lc_row x <= endRow (lc_selection x))%Z
  /\ (columnIndex s (startColumn (lc_selection x)) <= lc_colIndex x
      <= columnIndex s (endColumn (lc_selection x)))%Z
  /\ Arr.at_ s.(rows) (lc_row x) = Some (lc_rowData x)
  /\ Arr.at_ s.(columns) (lc_colIndex x) = Some (lc_column x).
Proof.
  unfold selectionLoop. rewrite in_flat_map. split.
  - intros (sel & Hsel & H).
    apply in_flat_map in H as (row & Hrow & H).
    apply in_flat_map in H as (colIndex & Hcol & H).
    destruct (Arr.at_ (rows s) row) as [rowData|] eqn:Er; [|contradiction].
    destruct (Arr.at_ (columns s) colIndex) as [column|] eqn:Ec; [|contradiction].
    destruct H as [<-|[]]. cbn [lc_selection lc_row lc_colIndex lc_rowData lc_column].
    apply range_In in Hrow, Hcol. auto.
  - intros (Hsel & Hrow & Hcol & Er & Ec). exists (lc_selection x). split; [exact Hsel|].
    apply in_flat_map. exists (lc_row x). split; [apply range_In; exact Hrow|].
    apply in_flat_map. exists (lc_colIndex x). split; [apply range_In; exact Hcol|].
    rewrite Er, Ec. left. destruct x. reflexivity.
Qed.

Lemma at_unique_hit {A} (l : list A) (p : A -> bool) y :
  Arr.at_ l (Arr.findIndex p l) = Some y -> p y = true.
Proof.
  intros H. destruct (findIndex_hit p l) as (x & Hx & Px).
  - pose proof (at_bounds _ _ _ H). lia.
  - congruence.
Qed.

(** X29: on a well-formed sheet, selecting a column and clearing leaves
    every row with [null] in that column and every other cell as it was;
    selecting a row and clearing leaves that row with [null] in every
    column of the sheet and every other row as it was. *)
Theorem clear_selected_line s :
  wf_grid s ->
  (forall columnId r c,
     In columnId (map cid s.(columns)) -> In r (map rid s.(rows)) ->
     cellValue (clear (selectColumn columnId false s)) r c
     = if String.eqb c columnId then Some (Some None) else cellValue s r c)
  /\ (forall rowId r c,
        In rowId (map rid s.(rows)) -> In c (map cid s.(columns)) ->
        cellValue (clear (selectRow rowId false s)) r c
        = if N.eqb r rowId then Some (Some None) else cellValue s r c).
Proof.
  intros Hwf. split.
  - intros columnId r c Hc Hr.
    set (sel := mkSelection 0 (Z.of_nat (List.length (rows s)) - 1) columnId columnId KColumn).
    assert (Es : selectColumn columnId false s = set_selectedCells [sel] s).
    { unfold selectColumn. rewrite (findIndex_found_col s columnId Hc). reflexivity. }
    rewrite Es.
    assert (Hwf' : wf_grid (set_selectedCells [sel] s))
      by (apply (wf_grid_ext s); [reflexivity | reflexivity | exact Hwf]).
    apply in_map_iff in Hc as (col & Ecol & Hcol).
    assert (Hidx : columnIndex (set_selectedCells [sel] s) columnId
                   = Arr.findIndex (col_is columnId) (columns s)) by reflexivity.
    destruct (findIndex_hit (col_is columnId) (columns s)) as (col0 & Hat & Hp).
    { apply (findIndex_some _ _ col Hcol). unfold col_is. rewrite Ecol. apply String.eqb_refl. }
    apply String.eqb_eq in Hp.
    destruct (String.eqb_spec c columnId) as [->|Hne].
    + apply in_map_iff in Hr as (row & <- & Hrow).
      destruct (In_nth_error _ _ Hrow) as [i Hi].
      assert (Hil : (i < List.length (rows s))%nat) by (apply nth_error_Some; congruence).
      unfold clear. rewrite <- Hp.
      apply (batch_writes (set_selectedCells [sel] s) _ Hwf' (fun _ _ => None)
               (mkLoopCell sel (Z.of_nat i) (Arr.findIndex (col_is columnId) (columns s)) row col0));
        [reflexivity|].
      apply selectionLoop_spec. cbn [lc_selection lc_row lc_colIndex lc_rowData lc_column].
      split; [left; reflexivity|].
      change (startRow sel) with 0%Z.
      change (endRow sel) with (Z.of_nat (List.length (rows s)) - 1)%Z.
      change (startColumn sel) with columnId. change (endColumn sel) with columnId.
      rewrite Hidx. split; [lia|]. split; [lia|]. split; [|exact Hat].
      cbn [rows set_selectedCells]. rewrite at_nth. exact Hi.
    + unfold clear. rewrite batch_frame; [reflexivity | exact Hwf' |].
      intros x Hx E. apply selectionLoop_spec in Hx as (Hsel & _ & Hci & _ & Hcx).
      destruct Hsel as [Hsel|[]]. rewrite <- Hsel in Hci.
      change (startColumn sel) with columnId in Hci. change (endColumn sel) with columnId in Hci.
      rewrite Hidx in Hci.
      assert (Ei : lc_colIndex x = Arr.findIndex (col_is columnId) (columns s)) by lia.
      rewrite Ei in Hcx. cbn [columns set_selectedCells] in Hcx.
      apply at_unique_hit in Hcx. apply String.eqb_eq in Hcx.
      injection E as _ Ec. congruence.
  - intros rowId r c Hr Hc.
    set (first := match hd_error (columns s) with Some x => cid x | None => EmptyString end).
    set (final := match lastColumn s with Some x => cid x | None => EmptyString end).
    set (ri := Arr.findIndex (row_is rowId) (rows s)).
    set (sel := mkSelection ri ri first final KRow).
    assert (Es : selectRow rowId false s = set_selectedCells [sel] s).
    { unfold selectRow. fold (rowIndexOf s rowId). rewrite (findIndex_found_row s rowId Hr).
      reflexivity. }
    rewrite Es.
    assert (Hwf' : wf_grid (set_selectedCells [sel] s))
      by (apply (wf_grid_ext s); [reflexivity | reflexivity | exact Hwf]).
    apply in_map_iff in Hr as (row & Erow & Hrow).
    destruct (findIndex_hit (row_is rowId) (rows s)) as (row0 & Hat & Hp).
    { apply (findIndex_some _ _ row Hrow). unfold row_is. rewrite Erow. apply N.eqb_refl. }
    apply N.eqb_eq in Hp. fold ri in Hat.
    destruct (N.eqb_spec r rowId) as [->|Hne].
    + apply in_map_iff in Hc as (col & <- & Hcol).
      destruct (In_nth_error _ _ Hcol) as [j Hj].
      assert (Hjl : (j < List.length (columns s))%nat) by (apply nth_error_Some; congruence).
      (* the first and the last column bound every column index *)
      destruct (columns s) as [|c0 cols] eqn:Ecols; [destruct j; discriminate|].
      assert (Hfirst : columnIndex (set_selectedCells [sel] s) first = 0%Z).
      { unfold columnIndex, first. cbn [columns set_selectedCells hd_error]. rewrite Ecols.
        cbn [hd_error]. apply (findIndex_nth_col (c0 :: cols) 0 c0); [|reflexivity].
        rewrite <- Ecols. apply (wf_cols _ Hwf). }
      assert (Hfinal : columnIndex (set_selectedCells [sel] s) final
                       = Z.of_nat (List.length cols)).
      { unfold columnIndex, final, lastColumn. cbn [columns set_selectedCells]. rewrite Ecols.
        replace (Z.of_nat (List.length (c0 :: cols)) - 1)%Z with (Z.of_nat (List.length cols))
          by (simpl List.length; lia).
        rewrite at_nth.
        destruct (nth_error (c0 :: cols) (List.length cols)) as [cl|] eqn:El.
        - apply (findIndex_nth_col (c0 :: cols) _ cl); [|exact El].
          rewrite <- Ecols. apply (wf_cols _ Hwf).
        - apply nth_error_None in El. simpl in El. lia. }
      unfold clear. rewrite <- Hp.
      apply (batch_writes (set_selectedCells [sel] s) _ Hwf' (fun _ _ => None)
               (mkLoopCell sel ri (Z.of_nat j) row0 col)); [reflexivity|].
      apply selectionLoop_spec. cbn [lc_selection lc_row lc_colIndex lc_rowData lc_column].
      split; [left; reflexivity|].
      change (startRow sel) with ri. change (endRow sel) with ri.
      change (startColumn sel) with first. change (endColumn sel) with final.
      rewrite Hfirst, Hfinal. split; [lia|]. split; [simpl in Hjl; lia|].
      split; [exact Hat|]. cbn [columns set_selectedCells]. rewrite Ecols, at_nth. exact Hj.
    + unfold clear. rewrite batch_frame; [reflexivity | exact Hwf' |].
      intros x Hx E. apply selectionLoop_spec in Hx as (Hsel & Hri & _ & Hrx & _).
      destruct Hsel as [Hsel|[]]. rewrite <- Hsel in Hri.
      change (startRow sel) with ri in Hri. change (endRow sel) with ri in Hri.
      assert (Ei : lc_row x = ri) by lia.
      rewrite Ei in Hrx. cbn [rows set_selectedCells] in Hrx.
      apply at_unique_hit in Hrx. apply N.eqb_eq in Hrx.
      injection E as Er _. congruence.
Qed.

Lemma clear_selected_line_witness :
  cellValue (clear (selectColumn "assignment1" false Examples.oneDirty)) 2 "assignment1"
  = Some (Some None).
Proof.
  assert (Hwf : wf_grid Examples.oneDirty).
  { constructor; simpl.
    - repeat constructor; simpl; intuition discriminate.
    - repeat constructor; simpl; tauto.
    - intros c [<-|[]]. reflexivity.
    - intros r [<-|[<-|[]]]; simpl; (split; [repeat constructor; simpl; tauto|]);
        intros k [<-|[]]; reflexivity. }
  assert (Hc : In "assignment1"%string (map cid (columns Examples.oneDirty)))
    by (left; reflexivity).
  assert (Hr : In 2%N (map rid (rows Examples.oneDirty)))
    by (right; left; reflexivity).
  exact (proj1 (clear_selected_line Examples.oneDirty Hwf) "assignment1"%string 2%N
           "assignment1"%string Hc Hr).
Defined.

End SelectedLine.

(* ----------------------------------------------------------------- *)
(** ** Unsaved changes *)

Section UnsavedChanges.

Lemma addToHistory_settings op p n s :
  config (addToHistory op p n s) = config s
  /\ autoSaveTimer (addToHistory op p n s) = autoSaveTimer s
  /\ saving (addToHistory op p n s) = saving s.
Proof.
  unfold addToHistory. cbv zeta. destruct (100 <? _)%nat; repeat split.
Qed.

Lemma update_first_hit id f l (row : StudentGradeRow) :
  find (row_is id) l = Some row -> In (f row) (Arr.update_first (row_is id) f l).
Proof.
  induction l as [|x l IH]; simpl; [discriminate|].
  destruct (row_is id x) eqn:E.
  - intros H. injection H as ->. left. reflexivity.
  - intros H. right. apply IH, H.
Qed.

(** X30: an [updateCell] on a row of the sheet always leaves the sheet
    with unsaved changes, whatever the value and whether or not it passes
    validation; [canSave] then only depends on a save being in flight, and
    the autosave timer is armed when autosave is enabled.  An [updateCell]
    on a row id the sheet does not have changes nothing at all. *)
Theorem edit_marks_unsaved r c v s :
  (In r (map rid s.(rows)) ->
     hasUnsavedChanges (updateCell r c v s) = true
     /\ canSave (updateCell r c v s) = negb s.(saving)
     /\ autoSaveTimer (updateCell r c v s) = s.(config).(as_enabled) || s.(autoSaveTimer))
  /\ (~ In r (map rid s.(rows)) -> updateCell r c v s = s).
Proof.
  split.
  - intros Hin. destruct (find_row_in r _ Hin) as [row F].
    assert (Hun : hasUnsavedChanges (updateCell r c v s) = true).
    { destruct (updateCell_effect r c v s row F) as (w & op & Hr & Hw & _).
      unfold hasUnsavedChanges, modifiedRows. rewrite Hr, length_map. apply Nat.ltb_lt.
      assert (Hm : In (w row)
                     (filter (fun x => isModified x || hasErrors x)
                        (Arr.update_first (row_is r) w (rows s)))).
      { apply filter_In. split; [apply update_first_hit; exact F|].
        destruct (Hw row) as (_ & _ & -> & _). reflexivity. }
      destruct (filter _ _); [contradiction | simpl; lia]. }
    split; [exact Hun|].
    unfold canSave. rewrite Hun. cbn [andb].
    unfold updateCell. rewrite F.
    match goal with
    | |- context [addToHistory ?op ?p ?n ?s1] =>
        destruct (addToHistory_settings op p n s1) as (H1 & H2 & H3)
    end.
    cbn [config autoSaveTimer saving set_rows set_validationErrors] in H1, H2, H3.
    rewrite H1. destruct (as_enabled (config s)); cbn [orb].
    + split; [|reflexivity]. unfold scheduleAutoSave. cbn [saving set_autoSaveTimer].
      rewrite H3. reflexivity.
    + rewrite H2, H3. split; reflexivity.
  - intros Hout. unfold updateCell.
    destruct (find (row_is r) (rows s)) as [row|] eqn:F; [|reflexivity].
    exfalso. apply Hout. apply find_some in F as [Hin E]. apply N.eqb_eq in E.
    rewrite <- E. apply in_map. exact Hin.
Qed.

Lemma edit_marks_unsaved_witness :
  hasUnsavedChanges (updateCell 1 "assignment1" (Some 150%Q) Examples.loaded) = true.
Proof.
  apply (proj1 (edit_marks_unsaved 1 "assignment1" (Some 150%Q) Examples.loaded)).
  left. reflexivity.
Defined.

End UnsavedChanges.
